(** * tm-backend: the transactional task layer, embedded and verified

    A shallow embedding of the task-management backend:
    - [transaction.util]  : [withTransaction], [withRetryableTransaction],
                            [isRetryableError];
    - [Task.model]        : the task schema, its pre-save hook,
                            [markAsCompleted], [isOwnedBy], [getTasksByUser];
    - [task.service]      : single-task and bulk operations;
    - [websocket.service] : rooms and the three [emitTask*] functions;
    - [User.model] / [user.service] : [passwordChangedAt] bookkeeping and
                            [passwordChangedAfterJWT].

    A MongoDB collection is a finite map from [_id] to document.  Wall-clock
    reads ([new Date()], [Date.now()]) are explicit [now] arguments, in
    milliseconds since the epoch. *)

From Stdlib Require Import ZArith NArith String Ascii.
From stdpp Require Import gmap strings list fin_maps sorting pretty.

Local Open Scope string_scope.
Local Open Scope Z_scope.
Local Open Scope list_scope.

(** ** JavaScript errors and completions *)

(** A thrown [Error] object, as far as this code looks at it: its message,
    its [code] property, and, when the object has an own property
    [hasErrorLabel], the labels for which that function answers true. *)
Record JsError := mkJsError {
  message : string;
  code : option Z;
  ownHasErrorLabel : option (list string)
}.

(** [new Error(msg)] *)
Definition Error (msg : string) : JsError :=
  {| message := msg; code := None; ownHasErrorLabel := None |}.

(** The server's answer to an insert that breaks a unique index. *)
Definition DuplicateKey : JsError :=
  {| message := "E11000 duplicate key error";
     code := Some 11000; ownHasErrorLabel := None |}.

#[global] Instance JsError_eq_dec : EqDecision JsError.
Proof. solve_decision. Defined.

(** What an [async] function settles with: a value, or a thrown value.  The
    thrown value is [None] when it is [undefined]. *)
Inductive Completion (A : Type) : Type :=
  | Return (a : A)
  | Throw (e : option JsError).
Arguments Return {A} a.
Arguments Throw {A} e.

(** [s.startsWith(p)] *)
Fixpoint starts_with (p s : string) : bool :=
  match p, s with
  | EmptyString, _ => true
  | String _ _, EmptyString => false
  | String a p', String b s' => bool_decide (a = b) && starts_with p' s'
  end.

(** [s.includes(sub)]: does [sub] occur in [s]? *)
Fixpoint includes (sub s : string) : bool :=
  starts_with sub s
  || match s with
     | EmptyString => false
     | String _ s' => includes sub s'
     end.

(** ** transaction.util *)

Module Transaction.

Section Executor.
(** [D] is the data a transaction reads and writes; [E] is everything
    a unit of work meets that no abort undoes: the storage engine's
    condition, what other clients do meanwhile. *)
Context {E D A : Type}.

(** A unit of work: either yields a value or throws. *)
Definition Operations := E * D → (A + JsError) * (E * D).

(** [withTransaction].  It hands the unit of work to the driver's
    [session.withTransaction], which is no part of this code.  The driver
    is taken to run the unit once, to commit what a unit that returns has
    written, and to abort, undoing the writes, when the unit throws; its
    own retries and a commit whose result stays unknown are left out.
    What is proved of the executor below holds for any function in this
    place, unless it says otherwise. *)
Definition withTransaction (operations : Operations) : Operations :=
  fun w =>
    match operations w with
    | (inl result, w') => (inl result, w')
    | (inr error, (e', _)) => (inr error, (e', snd w))
    end.

Definition retryableErrorCodes : list Z :=
  [ 11000   (* DuplicateKey *)
  ; 16500   (* TransientTransactionError *)
  ; 17280   (* WriteConflict *)
  ; 251     (* NoSuchTransaction *) ].

Definition retryableLabels : list string :=
  [ "TransientTransactionError"; "UnknownTransactionCommitResult" ].

(** [retryableErrorCodes.includes(error.code)]: an absent code is
    [undefined], which the list does not hold. *)
Definition includes_code (c : option Z) : bool :=
  match c with
  | Some n => bool_decide (n ∈ retryableErrorCodes)
  | None => false
  end.

(** [error.hasOwnProperty('hasErrorLabel') && error.hasErrorLabel(label)] *)
Definition hasErrorLabel (error : JsError) (label : string) : bool :=
  match ownHasErrorLabel error with
  | Some labels => bool_decide (label ∈ labels)
  | None => false
  end.

Definition isRetryableError (error : JsError) : bool :=
  includes_code (code error)
  || existsb (hasErrorLabel error) retryableLabels.

(** How a run of the executor ends: what the caller gets, the world
    left behind, and the [setTimeout] delays (milliseconds) waited,
    oldest first. *)
Record Run := mkRun {
  outcome : Completion A;
  world : E * D;
  delays : list Z
}.

(** The [for] loop of [withRetryableTransaction], entered with
    [remaining] iterations left before [attempt] exceeds [maxRetries]. *)
Fixpoint retry_loop (txn : Operations) (maxRetries : nat)
    (remaining attempt : nat) (lastError : option JsError)
    (w : E * D) (waited : list Z) : Run :=
  match remaining with
  | O => mkRun (Throw lastError) w waited
  | S remaining' =>
      match txn w with
      | (inl result, w') => mkRun (Return result) w' waited
      | (inr error, w') =>
          if isRetryableError error && (attempt <? maxRetries)%nat
          then retry_loop txn maxRetries remaining' (S attempt)
                 (Some error) w' (waited ++ [2 ^ Z.of_nat attempt * 100])
          else mkRun (Throw (Some error)) w' waited
      end
  end.

Definition withRetryableTransaction (operations : Operations)
    (maxRetries : nat) (w : E * D) : Run :=
  retry_loop (withTransaction operations) maxRetries maxRetries 1 None w [].

(** The [i]-th call (from 0) of [txn] when each call starts in the world
    the previous one left. *)
Fixpoint nth_call (txn : Operations) (w : E * D) (i : nat)
    : (A + JsError) * (E * D) :=
  match i with
  | O => txn w
  | S i' => nth_call txn (snd (txn w)) i'
  end.

End Executor.

Arguments Operations : clear implicits.
Arguments Run : clear implicits.

(** The delays [Math.pow(2, attempt) * 100] waited after the failed
    attempts [first], ..., [first + k - 1]. *)
Definition backoff (first k : nat) : list Z :=
  map (λ attempt, 2 ^ Z.of_nat attempt * 100) (seq first k).

(** A unit of work that meets nothing but the data. *)
Definition on_data {D A} (f : D → (A + JsError) * D) : Operations unit D A :=
  fun w => let '(r, d') := f (snd w) in (r, (fst w, d')).

(** What the caller gets from the call that ends a run. *)
Definition settle {A} (r : A + JsError) : Completion A :=
  match r with
  | inl v => Return v
  | inr e => Throw (Some e)
  end.

(** The time waited in all, in milliseconds. *)
Definition total_delay (waited : list Z) : Z := fold_right Z.add 0 waited.

End Transaction.

(** ** Task.model *)

Module TaskModel.

Definition ObjectId := N.
(** Milliseconds since the epoch, as [Date.prototype.getTime] gives them. *)
Definition Date := Z.

Inductive Status := pending | in_progress | completed.
Inductive Priority := low | medium | high | urgent.

#[global] Instance Status_eq_dec : EqDecision Status.
Proof. solve_decision. Defined.
#[global] Instance Priority_eq_dec : EqDecision Priority.
Proof. solve_decision. Defined.

(** The string each enum value is stored as. *)
Definition status_string (s : Status) : string :=
  match s with
  | pending => "pending"
  | in_progress => "in-progress"
  | completed => "completed"
  end.

(** A task document.  Its [_id] is its key in the collection.  Schema
    defaults: [status = pending], [priority = medium], [dueDate = null],
    [completedAt = null]; [timestamps: true] adds the last two fields.
    The schema's [trim] setters and its validators are described in
    [TaskValidators] below. *)
Record Task := mkTask {
  title : string;
  description : string;
  status : Status;
  user : ObjectId;
  priority : Priority;
  dueDate : option Date;
  completedAt : option Date;
  tags : list string;
  createdAt : Date;
  updatedAt : Date
}.

#[global] Instance Task_eq_dec : EqDecision Task.
Proof. solve_decision. Defined.

Definition set_title (v : string) (t : Task) : Task :=
  mkTask v (description t) (status t) (user t) (priority t) (dueDate t)
    (completedAt t) (tags t) (createdAt t) (updatedAt t).
Definition set_description (v : string) (t : Task) : Task :=
  mkTask (title t) v (status t) (user t) (priority t) (dueDate t)
    (completedAt t) (tags t) (createdAt t) (updatedAt t).
Definition set_status (v : Status) (t : Task) : Task :=
  mkTask (title t) (description t) v (user t) (priority t) (dueDate t)
    (completedAt t) (tags t) (createdAt t) (updatedAt t).
Definition set_priority (v : Priority) (t : Task) : Task :=
  mkTask (title t) (description t) (status t) (user t) v (dueDate t)
    (completedAt t) (tags t) (createdAt t) (updatedAt t).
Definition set_dueDate (v : option Date) (t : Task) : Task :=
  mkTask (title t) (description t) (status t) (user t) (priority t) v
    (completedAt t) (tags t) (createdAt t) (updatedAt t).
Definition set_completedAt (v : option Date) (t : Task) : Task :=
  mkTask (title t) (description t) (status t) (user t) (priority t) (dueDate t)
    v (tags t) (createdAt t) (updatedAt t).
Definition set_tags (v : list string) (t : Task) : Task :=
  mkTask (title t) (description t) (status t) (user t) (priority t) (dueDate t)
    (completedAt t) v (createdAt t) (updatedAt t).
Definition set_createdAt (v : Date) (t : Task) : Task :=
  mkTask (title t) (description t) (status t) (user t) (priority t) (dueDate t)
    (completedAt t) (tags t) v (updatedAt t).
Definition set_updatedAt (v : Date) (t : Task) : Task :=
  mkTask (title t) (description t) (status t) (user t) (priority t) (dueDate t)
    (completedAt t) (tags t) (createdAt t) v.

(** The schema's invariant: [completedAt] is set exactly on completed
    tasks. *)
Definition completion_consistent (t : Task) : Prop :=
  status t = completed ↔ completedAt t ≠ None.

(** The [tasks] collection. *)
Abbreviation Collection := (gmap ObjectId Task).

Definition all_consistent (c : Collection) : Prop :=
  map_Forall (λ _ t, completion_consistent t) c.

(** A Mongoose document in memory: the values it was loaded with ([None]
    for a document made by [new Task(...)], i.e. [isNew]) and its current
    values. *)
Record Document := mkDocument {
  _id : ObjectId;
  loaded : option Task;
  doc : Task
}.

Definition isNew (d : Document) : bool :=
  match loaded d with None => true | Some _ => false end.

(** [this.isModified('status')]: every path set on a new document counts
    as modified; on a loaded one, a path whose value differs from the
    loaded value. *)
Definition isModified_status (d : Document) : bool :=
  match loaded d with
  | None => true
  | Some t0 => bool_decide (status (doc d) ≠ status t0)
  end.

(** [this.isModified()] *)
Definition isModified (d : Document) : bool :=
  match loaded d with
  | None => true
  | Some t0 => bool_decide (doc d ≠ t0)
  end.

(** [taskSchema.pre('save')]: keeps [completedAt] in step with [status]
    when the status was modified.  A [Date] object is always truthy, so
    [!this.completedAt] is "is null". *)
Definition pre_save (now : Date) (d : Document) : Document :=
  let t := doc d in
  if isModified_status d then
    if bool_decide (status t = completed) && bool_decide (completedAt t = None)
    then mkDocument (_id d) (loaded d) (set_completedAt (Some now) t)
    else if bool_decide (status t ≠ completed)
            && bool_decide (completedAt t ≠ None)
    then mkDocument (_id d) (loaded d) (set_completedAt None t)
    else d
  else d.

(** The [timestamps: true] hook, which runs before the schema's own. *)
Definition timestamps (now : Date) (d : Document) : Document :=
  if isNew d
  then mkDocument (_id d) (loaded d) (set_updatedAt now (set_createdAt now (doc d)))
  else if isModified d
  then mkDocument (_id d) (loaded d) (set_updatedAt now (doc d))
  else d.

(** [doc.save()] from the hooks on: the hooks, then an insert (new
    document) or an update of the stored one.  Inserting under an [_id]
    already present is refused by the unique index on [_id].  Before the
    hooks [save] validates the document, and fails with a
    [ValidationError], storing nothing, when a validator refuses it; this
    definition stands for [save] on the documents [TaskValidators.accepts]
    describes, and stored documents are taken to be among them. *)
Definition save (now : Date) (d : Document) (db : Collection)
    : (Document + JsError) * Collection :=
  let d' := pre_save now (timestamps now d) in
  if isNew d && bool_decide (is_Some (db !! _id d))
  then (inr DuplicateKey, db)
  else (inl (mkDocument (_id d') (Some (doc d')) (doc d')),
        <[_id d' := doc d']> db).

(** [Task.findById] *)
Definition findById (id : ObjectId) (db : Collection) : option Document :=
  match db !! id with
  | Some t => Some (mkDocument id (Some t) t)
  | None => None
  end.

(** [Task.findByIdAndDelete] *)
Definition findByIdAndDelete (id : ObjectId) (db : Collection) : Collection :=
  delete id db.

(** [markAsCompleted] *)
Definition markAsCompleted (now : Date) (d : Document) (db : Collection)
    : (Document + JsError) * Collection :=
  let d1 := mkDocument (_id d) (loaded d) (set_status completed (doc d)) in
  let d2 := mkDocument (_id d1) (loaded d1) (set_completedAt (Some now) (doc d1)) in
  save now d2 db.

(** [isOwnedBy]: compares the two ids' [toString()], which is
    one-to-one on ObjectIds. *)
Definition isOwnedBy (d : Document) (userId : ObjectId) : bool :=
  bool_decide (user (doc d) = userId).

(** *** getTasksByUser *)

Inductive SortBy := by_createdAt | by_updatedAt | by_title | by_status.
Inductive SortOrder := asc | desc.

(** The [options] argument; an absent property is [None]. *)
Record Options := mkOptions {
  opt_page : option Z;
  opt_limit : option Z;
  opt_status : option Status;
  opt_sortBy : option SortBy;
  opt_sortOrder : option SortOrder;
  opt_search : option string;
  opt_priority : option Priority;
  opt_dueDate : option Date
}.

(** A JavaScript number that may fail to be an integer. *)
Inductive JsNumber := Num (z : Z) | Infinity | NaN.

Record Pagination := mkPagination {
  current : Z;
  pages : JsNumber;
  total : Z;
  limit : Z
}.

Record TasksPage := mkTasksPage {
  tasks : list (ObjectId * Task);
  pagination : Pagination
}.

Definition lower (c : ascii) : ascii :=
  let n := nat_of_ascii c in
  if (65 <=? n)%nat && (n <=? 90)%nat then ascii_of_nat (n + 32) else c.

(** Does [s] start with [p], letter case aside? *)
Fixpoint starts_with_i (p s : string) : bool :=
  match p, s with
  | EmptyString, _ => true
  | String _ _, EmptyString => false
  | String a p', String b s' =>
      bool_decide (lower a = lower b) && starts_with_i p' s'
  end.

(** [new RegExp(escaped, 'i').test(s)]: the term has its metacharacters
    escaped, so the pattern matches exactly where the term occurs in [s],
    letter case aside. *)
Fixpoint searchRegex (term s : string) : bool :=
  starts_with_i term s
  || match s with
     | EmptyString => false
     | String _ s' => searchRegex term s'
     end.

(** The [query] object built from the options, as a predicate on
    documents.  An empty search string is falsy and adds no condition; a
    document without due date does not satisfy [$lte]. *)
Definition query (userId : ObjectId) (o : Options) (t : Task) : bool :=
  bool_decide (user t = userId)
  && match opt_status o with
     | Some s => bool_decide (status t = s)
     | None => true
     end
  && match opt_priority o with
     | Some p => bool_decide (priority t = p)
     | None => true
     end
  && match opt_dueDate o with
     | Some d => match dueDate t with Some d' => (d' <=? d)%Z | None => false end
     | None => true
     end
  && match opt_search o with
     | Some term =>
         if bool_decide (term = "") then true
         else searchRegex term (title t)
              || searchRegex term (description t)
              || existsb (searchRegex term) (tags t)
     | None => true
     end.

(** The order [{ [sortBy]: sortOrder === 'desc' ? -1 : 1 }] puts two
    documents in. *)
Definition sort_leb (sortBy : SortBy) (sortOrder : SortOrder)
    (a b : ObjectId * Task) : bool :=
  let le (x y : Task) :=
    match sortBy with
    | by_createdAt => (createdAt x <=? createdAt y)%Z
    | by_updatedAt => (updatedAt x <=? updatedAt y)%Z
    | by_title => String.leb (title x) (title y)
    | by_status => String.leb (status_string (status x)) (status_string (status y))
    end in
  match sortOrder with
  | desc => le (snd b) (snd a)
  | asc => le (snd a) (snd b)
  end.

(** [.skip(skip).limit(limit)] on a cursor: a negative skip is refused by
    the server, limit 0 is no limit, a negative limit counts as its
    absolute value. *)
Definition skip_limit {X} (skip limit : Z) (l : list X) : option (list X) :=
  if skip <? 0 then None
  else
    let l' := drop (Z.to_nat skip) l in
    Some (if limit =? 0 then l' else take (Z.to_nat (Z.abs limit)) l').

(** [Math.ceil(total / limit)] for integers of ordinary size. *)
Definition ceil_div (total limit : Z) : JsNumber :=
  if limit =? 0 then (if total =? 0 then NaN else Infinity)
  else Num (- ((- total) / limit)).

(** The server's refusal of a negative skip. *)
Definition BadSkip : JsError := Error "Skip value must be non-negative".

Definition getTasksByUser (userId : ObjectId) (o : Options) (db : Collection)
    : Completion TasksPage :=
  let page := default 1 (opt_page o) in
  let limit := default 10 (opt_limit o) in
  let sortBy := default by_createdAt (opt_sortBy o) in
  let sortOrder := default desc (opt_sortOrder o) in
  let skip := (page - 1) * limit in
  let found := filter (λ kv, Is_true (query userId o (snd kv))) (map_to_list db) in
  let sorted := merge_sort (λ a b, Is_true (sort_leb sortBy sortOrder a b)) found in
  let total := Z.of_nat (length found) in
  match skip_limit skip limit sorted with
  | None => Throw (Some BadSkip)
  | Some tasks =>
      Return (mkTasksPage tasks
                (mkPagination page (ceil_div total limit) total limit))
  end.
(** *** Virtuals, statistics, overdue tasks *)

(** The [duration] virtual: [completedAt - createdAt], or [null]. *)
Definition duration (t : Task) : option Z :=
  match completedAt t with
  | Some finished => Some (finished - createdAt t)
  | None => None
  end.


Record TaskStats := mkTaskStats {
  n_pending : nat;
  n_in_progress : nat;
  n_completed : nat;
  n_total : nat
}.

(** The pipeline [$match { user }], [$group { _id: '$status', count }]:
    one entry per status that occurs, with the number of its documents. *)
Definition aggregate_by_status (userId : ObjectId) (db : Collection)
    : list (Status * nat) :=
  let matched := filter (λ kv, user (snd kv) = userId) (map_to_list db) in
  omap (λ s, let count := length (filter (λ kv, status (snd kv) = s) matched) in
             if (0 <? count)%nat then Some (s, count) else None)
       [pending; in_progress; completed].

(** [result[stat._id] = stat.count; result.total += stat.count] *)
Definition record_stat (result : TaskStats) (stat : Status * nat) : TaskStats :=
  let count := snd stat in
  match fst stat with
  | pending =>
      mkTaskStats count (n_in_progress result) (n_completed result)
        (n_total result + count)
  | in_progress =>
      mkTaskStats (n_pending result) count (n_completed result)
        (n_total result + count)
  | completed =>
      mkTaskStats (n_pending result) (n_in_progress result) count
        (n_total result + count)
  end.

(** [getTaskStats] *)
Definition getTaskStats (userId : ObjectId) (db : Collection) : TaskStats :=
  fold_left record_stat (aggregate_by_status userId db) (mkTaskStats 0 0 0 0).

(** The filter of [getOverdueTasks]: the user's tasks that are not
    completed and whose due date lies before [now]; a task without due
    date does not satisfy [$lt]. *)
Definition overdue_filter (userId : ObjectId) (now : Date)
    (kv : ObjectId * Task) : Prop :=
  user (snd kv) = userId
  ∧ status (snd kv) ≠ completed
  ∧ ∃ due, dueDate (snd kv) = Some due ∧ due < now.

#[global] Instance overdue_filter_dec userId now kv :
  Decision (overdue_filter userId now kv).
Proof.
  unfold overdue_filter.
  destruct (dueDate (snd kv)) as [due|].
  - destruct (decide (user (snd kv) = userId ∧ status (snd kv) ≠ completed ∧ due < now))
      as [H|H].
    + left. destruct H as (? & ? & ?). eauto.
    + right. intros (? & ? & due' & [= <-] & ?). tauto.
  - right. intros (_ & _ & due & Hdue & _). discriminate.
Defined.

(** The order [{ dueDate: 1 }]; [null] sorts before every date. *)
Definition due_leb (a b : ObjectId * Task) : bool :=
  match dueDate (snd a), dueDate (snd b) with
  | Some x, Some y => x <=? y
  | None, _ => true
  | Some _, None => false
  end.

(** [getOverdueTasks] *)
Definition getOverdueTasks (userId : ObjectId) (now : Date) (db : Collection)
    : list (ObjectId * Task) :=
  merge_sort (λ a b, Is_true (due_leb a b))
    (filter (overdue_filter userId now) (map_to_list db)).

(** [toLowerCase], on ASCII text: what the flag [i] of the search
    pattern compares. *)
Fixpoint toLowerCase (s : string) : string :=
  match s with
  | EmptyString => EmptyString
  | String c s' => String (lower c) (toLowerCase s')
  end.

End TaskModel.

(** ** task.schema: the query schema of the list route *)

Module TaskSchema.
Import TaskModel.

(** The query string as Express hands it over: every parameter a string,
    or absent. *)
Record RawQuery := mkRawQuery {
  q_status : option string;
  q_priority : option string;
  q_page : option string;
  q_limit : option string;
  q_sortBy : option string;
  q_sortOrder : option string;
  q_search : option string
}.

Definition is_digit (c : ascii) : bool :=
  let n := nat_of_ascii c in (48 <=? n)%nat && (n <=? 57)%nat.

(** [/^\d+$/] *)
Definition digits_only (s : string) : bool :=
  negb (bool_decide (s = "")) && forallb is_digit (list_ascii_of_string s).

(** The double nearest to a non-negative integer, ties to the even
    mantissa: what a JavaScript number holds of it.  Exact below 2^53. *)
Definition to_double (z : Z) : Z :=
  if z <? 2 ^ 53 then z
  else
    let e := Z.log2 z - 52 in
    let q := z / 2 ^ e in
    let r := z mod 2 ^ e in
    let half := 2 ^ (e - 1) in
    (if (half <? r) || ((r =? half) && Z.odd q) then q + 1 else q) * 2 ^ e.

(** [Number] on a string of digits: the value of the decimal numeral, as
    a double.  A numeral beyond the range of doubles (309 digits or more),
    which JavaScript reads as [Infinity], is outside this definition. *)
Definition Number (s : string) : Z :=
  to_double
    (fold_left (λ acc c, 10 * acc + (Z.of_nat (nat_of_ascii c) - 48))
       (list_ascii_of_string s) 0).

(** [page]: digits, [Number], [> 0], default ['1']. *)
Definition parse_page (raw : option string) : option Z :=
  let s := default "1" raw in
  if digits_only s then
    let val := Number s in
    if 0 <? val then Some val else None
  else None.

(** [limit]: digits, [Number], [> 0 && <= 100], default ['10']. *)
Definition parse_limit (raw : option string) : option Z :=
  let s := default "10" raw in
  if digits_only s then
    let val := Number s in
    if (0 <? val) && (val <=? 100) then Some val else None
  else None.

Definition TaskStatus (s : string) : option Status :=
  if bool_decide (s = "pending") then Some pending
  else if bool_decide (s = "in-progress") then Some in_progress
  else if bool_decide (s = "completed") then Some completed
  else None.

Definition TaskPriority (s : string) : option Priority :=
  if bool_decide (s = "low") then Some low
  else if bool_decide (s = "medium") then Some medium
  else if bool_decide (s = "high") then Some high
  else if bool_decide (s = "urgent") then Some urgent
  else None.

Definition parse_sortBy (raw : option string) : option SortBy :=
  let s := default "createdAt" raw in
  if bool_decide (s = "createdAt") then Some by_createdAt
  else if bool_decide (s = "updatedAt") then Some by_updatedAt
  else if bool_decide (s = "title") then Some by_title
  else if bool_decide (s = "status") then Some by_status
  else None.

Definition parse_sortOrder (raw : option string) : option SortOrder :=
  let s := default "desc" raw in
  if bool_decide (s = "asc") then Some asc
  else if bool_decide (s = "desc") then Some desc
  else None.

(** An optional field: absent stays absent, present must parse. *)
Definition optional {X} (parse : string → option X) (raw : option string)
    : option (option X) :=
  match raw with
  | None => Some None
  | Some s => match parse s with Some x => Some (Some x) | None => None end
  end.

Definition is_space (c : ascii) : bool :=
  let n := nat_of_ascii c in
  ((9 <=? n)%nat && (n <=? 13)%nat) || (n =? 32)%nat.

Fixpoint trim_start (s : string) : string :=
  match s with
  | String c s' => if is_space c then trim_start s' else s
  | EmptyString => s
  end.

Definition trim (s : string) : string :=
  String.rev (trim_start (String.rev (trim_start s))).

(** [search]: at most 100 characters as typed, then trimmed. *)
Definition parse_search (s : string) : option string :=
  if (String.length s <=? 100)%nat then Some (trim s) else None.

(** [getTasksQuerySchema.parse]: the validated options, or [None] when a
    parameter is refused (the route then answers 400 and the service is
    not called).  Unknown parameters are dropped, so no [dueDate] gets
    through. *)
Definition getTasksQuerySchema (q : RawQuery) : option Options :=
  st ← optional TaskStatus (q_status q);
  pr ← optional TaskPriority (q_priority q);
  page ← parse_page (q_page q);
  limit ← parse_limit (q_limit q);
  sortBy ← parse_sortBy (q_sortBy q);
  sortOrder ← parse_sortOrder (q_sortOrder q);
  search ← optional parse_search (q_search q);
  Some (mkOptions (Some page) (Some limit) st (Some sortBy) (Some sortOrder)
          search pr None).

End TaskSchema.

(** ** Task.model: setters and validators

    The strings of a task pass the schema's [trim] setter when they are
    assigned, and [save] validates the document before its hooks run.
    This module describes the documents that come through both as they
    are: the ones [TaskModel.save] stands for.  Strings are taken as
    ASCII text, where a character is one byte and JavaScript's [length]
    and [trim] are the ones defined here. *)

Module TaskValidators.
Import TaskModel.

Definition ascii_text (s : string) : bool :=
  forallb (λ c, (nat_of_ascii c <? 128)%nat) (list_ascii_of_string s).

(** A string the [trim] setter leaves as it is. *)
Definition settled (s : string) : bool :=
  ascii_text s && bool_decide (TaskSchema.trim s = s).

(** [title]: [required], [minlength: 1], [maxlength: 100]. *)
Definition title_passes (s : string) : bool :=
  negb (bool_decide (s = "")) && (1 <=? String.length s)%nat
  && (String.length s <=? 100)%nat.

(** [description]: [required], [minlength: 1], [maxlength: 500]. *)
Definition description_passes (s : string) : bool :=
  negb (bool_decide (s = "")) && (1 <=? String.length s)%nat
  && (String.length s <=? 500)%nat.

(** Each of [tags]: [maxlength: 20]. *)
Definition tag_passes (s : string) : bool := (String.length s <=? 20)%nat.

(** What [doc.validate()] checks of the three paths that can fail:
    [user] is always given, [status] and [priority] are of their enums by
    their types, and a date here is never an invalid [Date]. *)
Definition accepts_fields (title description : string) (tags : list string)
    : bool :=
  settled title && title_passes title
  && settled description && description_passes description
  && forallb (λ tag, settled tag && tag_passes tag) tags.

(** The documents [save] stores as they are handed to it. *)
Definition accepts (t : Task) : bool :=
  accepts_fields (title t) (description t) (tags t).

End TaskValidators.

(** ** websocket.service *)

Module WebSocketService.
Import TaskModel.

(** What an event carries: a task document, or a task id. *)
Inductive Payload :=
  | task_data (id : ObjectId) (t : Task)
  | id_data (id : ObjectId).

(** One event as one socket receives it. *)
Record Emitted := mkEmitted {
  to_socket : N;
  event : string;
  data : Payload
}.

(** A connected socket.  The only rooms this code uses are the rooms
    [`user_${userId}`], one per user id, so a room is named by that id. *)
Record Socket := mkSocket {
  socket_id : N;
  socket_userId : ObjectId;
  rooms : gset ObjectId
}.

(** The socket server, once [initialize] has run: the connected sockets,
    the [connectedUsers] map, and what each socket has received so far. *)
Record Io := mkIo {
  sockets : list Socket;
  connectedUsers : gmap ObjectId N;
  received : list Emitted
}.

(** [io.on('connection')], after the handshake has set [socket.userId]. *)
Definition connection (id : N) (userId : ObjectId) (io : Io) : Io :=
  mkIo (sockets io ++ [mkSocket id userId {[ userId ]}])
       (<[userId := id]> (connectedUsers io))
       (received io).

(** [socket.on('join_user_room')] *)
Definition join_user_room (id : N) (userId : ObjectId) (io : Io) : Io :=
  mkIo (map (λ s, if bool_decide (socket_id s = id)
                     && bool_decide (userId = socket_userId s)
                  then mkSocket (socket_id s) (socket_userId s)
                         ({[ userId ]} ∪ rooms s)
                  else s) (sockets io))
       (connectedUsers io) (received io).

(** [socket.on('disconnect')] *)
Definition disconnect (id : N) (io : Io) : Io :=
  match List.find (λ s, bool_decide (socket_id s = id)) (sockets io) with
  | Some s =>
      mkIo (List.filter (λ s', negb (bool_decide (socket_id s' = id))) (sockets io))
           (delete (socket_userId s) (connectedUsers io))
           (received io)
  | None => io
  end.

(** [io.to(`user_${userId}`).emit(event, data)]: every socket in the room
    receives the event once. *)
Definition emit_to (userId : ObjectId) (ev : string) (d : Payload) (io : Io) : Io :=
  mkIo (sockets io) (connectedUsers io)
       (received io ++
        map (λ s, mkEmitted (socket_id s) ev d)
            (List.filter (λ s, bool_decide (userId ∈ rooms s)) (sockets io))).

(** Every socket sits in the room of its own user and in no other. *)
Definition rooms_are_private (io : Io) : Prop :=
  Forall (λ s, rooms s = {[ socket_userId s ]}) (sockets io).

(** The sockets of one user. *)
Definition sockets_of (userId : ObjectId) (io : Io) : list Socket :=
  List.filter (λ s, bool_decide (socket_userId s = userId)) (sockets io).

Definition emitTaskCreated (userId : ObjectId) (task : Document) : Io → Io :=
  emit_to userId "task_created" (task_data (_id task) (doc task)).

Definition emitTaskUpdated (userId : ObjectId) (task : Document) : Io → Io :=
  emit_to userId "task_updated" (task_data (_id task) (doc task)).

Definition emitTaskDeleted (userId : ObjectId) (taskId : ObjectId) : Io → Io :=
  emit_to userId "task_deleted" (id_data taskId).

(** [emitToAll]: [io.emit] reaches every connected socket. *)
Definition emitToAll (ev : string) (d : Payload) (io : Io) : Io :=
  mkIo (sockets io) (connectedUsers io)
       (received io ++ map (λ s, mkEmitted (socket_id s) ev d) (sockets io)).

Definition getConnectedUsersCount (io : Io) : nat := size (connectedUsers io).

Definition isUserConnected (userId : ObjectId) (io : Io) : bool :=
  bool_decide (is_Some (connectedUsers io !! userId)).

(** The socket server right after [initialize]. *)
Definition no_sockets : Io := mkIo [] ∅ [].

(** What can happen to the socket server: the three handlers of
    [setupEventHandlers], and the emit functions. *)
Inductive SocketEvent :=
  | on_connection (id : N) (userId : ObjectId)
  | on_join_user_room (id : N) (userId : ObjectId)
  | on_disconnect (id : N)
  | on_emit (userId : ObjectId) (ev : string) (d : Payload)
  | on_emitToAll (ev : string) (d : Payload).

Definition handle (io : Io) (e : SocketEvent) : Io :=
  match e with
  | on_connection id userId => connection id userId io
  | on_join_user_room id userId => join_user_room id userId io
  | on_disconnect id => disconnect id io
  | on_emit userId ev d => emit_to userId ev d io
  | on_emitToAll ev d => emitToAll ev d io
  end.

(** The server after a history of events, oldest first. *)
Definition after (history : list SocketEvent) : Io :=
  fold_left handle history no_sockets.

End WebSocketService.

(** ** task.service *)

Module TaskService.
Import TaskModel WebSocketService.
Export Transaction.

(** The task collection and the socket server the service talks to. *)
Record State := mkState {
  db : Collection;
  io : Io
}.

(** The body of a create request. *)
Record TaskData := mkTaskData {
  td_title : string;
  td_description : string;
  td_status : option Status;
  td_priority : option Priority;
  td_dueDate : option Date;
  td_tags : option (list string)
}.

(** The body of an update request; [None] is an absent (or [undefined])
    property, [Some None] a due date of [null]. *)
Record UpdateData := mkUpdateData {
  u_title : option string;
  u_description : option string;
  u_status : option Status;
  u_priority : option Priority;
  u_dueDate : option (option Date);
  u_tags : option (list string)
}.

Definition set_if {X} (set : X → Task → Task) (v : option X) (t : Task) : Task :=
  match v with Some x => set x t | None => t end.

(** Assigns every property of the update that is not [undefined]. *)
Definition assign (u : UpdateData) (t : Task) : Task :=
  set_if set_tags (u_tags u)
    (set_if set_dueDate (u_dueDate u)
      (set_if set_priority (u_priority u)
        (set_if set_status (u_status u)
          (set_if set_description (u_description u)
            (set_if set_title (u_title u) t))))).

(** The updates whose strings the schema's [trim] setter, which runs on
    an update as on an assignment, leaves as they are. *)
Definition settled_update (u : UpdateData) : bool :=
  from_option TaskValidators.settled true (u_title u)
  && from_option TaskValidators.settled true (u_description u)
  && from_option (forallb TaskValidators.settled) true (u_tags u).

(** [createTask].  [newId] is the [_id] that [new Task] generates. *)
Definition createTask (taskData : TaskData) (userId : ObjectId)
    (now : Date) (newId : ObjectId) (s : State) : Completion Document * State :=
  let status := default pending (td_status taskData) in
  let priority := default medium (td_priority taskData) in
  let task :=
    mkDocument newId None
      (mkTask (td_title taskData) (td_description taskData) status userId
         priority (td_dueDate taskData) None (default [] (td_tags taskData))
         0 0) in
  match save now task (db s) with
  | (inr e, _) => (Throw (Some e), s)
  | (inl task', db') =>
      (Return task', mkState db' (emitTaskCreated userId task' (io s)))
  end.

Definition getTaskById (taskId userId : ObjectId) (s : State)
    : Completion Document * State :=
  match findById taskId (db s) with
  | None => (Throw (Some (Error "Task not found")), s)
  | Some task =>
      if negb (isOwnedBy task userId)
      then (Throw (Some (Error "Access denied: You can only access your own tasks")), s)
      else (Return task, s)
  end.

Definition updateTask (taskId : ObjectId) (updateData : UpdateData)
    (userId : ObjectId) (now : Date) (s : State) : Completion Document * State :=
  match findById taskId (db s) with
  | None => (Throw (Some (Error "Task not found")), s)
  | Some task =>
      if negb (isOwnedBy task userId)
      then (Throw (Some (Error "Access denied: You can only update your own tasks")), s)
      else
        let task1 := mkDocument (_id task) (loaded task) (assign updateData (doc task)) in
        match save now task1 (db s) with
        | (inr e, _) => (Throw (Some e), s)
        | (inl task', db') =>
            (Return task', mkState db' (emitTaskUpdated userId task' (io s)))
        end
  end.

Definition deleteTask (taskId userId : ObjectId) (s : State)
    : Completion string * State :=
  match findById taskId (db s) with
  | None => (Throw (Some (Error "Task not found")), s)
  | Some task =>
      if negb (isOwnedBy task userId)
      then (Throw (Some (Error "Access denied: You can only delete your own tasks")), s)
      else
        (Return "Task deleted successfully",
         mkState (findByIdAndDelete taskId (db s))
                 (emitTaskDeleted userId taskId (io s)))
  end.

Definition markTaskAsCompleted (taskId userId : ObjectId) (now : Date)
    (s : State) : Completion Document * State :=
  match findById taskId (db s) with
  | None => (Throw (Some (Error "Task not found")), s)
  | Some task =>
      if negb (isOwnedBy task userId)
      then (Throw (Some (Error "Access denied: You can only update your own tasks")), s)
      else if bool_decide (status (doc task) = completed)
      then (Throw (Some (Error "Task is already completed")), s)
      else
        match markAsCompleted now task (db s) with
        | (inr e, _) => (Throw (Some e), s)
        | (inl task', db') =>
            (Return task', mkState db' (emitTaskUpdated userId task' (io s)))
        end
  end.

(** The failures of the ownership check, by the text of their message. *)
Definition TaskNotFound : JsError := Error "Task not found".
Definition AccessDenied (verb : string) : JsError :=
  Error ("Access denied: You can only " +:+ verb +:+ " your own tasks").

(** The filter [{ _id: { $in: taskIds }, user: userId }]. *)
Definition owned_in (taskIds : list ObjectId) (userId : ObjectId)
    (kv : ObjectId * Task) : Prop :=
  fst kv ∈ taskIds ∧ user (snd kv) = userId.

#[global] Instance owned_in_dec taskIds userId kv : Decision (owned_in taskIds userId kv).
Proof. unfold owned_in. apply _. Defined.

(** [Task.find(filter)]: each matching document once. *)
Definition find_owned_in (taskIds : list ObjectId) (userId : ObjectId)
    (c : Collection) : Collection :=
  filter (owned_in taskIds userId) c.

(** [Task.updateMany(filter, update)]: sets the given fields on every
    matching document, running no save hook; the count is that of the
    documents the update changed. *)
Definition updateMany (taskIds : list ObjectId) (userId : ObjectId)
    (update : Task → Task) (c : Collection) : nat * Collection :=
  (size (filter (λ kv, update (snd kv) ≠ snd kv) (find_owned_in taskIds userId c)),
   map_imap (λ id t, Some (if decide (owned_in taskIds userId (id, t))
                           then update t else t)) c).

(** [Task.deleteMany(filter)] *)
Definition deleteMany (taskIds : list ObjectId) (userId : ObjectId)
    (c : Collection) : nat * Collection :=
  (size (find_owned_in taskIds userId c),
   filter (λ kv, ¬ owned_in taskIds userId kv) c).

Record BulkUpdateResult := mkBulkUpdateResult {
  bu_message : string;
  modifiedCount : nat;
  bu_taskIds : list ObjectId
}.

Record DeletedTask := mkDeletedTask {
  dt_id : ObjectId;
  dt_title : string;
  dt_status : Status
}.

Record BulkDeleteResult := mkBulkDeleteResult {
  bd_message : string;
  deletedCount : nat;
  deletedTasks : list DeletedTask
}.

(** The one failure of the ownership pre-check. *)
Definition PartialOwnership : JsError :=
  Error "Some tasks not found or access denied".

(** The unit of work of [bulkUpdateTasks], for a list of well-formed ids
    and an update made of the six fields of [UpdateData], with values of
    their types.  The bulk route validates nothing: what a request's
    object names beyond these ([user], [completedAt], ...) is written by
    [updateMany] as well, and an id or a value that cannot be cast makes
    the call fail with a [CastError]; neither can be written down
    here. *)
Definition bulkUpdate_operations (taskIds : list ObjectId)
    (updateData : UpdateData) (userId : ObjectId) (now : Date)
    : Collection → (BulkUpdateResult + JsError) * Collection :=
  fun c =>
    let tasks := find_owned_in taskIds userId c in
    if bool_decide (size tasks ≠ length taskIds)
    then (inr PartialOwnership, c)
    else
      let '(n, c') :=
        updateMany taskIds userId (λ t, set_updatedAt now (assign updateData t)) c in
      (inl (mkBulkUpdateResult (pretty n +:+ " tasks updated successfully") n taskIds),
       c').

(** The unit of work of [bulkDeleteTasks]. *)
Definition bulkDelete_operations (taskIds : list ObjectId) (userId : ObjectId)
    : Collection → (BulkDeleteResult + JsError) * Collection :=
  fun c =>
    let tasks := find_owned_in taskIds userId c in
    if bool_decide (size tasks ≠ length taskIds)
    then (inr PartialOwnership, c)
    else
      let tasksToDelete :=
        map (λ kv, mkDeletedTask (fst kv) (title (snd kv)) (status (snd kv)))
            (map_to_list tasks) in
      let '(n, c') := deleteMany taskIds userId c in
      (inl (mkBulkDeleteResult (pretty n +:+ " tasks deleted successfully") n
              tasksToDelete),
       c').

(** A bulk operation runs its unit of work under the retry executor, at
    most 3 attempts, and touches the socket server nowhere. *)
Definition bulkUpdateTasks (taskIds : list ObjectId) (updateData : UpdateData)
    (userId : ObjectId) (now : Date) (s : State)
    : Completion BulkUpdateResult * State :=
  let r := withRetryableTransaction
             (on_data (bulkUpdate_operations taskIds updateData userId now))
             3 (tt, db s) in
  (outcome r, mkState (snd (world r)) (io s)).

Definition bulkDeleteTasks (taskIds : list ObjectId) (userId : ObjectId)
    (s : State) : Completion BulkDeleteResult * State :=
  let r := withRetryableTransaction
             (on_data (bulkDelete_operations taskIds userId)) 3 (tt, db s) in
  (outcome r, mkState (snd (world r)) (io s)).

(** [getTasks] *)
Definition getTasks (userId : ObjectId) (options : Options) (s : State)
    : Completion TasksPage :=
  getTasksByUser userId options (db s).

(** [getTaskStats] and [getOverdueTasks] pass the call on to the model. *)
Definition getTaskStats (userId : ObjectId) (s : State) : TaskStats :=
  TaskModel.getTaskStats userId (db s).

Definition getOverdueTasks (userId : ObjectId) (now : Date) (s : State)
    : list (ObjectId * Task) :=
  TaskModel.getOverdueTasks userId now (db s).

(** [{ ...options, status }] *)
Definition with_status (status : Status) (o : Options) : Options :=
  mkOptions (opt_page o) (opt_limit o) (Some status) (opt_sortBy o)
    (opt_sortOrder o) (opt_search o) (opt_priority o) (opt_dueDate o).

(** [{ ...options, search: searchTerm }] *)
Definition with_search (searchTerm : string) (o : Options) : Options :=
  mkOptions (opt_page o) (opt_limit o) (opt_status o) (opt_sortBy o)
    (opt_sortOrder o) (Some searchTerm) (opt_priority o) (opt_dueDate o).

Definition getTasksByStatus (userId : ObjectId) (status : Status)
    (options : Options) (s : State) : Completion TasksPage :=
  getTasks userId (with_status status options) s.

Definition searchTasks (userId : ObjectId) (searchTerm : string)
    (options : Options) (s : State) : Completion TasksPage :=
  getTasks userId (with_search searchTerm options) s.

(** The same request for another page: [{ ...options, page }]. *)
Definition with_page (page : Z) (o : Options) : Options :=
  mkOptions (Some page) (opt_limit o) (opt_status o) (opt_sortBy o)
    (opt_sortOrder o) (opt_search o) (opt_priority o) (opt_dueDate o).

End TaskService.

(** ** response.util *)

Module ResponseUtil.
Import TaskModel.

(** The JSON body sent with a status code.  [timestamp] is the time of
    the answer, which goes out as its ISO string. *)
Record Response (A : Type) := mkResponse {
  statusCode : Z;
  success : bool;
  res_message : string;
  res_code : option string;
  res_data : option A;
  res_errors : option (list string);
  timestamp : Date
}.
Arguments mkResponse {A}.
Arguments statusCode {A}.
Arguments success {A}.
Arguments res_message {A}.
Arguments res_code {A}.
Arguments res_data {A}.
Arguments res_errors {A}.
Arguments timestamp {A}.

(** [sendSuccess]: [data] is left out of the body when it is [null]. *)
Definition sendSuccess {A} (data : option A) (message : string)
    (statusCode : Z) (now : Date) : Response A :=
  mkResponse statusCode true message None data None now.

(** [sendError]: an empty [code] is falsy and left out, as is an absent
    [errors].  The stack is read off [errors], which is never an error
    object here. *)
Definition sendError {A} (message : string) (statusCode : Z)
    (errors : option (list string)) (code : option string) (now : Date)
    : Response A :=
  mkResponse statusCode false message
    (match code with
     | Some c => if bool_decide (c = "") then None else Some c
     | None => None
     end)
    None errors now.

Definition upper (c : ascii) : ascii :=
  let n := nat_of_ascii c in
  if (97 <=? n)%nat && (n <=? 122)%nat then ascii_of_nat (n - 32) else c.

(** [toUpperCase], on ASCII text. *)
Fixpoint toUpperCase (s : string) : string :=
  match s with
  | EmptyString => EmptyString
  | String c s' => String (upper c) (toUpperCase s')
  end.

Definition sendAuthError {A} (message code : string) (now : Date) : Response A :=
  sendError message 401 None (Some code) now.

Definition sendAuthorizationError {A} (message : string) (now : Date) : Response A :=
  sendError message 403 None (Some "ACCESS_DENIED") now.

Definition sendNotFoundError {A} (message : string) (resource : option string)
    (now : Date) : Response A :=
  let code :=
    match resource with
    | Some r => if bool_decide (r = "") then "NOT_FOUND"
                else toUpperCase r +:+ "_NOT_FOUND"
    | None => "NOT_FOUND"
    end in
  sendError message 404 None (Some code) now.

Definition sendCreated {A} (data : option A) (message : string) (now : Date)
    : Response A :=
  sendSuccess data message 201 now.

Definition sendUpdated {A} (data : option A) (message : string) (now : Date)
    : Response A :=
  sendSuccess data message 200 now.

Definition sendDeleted {A} (message : string) (now : Date) : Response A :=
  sendSuccess None message 200 now.

(** [current < pages] and [current > 1]; a comparison with [NaN] is
    false. *)
Definition less_than (x : Z) (y : JsNumber) : bool :=
  match y with
  | Num z => x <? z
  | Infinity => true
  | NaN => false
  end.

Record PageInfo := mkPageInfo {
  pi_current : Z;
  pi_pages : JsNumber;
  pi_total : Z;
  pi_limit : Z;
  hasNext : bool;
  hasPrev : bool
}.

Record PaginatedResponse := mkPaginatedResponse {
  pr_statusCode : Z;
  pr_success : bool;
  pr_message : string;
  pr_data : list (ObjectId * Task);
  pr_pagination : PageInfo;
  pr_timestamp : Date
}.

Definition sendPaginatedResponse (data : list (ObjectId * Task))
    (p : Pagination) (message : string) (now : Date) : PaginatedResponse :=
  mkPaginatedResponse 200 true message data
    (mkPageInfo (current p) (pages p) (total p) (limit p)
       (less_than (current p) (pages p)) (1 <? current p))
    now.

End ResponseUtil.

(** ** task.controller *)

Module TaskController.
Import TaskModel WebSocketService TaskService ResponseUtil.

(** [error.message || fallback] *)
Definition message_or (error : JsError) (fallback : string) : string :=
  if bool_decide (message error = "") then fallback else message error.

(** How the handlers for one task route a failure: by the text of its
    message.  [otherwise] is the status of the last resort. *)
Definition route_failure {A} (error : JsError) (fallback : string)
    (otherwise : Z) (now : Date) : Response A :=
  if bool_decide (message error = "Task not found")
  then sendNotFoundError "Task not found" (Some "task") now
  else if includes "Access denied" (message error)
  then sendAuthorizationError (message error) now
  else sendError (message_or error fallback) otherwise None None now.

(** A handler answers with a response, or with none at all when its
    [catch] block itself fails on a thrown [undefined]. *)
Definition createTask (taskData : TaskData) (userId : ObjectId) (now : Date)
    (newId : ObjectId) (s : State) : option (Response Document) * State :=
  match TaskService.createTask taskData userId now newId s with
  | (Return task, s') =>
      (Some (sendCreated (Some task) "Task created successfully" now), s')
  | (Throw (Some error), s') =>
      (Some (sendError (message_or error "Failed to create task") 400 None None now), s')
  | (Throw None, s') => (None, s')
  end.

Definition getTasks (userId : ObjectId) (options : Options) (now : Date)
    (s : State) : option (PaginatedResponse + Response unit) :=
  match TaskService.getTasks userId options s with
  | Return result =>
      Some (inl (sendPaginatedResponse (tasks result) (pagination result)
                   "Tasks retrieved successfully" now))
  | Throw (Some error) =>
      Some (inr (sendError (message_or error "Failed to retrieve tasks") 500
                   None None now))
  | Throw None => None
  end.

Definition getTaskById (id userId : ObjectId) (now : Date) (s : State)
    : option (Response Document) * State :=
  match TaskService.getTaskById id userId s with
  | (Return task, s') =>
      (Some (sendSuccess (Some task) "Task retrieved successfully" 200 now), s')
  | (Throw (Some error), s') =>
      (Some (route_failure error "Failed to retrieve task" 500 now), s')
  | (Throw None, s') => (None, s')
  end.

Definition updateTask (id : ObjectId) (updateData : UpdateData)
    (userId : ObjectId) (now : Date) (s : State)
    : option (Response Document) * State :=
  match TaskService.updateTask id updateData userId now s with
  | (Return task, s') =>
      (Some (sendUpdated (Some task) "Task updated successfully" now), s')
  | (Throw (Some error), s') =>
      (Some (route_failure error "Failed to update task" 400 now), s')
  | (Throw None, s') => (None, s')
  end.

Definition deleteTask (id userId : ObjectId) (now : Date) (s : State)
    : option (Response unit) * State :=
  match TaskService.deleteTask id userId s with
  | (Return result, s') => (Some (sendDeleted result now), s')
  | (Throw (Some error), s') =>
      (Some (route_failure error "Failed to delete task" 500 now), s')
  | (Throw None, s') => (None, s')
  end.

Definition markTaskAsCompleted (id userId : ObjectId) (now : Date) (s : State)
    : option (Response Document) * State :=
  match TaskService.markTaskAsCompleted id userId now s with
  | (Return task, s') =>
      (Some (sendUpdated (Some task) "Task marked as completed successfully" now), s')
  | (Throw (Some error), s') =>
      (Some
         (if bool_decide (message error = "Task not found")
          then sendNotFoundError "Task not found" (Some "task") now
          else if includes "Access denied" (message error)
          then sendAuthorizationError (message error) now
          else if bool_decide (message error = "Task is already completed")
          then sendError "Task is already completed" 400 None None now
          else sendError (message_or error "Failed to mark task as completed")
                 500 None None now),
       s')
  | (Throw None, s') => (None, s')
  end.

(** The bulk handlers, for a request body of the types the service is
    written for: [taskIds] absent, no array, or a list of well-formed
    ids, and [updateData] absent or an object of the six task fields,
    each property that is [Some] present with a value of its type.  The
    routes validate nothing, so other bodies arrive as well (a malformed
    id, a value that cannot be cast, a property that is no task field);
    they are not described here. *)

(** [Object.keys(updateData).length === 0] *)
Definition no_keys (u : UpdateData) : bool :=
  match u with
  | mkUpdateData None None None None None None => true
  | _ => false
  end.

(** [!taskIds || !Array.isArray(taskIds) || taskIds.length === 0], with
    [None] for a [taskIds] that is absent or no array. *)
Definition no_ids (taskIds : option (list ObjectId)) : bool :=
  match taskIds with
  | Some (_ :: _) => false
  | _ => true
  end.

Definition bulkUpdateTasks (taskIds : option (list ObjectId))
    (updateData : option UpdateData) (userId : ObjectId) (now : Date)
    (s : State) : option (Response BulkUpdateResult) * State :=
  if no_ids taskIds
  then (Some (sendError "Task IDs array is required" 400 None None now), s)
  else if match updateData with Some u => no_keys u | None => true end
  then (Some (sendError "Update data is required" 400 None None now), s)
  else
    match TaskService.bulkUpdateTasks (default [] taskIds)
            (default (mkUpdateData None None None None None None) updateData)
            userId now s with
    | (Return result, s') =>
        (Some (sendSuccess (Some result) "Tasks updated successfully" 200 now), s')
    | (Throw (Some error), s') =>
        (Some (if includes "not found or access denied" (message error)
               then sendAuthorizationError (message error) now
               else sendError (message_or error "Failed to update tasks") 400
                      None None now),
         s')
    | (Throw None, s') => (None, s')
    end.

Definition bulkDeleteTasks (taskIds : option (list ObjectId))
    (userId : ObjectId) (now : Date) (s : State)
    : option (Response BulkDeleteResult) * State :=
  if no_ids taskIds
  then (Some (sendError "Task IDs array is required" 400 None None now), s)
  else
    match TaskService.bulkDeleteTasks (default [] taskIds) userId s with
    | (Return result, s') =>
        (Some (sendSuccess (Some result) "Tasks deleted successfully" 200 now), s')
    | (Throw (Some error), s') =>
        (Some (if includes "not found or access denied" (message error)
               then sendAuthorizationError (message error) now
               else sendError (message_or error "Failed to delete tasks") 500
                      None None now),
         s')
    | (Throw None, s') => (None, s')
    end.

End TaskController.

(** ** Regular expressions

    The patterns of the user schema are anchored at both ends and use
    character classes, sequence, choice and repetition only; [test]
    decides whether the whole string matches, by derivatives. *)

Module Regex.

Inductive Re :=
  | Void
  | Eps
  | Chr (p : ascii → bool)
  | Seq (a b : Re)
  | Alt (a b : Re)
  | Star (a : Re).

Fixpoint nullable (r : Re) : bool :=
  match r with
  | Void => false
  | Eps => true
  | Chr _ => false
  | Seq a b => nullable a && nullable b
  | Alt a b => nullable a || nullable b
  | Star _ => true
  end.

Fixpoint deriv (c : ascii) (r : Re) : Re :=
  match r with
  | Void => Void
  | Eps => Void
  | Chr p => if p c then Eps else Void
  | Seq a b =>
      if nullable a then Alt (Seq (deriv c a) b) (deriv c b)
      else Seq (deriv c a) b
  | Alt a b => Alt (deriv c a) (deriv c b)
  | Star a => Seq (deriv c a) (Star a)
  end.

(** [/^r$/.test(s)] *)
Fixpoint test (r : Re) (s : string) : bool :=
  match s with
  | EmptyString => nullable r
  | String c s' => test (deriv c r) s'
  end.

(** [r+], [r?] and [r{2,3}] *)
Definition plus (r : Re) : Re := Seq r (Star r).
Definition opt (r : Re) : Re := Alt Eps r.
Definition two_or_three (r : Re) : Re := Seq r (Seq r (opt r)).

(** [\w], which is [[A-Za-z0-9_]]. *)
Definition word (c : ascii) : bool :=
  let n := nat_of_ascii c in
  ((65 <=? n)%nat && (n <=? 90)%nat) || ((97 <=? n)%nat && (n <=? 122)%nat)
  || ((48 <=? n)%nat && (n <=? 57)%nat) || (n =? 95)%nat.

Definition one_of (chars : string) (c : ascii) : bool :=
  existsb (λ x, bool_decide (x = c)) (list_ascii_of_string chars).

End Regex.

(** ** User.model, user.service, auth.service and the token's [iat] *)

Module UserService.
Import TaskModel.
Export Transaction.

Record User := mkUser {
  username : string;
  email : string;
  password : string;
  isActive : bool;
  lastLogin : option Date;
  passwordChangedAt : option Date
}.

#[global] Instance User_eq_dec : EqDecision User.
Proof. solve_decision. Defined.

Abbreviation Users := (gmap ObjectId User).

Definition set_password (v : string) (u : User) : User :=
  mkUser (username u) (email u) v (isActive u) (lastLogin u) (passwordChangedAt u).
Definition set_passwordChangedAt (v : option Date) (u : User) : User :=
  mkUser (username u) (email u) (password u) (isActive u) (lastLogin u) v.

(** [generateToken]: [iat = Math.floor(Date.now() / 1000)], in seconds. *)
Definition iat_of (now : Date) : Z := now / 1000.

(** [passwordChangedAfterJWT].  [parseInt(ms / 1000, 10)] drops the
    fraction, towards zero. *)
Definition passwordChangedAfterJWT (user : User) (jwtTimestamp : Z) : bool :=
  match passwordChangedAt user with
  | Some changed =>
      let changedTimestamp := Z.quot changed 1000 in
      jwtTimestamp <? changedTimestamp
  | None => false
  end.

Section Bcrypt.
(** [bcrypt.hash] and [bcrypt.compare], which the code only calls. *)
Variable hash : string → string.
Variable compare : string → string → bool.

(** A user document in memory, as [Document] for tasks. *)
Record UserDocument := mkUserDocument {
  user_id : ObjectId;
  user_loaded : option User;
  user_doc : User
}.

Definition isModified_password (d : UserDocument) : bool :=
  match user_loaded d with
  | None => true
  | Some u0 => bool_decide (password (user_doc d) ≠ password u0)
  end.

Definition user_isNew (d : UserDocument) : bool :=
  match user_loaded d with None => true | Some _ => false end.

(** First [userSchema.pre('save')]: hash a modified password. *)
Definition pre_save_hash (d : UserDocument) : UserDocument :=
  if negb (isModified_password d) then d
  else mkUserDocument (user_id d) (user_loaded d)
         (set_password (hash (password (user_doc d))) (user_doc d)).

(** Second [userSchema.pre('save')]: when the password of a stored user
    was modified, [passwordChangedAt = Date.now() - 1000].  Both hooks
    ask [isModified('password')] of the document as it was handed to
    [save]. *)
Definition pre_save_changedAt (modified : bool) (now : Date)
    (d : UserDocument) : UserDocument :=
  if negb modified || user_isNew d then d
  else mkUserDocument (user_id d) (user_loaded d)
         (set_passwordChangedAt (Some (now - 1000)) (user_doc d)).

(** [save] on a user document, from the hooks on.  Before them [save]
    validates the document and fails with a [ValidationError] when a
    validator refuses it; this definition stands for [save] on the
    documents [accepts], defined with the schema's validators further
    down, describes. *)
Definition user_save (now : Date) (d : UserDocument) (users : Users)
    : UserDocument * Users :=
  let d' := pre_save_changedAt (isModified_password d) now (pre_save_hash d) in
  (mkUserDocument (user_id d') (Some (user_doc d')) (user_doc d'),
   <[user_id d' := user_doc d']> users).

(** The unit of work of [authService.changePassword]; it yields the new
    [passwordChangedAt]. *)
Definition changePassword_operations (userId : ObjectId)
    (currentPassword newPassword : string) (now : Date)
    : Users → (option Date + JsError) * Users :=
  fun users =>
    match users !! userId with
    | None => (inr (Error "User not found"), users)
    | Some u =>
        if negb (compare currentPassword (password u))
        then (inr (Error "Current password is incorrect"), users)
        else if compare newPassword (password u)
        then (inr (Error "New password must be different from current password"),
              users)
        else
          let d := mkUserDocument userId (Some u)
                     (set_passwordChangedAt (Some now)
                        (set_password newPassword u)) in
          let '(d', users') := user_save now d users in
          (inl (passwordChangedAt (user_doc d')), users')
    end.

Definition changePassword (userId : ObjectId)
    (currentPassword newPassword : string) (now : Date) (users : Users)
    : Run unit Users (option Date) :=
  withRetryableTransaction
    (on_data (changePassword_operations userId currentPassword newPassword now))
    3 (tt, users).

(** [userService.updatePassword]: [findByIdAndUpdate], which runs no
    save hook. *)
Definition updatePassword (userId : ObjectId) (newPassword : string)
    (now : Date) (users : Users) : option User * Users :=
  let hashedPassword := hash newPassword in
  match users !! userId with
  | None => (None, users)
  | Some u =>
      let u' := set_passwordChangedAt (Some now) (set_password hashedPassword u) in
      (Some u', <[userId := u']> users)
  end.

End Bcrypt.

(** *** jwt.util: the authorization header and token times *)

(** [s.split(sep)] for a one-character separator. *)
Fixpoint split (sep : ascii) (s : string) : list string :=
  match s with
  | EmptyString => [EmptyString]
  | String c s' =>
      if bool_decide (c = sep) then EmptyString :: split sep s'
      else match split sep s' with
           | part :: parts => String c part :: parts
           | [] => [String c EmptyString]
           end
  end.

(** [extractTokenFromHeader]; an absent or empty header is falsy. *)
Definition extractTokenFromHeader (authHeader : option string) : option string :=
  match authHeader with
  | None => None
  | Some h =>
      if bool_decide (h = "") then None
      else match split " " h with
           | [scheme; token] =>
               if bool_decide (scheme = "Bearer") then Some token else None
           | _ => None
           end
  end.

Section Tokens.
(** [jwt.decode], as far as the code reads its result: [None] for a token
    that does not decode, else the [exp] claim if there is one. *)
Variable decode : string → option (option Z).

(** [isTokenExpired]: a missing or zero [exp] counts as expired. *)
Definition isTokenExpired (token : string) (now : Date) : bool :=
  match decode token with
  | Some (Some exp) =>
      if bool_decide (exp = 0) then true
      else exp <? now / 1000
  | _ => true
  end.

(** [getTokenExpiration] *)
Definition getTokenExpiration (token : string) : option Date :=
  match decode token with
  | Some (Some exp) => if bool_decide (exp = 0) then None else Some (exp * 1000)
  | _ => None
  end.
End Tokens.

(** *** user.service and auth.service: accounts *)

(** [User.findOne(filter)]: some document that satisfies the filter. *)
Definition findOne (filter : ObjectId → User → bool) (users : Users)
    : option (ObjectId * User) :=
  List.find (λ kv, filter (fst kv) (snd kv)) (map_to_list users).

(** [_id: { $ne: excludeUserId }], asked for only when the argument is
    given. *)
Definition not_excluded (excludeUserId : option ObjectId) (id : ObjectId) : bool :=
  match excludeUserId with
  | Some x => negb (bool_decide (id = x))
  | None => true
  end.

Definition emailExists (mail : string) (excludeUserId : option ObjectId)
    (users : Users) : bool :=
  bool_decide (is_Some (findOne (λ id u, bool_decide (email u = mail) && isActive u
                                         && not_excluded excludeUserId id) users)).

Definition usernameExists (name : string) (excludeUserId : option ObjectId)
    (users : Users) : bool :=
  bool_decide (is_Some (findOne (λ id u, bool_decide (username u = name) && isActive u
                                         && not_excluded excludeUserId id) users)).

(** [findByEmailWithPassword] *)
Definition findByEmailWithPassword (mail : string) (users : Users)
    : option (ObjectId * User) :=
  findOne (λ _ u, bool_decide (email u = mail) && isActive u) users.

Definition set_lastLogin (v : option Date) (u : User) : User :=
  mkUser (username u) (email u) (password u) (isActive u) v (passwordChangedAt u).


(** [updateLastLogin] *)
Definition updateLastLogin (userId : ObjectId) (now : Date) (users : Users)
    : option User * Users :=
  match users !! userId with
  | None => (None, users)
  | Some u =>
      (Some (set_lastLogin (Some now) u), <[userId := set_lastLogin (Some now) u]> users)
  end.


Definition checkEmailExists (mail : string) (users : Users) : bool :=
  emailExists mail None users.

Definition checkUsernameExists (name : string) (users : Users) : bool :=
  usernameExists name None users.

(** The schema declares [username] and [email] [unique]: the collection
    refuses an insert that repeats either, whoever holds it. *)
Definition breaks_unique_index (u : User) (users : Users) : bool :=
  existsb (λ kv, bool_decide (email (snd kv) = email u)
                 || bool_decide (username (snd kv) = username u))
          (map_to_list users).

Section Auth.
Variable hash : string → string.
Variable compare : string → string → bool.

(** What the code puts in a token, and the options it signs with. *)
Record Payload := mkPayload {
  p_id : ObjectId;
  p_type : option string;
  p_iat : Z
}.

Record SignOptions := mkSignOptions {
  expiresIn : string;
  issuer : string;
  audience : string
}.

(** [jwt.sign] and [jwt.verify] with the server's secret, and
    [process.env.JWT_EXPIRES_IN]. *)
Variable sign : Payload → SignOptions → string.
Variable JWT_EXPIRES_IN : option string.

Inductive JwtFailure :=
  | JsonWebTokenError
  | TokenExpiredError
  | OtherFailure (msg : string).

Variable verify : string → JwtFailure + Payload.

(** [process.env.JWT_EXPIRES_IN || '7d'] *)
Definition expires_in : string :=
  match JWT_EXPIRES_IN with
  | Some v => if bool_decide (v = "") then "7d" else v
  | None => "7d"
  end.

Definition generateToken (userId : ObjectId) (now : Date) : string :=
  sign (mkPayload userId None (iat_of now))
       (mkSignOptions expires_in "task-management-app" "task-management-users").

Definition generateRefreshToken (userId : ObjectId) (now : Date) : string :=
  sign (mkPayload userId (Some "refresh") (iat_of now))
       (mkSignOptions "30d" "task-management-app" "task-management-users").

(** [createTokenResponse]; an empty refresh token is falsy and left out. *)
Record TokenResponse := mkTokenResponse {
  tr_id : ObjectId;
  tr_username : string;
  tr_email : string;
  tr_createdAt : Date;
  accessToken : string;
  tr_expiresIn : string;
  refreshToken_of : option string
}.

Definition createTokenResponse (id : ObjectId) (u : User) (created : Date)
    (access : string) (refresh : option string) : TokenResponse :=
  mkTokenResponse id (username u) (email u) created access expires_in
    (match refresh with
     | Some r => if bool_decide (r = "") then None else Some r
     | None => None
     end).

(** [newUser.save()] for a new user: the hooks, then the insert, which the
    unique indexes may refuse. *)
Definition user_insert (now : Date) (d : UserDocument) (users : Users)
    : (UserDocument + JsError) * Users :=
  if bool_decide (is_Some (users !! user_id d))
     || breaks_unique_index (user_doc d) users
  then (inr DuplicateKey, users)
  else let '(d', users') := user_save hash now d users in (inl d', users').

(** The unit of work of [authService.register].  [newId] is the [_id] of
    the new document; its [isActive] and [passwordChangedAt] are the
    schema defaults, [true] and the time of construction.  [mail] is the
    address as the request validation hands it on, in lower case, which
    the schema's [lowercase] and [trim] setters leave as it is. *)
Definition register_operations (name mail pw : string) (now : Date)
    (newId : ObjectId) : Users → (TokenResponse + JsError) * Users :=
  fun users =>
    if bool_decide (is_Some (findOne (λ _ u, bool_decide (email u = mail) && isActive u) users))
    then (inr (Error "Email already registered"), users)
    else if bool_decide (is_Some (findOne (λ _ u, bool_decide (username u = name) && isActive u) users))
    then (inr (Error "Username already taken"), users)
    else
      let newUser :=
        mkUserDocument newId None (mkUser name mail pw true (Some now) (Some now)) in
      match user_insert now newUser users with
      | (inr e, users') => (inr e, users')
      | (inl savedUser, users') =>
          (inl (createTokenResponse (user_id savedUser) (user_doc savedUser) now
                  (generateToken (user_id savedUser) now)
                  (Some (generateRefreshToken (user_id savedUser) now))),
           users')
      end.

Definition register (name mail pw : string) (now : Date) (newId : ObjectId)
    (users : Users) : Run unit Users TokenResponse :=
  withRetryableTransaction
    (on_data (register_operations name mail pw now newId)) 3 (tt, users).

(** [authService.refreshToken].  Every failure inside its [try] comes out
    as the one error of its [catch]; and the last check calls
    [user.changedPasswordAfter], a method the user schema no longer
    defines, so that call fails too. *)
Definition refreshToken (token : string) (now : Date) (users : Users)
    : Completion (string * string) :=
  let refused := Throw (Some (Error "Invalid or expired refresh token")) in
  match verify token with
  | inl _ => refused
  | inr decoded =>
      if negb (bool_decide (p_type decoded = Some "refresh")) then refused
      else match users !! p_id decoded with
           | None => refused
           | Some u =>
               if negb (isActive u) then refused
               else (* user.changedPasswordAfter is not a function *) refused
           end
  end.

(** *** auth.middleware *)

(** What [protect] does with a request: lets it through with [req.user]
    set, or answers with a status, a message, a code, and, on the last
    resort, the error text when in development.  [req.user] is the stored
    user; its [password] is not loaded ([select: false]) and nothing reads
    it from there. *)
Inductive Guard :=
  | Granted (id : ObjectId) (u : User)
  | Refused (status : Z) (msg : string) (code : option string)
            (detail : option string).

Variable development : bool.

(** The token [protect] reads: the second part of a header that starts
    with [Bearer]. *)
Definition bearer_token (authorization : option string) : option string :=
  match authorization with
  | None => None
  | Some h =>
      if negb (bool_decide (h = "")) && starts_with "Bearer" h
      then split " " h !! 1%nat
      else None
  end.

Definition protect (authorization : option string) (users : Users) : Guard :=
  match bearer_token authorization with
  | None =>
      Refused 401 "You are not logged in! Please log in to get access."
        (Some "NO_TOKEN") None
  | Some token =>
      if bool_decide (token = "")
      then Refused 401 "You are not logged in! Please log in to get access."
             (Some "NO_TOKEN") None
      else
        match verify token with
        | inl JsonWebTokenError =>
            Refused 401 "Invalid token. Please log in again!" (Some "INVALID_TOKEN") None
        | inl TokenExpiredError =>
            Refused 401 "Your token has expired! Please log in again."
              (Some "TOKEN_EXPIRED") None
        | inl (OtherFailure msg) =>
            Refused 500 "Something went wrong during authentication" None
              (if development then Some msg else None)
        | inr decoded =>
            match users !! p_id decoded with
            | None =>
                Refused 401 "The user belonging to this token does no longer exist."
                  (Some "USER_NOT_FOUND") None
            | Some currentUser =>
                if negb (isActive currentUser)
                then Refused 401
                       "Your account has been deactivated. Please contact support."
                       (Some "ACCOUNT_DEACTIVATED") None
                else if passwordChangedAfterJWT currentUser (p_iat decoded)
                then Refused 401 "User recently changed password! Please log in again."
                       (Some "PASSWORD_CHANGED") None
                else Granted (p_id decoded) currentUser
            end
        end
  end.

(** [optionalAuth]: the user it puts on the request, if any.  Its last
    check calls the same missing [changedPasswordAfter]; the failure lands
    in the [catch], which goes on without a user. *)
Definition optionalAuth (authorization : option string) (users : Users)
    : option (ObjectId * User) :=
  match bearer_token authorization with
  | None => None
  | Some token =>
      if bool_decide (token = "") then None
      else match verify token with
           | inl _ => None
           | inr decoded =>
               match users !! p_id decoded with
               | None => None
               | Some currentUser =>
                   if negb (isActive currentUser) then None
                   else (* currentUser.changedPasswordAfter is not a function *) None
               end
           end
  end.

End Auth.

(** *** User.model: setters and validators *)

(** [/^[a-zA-Z0-9_]+$/] *)
Definition username_pattern : Regex.Re := Regex.plus (Regex.Chr Regex.word).

(** [/^\w+([.-]?\w+)*@\w+([.-]?\w+)*(\.\w{2,3})+$/] *)
Definition email_pattern : Regex.Re :=
  let w := Regex.Chr Regex.word in
  let more := Regex.Star (Regex.Seq (Regex.opt (Regex.Chr (Regex.one_of ".-")))
                            (Regex.plus w)) in
  Regex.Seq (Regex.plus w)
    (Regex.Seq more
       (Regex.Seq (Regex.Chr (Regex.one_of "@"))
          (Regex.Seq (Regex.plus w)
             (Regex.Seq more
                (Regex.plus (Regex.Seq (Regex.Chr (Regex.one_of "."))
                               (Regex.two_or_three w))))))).

(** [username]: [trim], [minlength: 3], [maxlength: 30], [match]. *)
Definition username_passes (name : string) : bool :=
  TaskValidators.settled name
  && (3 <=? String.length name)%nat && (String.length name <=? 30)%nat
  && Regex.test username_pattern name.

(** [email]: [lowercase], [trim], [minlength: 5], [maxlength: 255],
    [match]. *)
Definition email_passes (mail : string) : bool :=
  TaskValidators.settled mail && bool_decide (toLowerCase mail = mail)
  && (5 <=? String.length mail)%nat && (String.length mail <=? 255)%nat
  && Regex.test email_pattern mail.

(** [password], as it is handed to [save], before the hook hashes it:
    [minlength: 8], [maxlength: 128]. *)
Definition password_passes (pw : string) : bool :=
  TaskValidators.ascii_text pw
  && (8 <=? String.length pw)%nat && (String.length pw <=? 128)%nat.

(** The new users [save] stores as they are handed to it: ASCII text
    that the setters leave as it is and the validators pass. *)
Definition accepts (name mail pw : string) : bool :=
  username_passes name && email_passes mail && password_passes pw.

End UserService.

(** ** Sample worlds

    A unit of work that fails a given number of times, two users, a few
    tasks and sockets; used where a property is exercised on concrete
    data. *)

Module Scenarios.
Import TaskModel WebSocketService TaskService UserService.

(** A unit of work for exercising the executor: its first [failures]
    calls throw [e], the later ones succeed.  The environment counts the
    calls. *)
Definition flaky (failures : nat) (e : JsError) : Operations nat unit string :=
  fun w =>
    if (fst w <? failures)%nat then (inr e, (S (fst w), snd w))
    else (inl "done", (S (fst w), snd w)).

(** A failure the storage engine lists under code 251. *)
Definition NoSuchTransaction : JsError :=
  {| message := "Given transaction number does not match any in-progress transactions";
     code := Some 251; ownHasErrorLabel := None |}.

Definition alice : ObjectId := 7%N.
Definition bob : ObjectId := 8%N.

Definition a_task (owner : ObjectId) (name : string) : Task :=
  mkTask name "to do" pending owner medium None None [] 1000 1000.

(** Tasks 1 and 2 are Alice's, task 3 is Bob's. *)
Definition three_tasks : Collection :=
  <[1%N := a_task alice "A"]>
    (<[2%N := a_task alice "B"]> (<[3%N := a_task bob "C"]> ∅)).

(** Alice is connected twice (sockets 100 and 101), Bob once (200). *)
Definition three_sockets : Io :=
  connection 200 bob (connection 101 alice (connection 100 alice (mkIo [] ∅ []))).

Definition home : State := mkState three_tasks three_sockets.

Definition complete_it : UpdateData :=
  mkUpdateData None None (Some completed) None None None.

(** Alice owns tasks 1..25, Bob owns task 26. *)
Definition twenty_five : Collection :=
  <[26%N := a_task bob "other"]>
    (list_to_map (map (λ i, (N.of_nat i, a_task alice "mine")) (seq 1 25))).

Definition busy : State := mkState twenty_five three_sockets.

Definition page_of (page limit : string) : TaskSchema.RawQuery :=
  TaskSchema.mkRawQuery None None (Some page) (Some limit) None None None.

(** A stand-in for bcrypt, and Alice's account with password "old",
    last changed at time 0. *)
Definition toy_hash (pw : string) : string := "#" +:+ pw.
Definition toy_compare (pw hashed : string) : bool :=
  bool_decide (hashed = toy_hash pw).

Definition one_user : Users :=
  {[ alice := mkUser "alice" "alice@example.org" (toy_hash "old") true None (Some 0) ]}.

(** A transaction function that counts its calls, fails with [e] every
    time and hands the data back untouched. *)
Definition aborting (e : JsError) : Operations nat (list nat) unit :=
  fun w => (inr e, (S (fst w), snd w)).

(** Carol's account, deactivated; she still holds her email and name. *)
Definition carol : ObjectId := 9%N.
Definition with_carol : Users :=
  <[ carol := mkUser "carol" "carol@example.org" (toy_hash "pw") false None (Some 0) ]>
    one_user.

(** A stand-in for [jwt.sign] / [jwt.verify]: the token spells out the
    user id and [iat]; anything else does not verify. *)
Definition toy_sign (p : Payload) (o : SignOptions) : string :=
  pretty (p_id p) +:+ "." +:+ pretty (p_iat p)
  +:+ match p_type p with Some t => "." +:+ t | None => "" end.

Definition toy_verify (token : string) : JwtFailure + Payload :=
  if bool_decide (token = "7.1000") then inr (mkPayload alice None 1000)
  else if bool_decide (token = "7.1001") then inr (mkPayload alice None 1001)
  else if bool_decide (token = "9.1000") then inr (mkPayload carol None 1000)
  else inl JsonWebTokenError.

(** Task 1 is overdue at time 5000, task 2 is due later, task 4 was
    overdue but is completed, task 3 is Bob's. *)
Definition with_due_dates : Collection :=
  <[1%N := mkTask "Renew Passport" "at the consulate" pending alice high
             (Some 3000) None ["travel"; "Papers"] 1000 1000]>
    (<[2%N := mkTask "B" "to do" in_progress alice medium (Some 9000) None [] 1000 1000]>
       (<[3%N := mkTask "C" "to do" pending bob medium (Some 2000) None [] 1000 1000]>
          (<[4%N := mkTask "D" "done" completed alice low (Some 2000) (Some 2500)
                      [] 1000 2500]> ∅))).

Definition office : State := mkState with_due_dates three_sockets.

Definition any_options : Options :=
  mkOptions None None None None None None None None.

(** Alice's passport task, and a request for her tasks by title, two a
    page. *)
Definition passport : Task :=
  mkTask "Renew Passport" "at the consulate" pending alice high
    (Some 3000) None ["travel"; "Papers"] 1000 1000.

Definition by_title_in_twos : Options :=
  mkOptions None (Some 2) None (Some by_title) (Some asc) None None None.

(** Alice owns 150 pending tasks; a request for 1000 a page. *)
Definition crowded : State :=
  mkState (list_to_map (map (λ i, (N.of_nat i, a_task alice "mine")) (seq 1 150)))
    three_sockets.

Definition a_thousand : Options :=
  mkOptions None (Some 1000) None None None None None None.

(** Alice's account with a password the schemas admit, last changed at
    time 0. *)
Definition alice_account : User :=
  mkUser "alice" "alice@example.org" (toy_hash "Old!Passw0rd") true None (Some 0).

Definition registered : Users := {[ alice := alice_account ]}.

End Scenarios.

(** * Properties *)

(** ** The retry executor *)

Section ExecutorFacts.
Import Transaction.
Context {E D A : Type}.
Implicit Types (txn operations : Operations E D A) (w : E * D).

Lemma backoff_S first k :
  backoff first (S k) = (2 ^ Z.of_nat first * 100) :: backoff (S first) k.
Proof. reflexivity. Qed.

(** [new Error(...)] carries no code and no label function. *)
Lemma plain_Error_not_retryable msg : isRetryableError (Error msg) = false.
Proof. reflexivity. Qed.

Lemma isRetryableError_codes e :
  isRetryableError e = true ↔
  (∃ c, code e = Some c ∧ c ∈ retryableErrorCodes)
  ∨ (∃ labels l, ownHasErrorLabel e = Some labels
                 ∧ l ∈ retryableLabels ∧ l ∈ labels).
Proof.
  unfold isRetryableError, includes_code, hasErrorLabel.
  rewrite orb_true_iff, existsb_exists. split.
  - intros [H | (l & Hl & H)].
    + destruct (code e) as [c|]; [|done].
      left. exists c. split; [done|]. by apply bool_decide_eq_true in H.
    + destruct (ownHasErrorLabel e) as [labels|]; [|done].
      right. exists labels, l. apply bool_decide_eq_true in H.
      by rewrite list_elem_of_In.
  - intros [(c & -> & H) | (labels & l & -> & Hl & H)].
    + left. by apply bool_decide_eq_true.
    + right. exists l. rewrite <- list_elem_of_In.
      split; [done|]. by apply bool_decide_eq_true.
Qed.

(** One iteration that fails for good: no further call, no delay. *)
Lemma retry_loop_rethrows txn N remaining attempt last w waited e w' :
  txn w = (inr e, w') →
  isRetryableError e && (attempt <? N)%nat = false →
  retry_loop txn N (S remaining) attempt last w waited
  = mkRun (Throw (Some e)) w' waited.
Proof. intros Htxn Hno. simpl. by rewrite Htxn, Hno. Qed.

(** [k] retryable failures, then a success, all within the budget. *)
Lemma retry_loop_succeeds txn N v : ∀ k remaining attempt last w waited,
  (k < remaining)%nat →
  (attempt + k ≤ N)%nat →
  (∀ i, (i < k)%nat →
     ∃ e, fst (nth_call txn w i) = inr e ∧ isRetryableError e = true) →
  fst (nth_call txn w k) = inl v →
  retry_loop txn N remaining attempt last w waited
  = mkRun (Return v) (snd (nth_call txn w k)) (waited ++ backoff attempt k).
Proof.
  induction k as [|k IH]; intros remaining attempt last w waited Hrem Hatt Hfail Hok.
  - destruct remaining as [|r]; [lia|]. simpl in *.
    destruct (txn w) as [[v'|e] w']; simpl in *; [|done].
    unfold backoff. simpl. rewrite app_nil_r. congruence.
  - destruct remaining as [|r]; [lia|].
    destruct (Hfail 0%nat) as (e & He & Hretry); [lia|].
    simpl in He, Hok |- *.
    destruct (txn w) as [[v'|e'] w'] eqn:Htxn; simpl in *; [done|].
    injection He as ->. rewrite Hretry. simpl.
    replace (attempt <? N)%nat with true
      by (symmetry; apply Nat.ltb_lt; lia).
    rewrite (IH r (S attempt) (Some e) w' _); try lia; try done.
    + rewrite backoff_S, <- app_assoc. reflexivity.
    + intros i Hi. destruct (Hfail (S i)) as (e' & He' & Hr'); [lia|].
      simpl in He'. rewrite Htxn in He'. eauto.
Qed.

(** Every attempt of the budget fails retryably: the error of the last
    attempt is thrown as it is. *)
Lemma retry_loop_exhausts txn N : ∀ remaining attempt last w waited,
  (attempt + remaining = N)%nat →
  (∀ i, (i ≤ remaining)%nat →
     ∃ e, fst (nth_call txn w i) = inr e ∧ isRetryableError e = true) →
  ∃ e, fst (nth_call txn w remaining) = inr e
       ∧ retry_loop txn N (S remaining) attempt last w waited
         = mkRun (Throw (Some e)) (snd (nth_call txn w remaining))
             (waited ++ backoff attempt remaining).
Proof.
  induction remaining as [|r IH]; intros attempt last w waited Hatt Hfail.
  - destruct (Hfail 0%nat) as (e & He & Hretry); [lia|].
    exists e. cbn [nth_call] in *. split; [done|].
    cbn [retry_loop].
    destruct (txn w) as [[v'|e'] w'] eqn:Htxn; cbn [fst snd] in *; [done|].
    injection He as ->. rewrite Hretry. cbn [andb].
    replace (attempt <? N)%nat with false
      by (symmetry; apply Nat.ltb_ge; lia).
    unfold backoff. cbn [seq map]. by rewrite app_nil_r.
  - destruct (Hfail 0%nat) as (e & He & Hretry); [lia|].
    cbn [nth_call] in He.
    destruct (txn w) as [[v'|e'] w'] eqn:Htxn; cbn [fst snd] in *; [done|].
    injection He as ->.
    destruct (IH (S attempt) (Some e) w' (waited ++ [2 ^ Z.of_nat attempt * 100])%list)
      as (e1 & He1 & Hrun); [lia| |].
    + intros i Hi. destruct (Hfail (S i)) as (e' & He' & Hr'); [lia|].
      cbn [nth_call] in He'. rewrite Htxn in He'. eauto.
    + exists e1. cbn [nth_call]. rewrite Htxn. cbn [snd]. split; [done|].
      change (retry_loop txn N (S (S r)) attempt last w waited)
        with (match txn w with
              | (inl result, w') => mkRun (Return result) w' waited
              | (inr error, w') =>
                  if isRetryableError error && (attempt <? N)%nat
                  then retry_loop txn N (S r) (S attempt) (Some error) w'
                         (waited ++ [2 ^ Z.of_nat attempt * 100])
                  else mkRun (Throw (Some error)) w' waited
              end).
      rewrite Htxn, Hretry. cbn [andb].
      replace (attempt <? N)%nat with true
        by (symmetry; apply Nat.ltb_lt; lia).
      rewrite Hrun, backoff_S, <- app_assoc. reflexivity.
Qed.

(** A failure outside the retryable list ends the run at once. *)
Lemma unlisted_failure_propagates operations N w w' e :
  (1 ≤ N)%nat →
  operations w = (inr e, w') →
  isRetryableError e = false →
  withRetryableTransaction operations N w
  = mkRun (Throw (Some e)) (fst w', snd w) [].
Proof.
  intros HN Hop Hno.
  unfold withRetryableTransaction. destruct N as [|N]; [lia|].
  apply retry_loop_rethrows.
  - unfold withTransaction. rewrite Hop. by destruct w'.
  - by rewrite Hno.
Qed.

End ExecutorFacts.

Import Transaction.

(** C3 (as amended).  The executor never retries a failure that
    [isRetryableError] does not list.  Every failure raised as a plain
    [new Error(message)] (task not found, access denied, already
    completed, and the application's own "already registered" and "already
    taken" checks) is such a failure: whatever the attempt budget, it
    reaches the caller on its first occurrence, after one call of the unit
    of work and no delay, with the data rolled back.  The storage engine's
    duplicate-key failure (code 11000) is on the retryable list. *)
Theorem C3_unlisted_failures_propagate_at_once :
  (∀ msg, isRetryableError (Error msg) = false)
  ∧ (∀ (E D A : Type) (operations : Operations E D A) (N : nat)
       (w w' : E * D) (e : JsError),
       (1 ≤ N)%nat →
       operations w = (inr e, w') →
       isRetryableError e = false →
       withRetryableTransaction operations N w
       = mkRun (Throw (Some e)) (fst w', snd w) [])
  ∧ isRetryableError DuplicateKey = true.
Proof.
  split; [exact plain_Error_not_retryable|]. split; [|reflexivity].
  intros E D A operations N w w' e. apply unlisted_failure_propagates.
Qed.

Lemma C3_unlisted_failures_witness :
  withRetryableTransaction (Scenarios.flaky 5 (Error "Task not found")) 3 (0%nat, tt)
  = mkRun (Throw (Some (Error "Task not found"))) (1%nat, tt) [].
Proof.
  apply (proj1 (proj2 C3_unlisted_failures_propagate_at_once)
           nat unit string (Scenarios.flaky 5 (Error "Task not found")) 3%nat
           (0%nat, tt) (1%nat, tt) (Error "Task not found")).
  - lia.
  - reflexivity.
  - reflexivity.
Defined.

(** C3, as stated, fails: a unit of work whose first attempt ends in a
    duplicate-key failure is not handed that failure back; the executor
    classifies it as retryable, waits 200 ms and runs the unit of work
    again. *)
Lemma C3_duplicate_key_is_retried :
  isRetryableError DuplicateKey = true
  ∧ withRetryableTransaction (Scenarios.flaky 1 DuplicateKey) 3 (0%nat, tt)
    = mkRun (Return "done") (2%nat, tt) [200].
Proof. split; reflexivity. Qed.

(** C4 (as amended).  Under the retry executor with [N] attempts: if the
    first [k < N] attempts fail retryably and attempt [k + 1] succeeds,
    the caller receives that result, after [k] retries, each preceded by
    a delay of [100 ms * 2^attempt] (attempts counted from 1).  If every
    one of [N >= 1] attempts fails retryably, the executor rethrows the
    error of the last attempt as it is, having waited [N - 1] times; it
    wraps it in no failure of its own. *)
Theorem C4_retries_then_result_or_last_error
    (E D A : Type) (operations : Operations E D A) (N : nat) (w : E * D) :
  let txn := withTransaction operations in
  (∀ k v,
     (k < N)%nat →
     (∀ i, (i < k)%nat →
        ∃ e, fst (nth_call txn w i) = inr e ∧ isRetryableError e = true) →
     fst (nth_call txn w k) = inl v →
     withRetryableTransaction operations N w
     = mkRun (Return v) (snd (nth_call txn w k)) (backoff 1 k))
  ∧ ((1 ≤ N)%nat →
     (∀ i, (i < N)%nat →
        ∃ e, fst (nth_call txn w i) = inr e ∧ isRetryableError e = true) →
     ∃ last,
       fst (nth_call txn w (N - 1)) = inr last
       ∧ withRetryableTransaction operations N w
         = mkRun (Throw (Some last)) (snd (nth_call txn w (N - 1)))
             (backoff 1 (N - 1))).
Proof.
  intros txn. subst txn. split.
  - intros k v Hk Hfail Hok. unfold withRetryableTransaction.
    by rewrite (retry_loop_succeeds _ N v k N 1 None w []); [|lia..|done|done].
  - intros HN Hfail. unfold withRetryableTransaction.
    destruct N as [|N]; [lia|]. replace (S N - 1)%nat with N in * by lia.
    destruct (retry_loop_exhausts (withTransaction operations) (S N) N 1 None w [])
      as (e & He & Hrun).
    + lia.
    + intros i Hi. apply Hfail. lia.
    + exists e. by rewrite Hrun.
Qed.

Lemma C4_retries_witness :
  withRetryableTransaction (Scenarios.flaky 2 Scenarios.NoSuchTransaction) 3 (0%nat, tt)
  = mkRun (Return "done") (3%nat, tt) [200; 400]
  ∧ withRetryableTransaction (Scenarios.flaky 9 Scenarios.NoSuchTransaction) 3 (0%nat, tt)
    = mkRun (Throw (Some Scenarios.NoSuchTransaction)) (3%nat, tt) [200; 400].
Proof.
  split.
  - apply (proj1 (C4_retries_then_result_or_last_error nat unit string
                    (Scenarios.flaky 2 Scenarios.NoSuchTransaction) 3 (0%nat, tt)) 2%nat "done").
    + lia.
    + intros [|[|i]] Hi; [by exists Scenarios.NoSuchTransaction..|lia].
    + reflexivity.
  - destruct (proj2 (C4_retries_then_result_or_last_error nat unit string
                       (Scenarios.flaky 9 Scenarios.NoSuchTransaction) 3 (0%nat, tt)))
      as (last & Hlast & Hrun).
    + lia.
    + intros [|[|[|i]]] Hi; [by exists Scenarios.NoSuchTransaction..|lia].
    + injection Hlast as <-. exact Hrun.
Defined.

(** C4, as stated, fails: when all three attempts end in the retryable
    failure [NoSuchTransaction], what the caller catches is that very
    error, not a "transaction exhausted" failure distinct from it. *)
Lemma C4_no_distinct_exhausted_failure :
  ¬ ∃ exhausted,
      outcome (withRetryableTransaction (Scenarios.flaky 9 Scenarios.NoSuchTransaction) 3 (0%nat, tt))
      = Throw (Some exhausted)
      ∧ exhausted ≠ Scenarios.NoSuchTransaction.
Proof.
  intros (x & Hx & Hne). apply Hne.
  change (Throw (Some Scenarios.NoSuchTransaction) = Throw (A := string) (Some x)) in Hx.
  by injection Hx.
Qed.

(** ** Bulk operations: the ownership pre-check *)

Section BulkFacts.
Import TaskModel WebSocketService TaskService.
Implicit Types (taskIds : list ObjectId) (userId id : ObjectId)
  (c : Collection) (s : State).

Lemma size_list_to_set_le taskIds :
  (size (list_to_set taskIds : gset ObjectId) ≤ length taskIds)%nat.
Proof.
  induction taskIds as [|x l IH]; cbn [list_to_set foldr length].
  - by rewrite size_empty.
  - rewrite size_union_alt, size_singleton.
    assert (list_to_set l ∖ {[x]} ⊆ (list_to_set l : gset ObjectId)) as Hsub
      by (by apply subseteq_difference_l).
    apply subseteq_size in Hsub. lia.
Qed.

(** A repeated id makes the list longer than the set of its ids. *)
Lemma size_list_to_set_lt taskIds :
  ¬ NoDup taskIds →
  (size (list_to_set taskIds : gset ObjectId) < length taskIds)%nat.
Proof.
  induction taskIds as [|x l IH]; intros Hdup.
  - destruct Hdup. constructor.
  - cbn [list_to_set foldr length].
    destruct (decide (x ∈ l)) as [Hin|Hnin].
    + replace ({[x]} ∪ list_to_set l : gset ObjectId) with (list_to_set l : gset ObjectId)
        by (symmetry; apply subseteq_union_1_L, singleton_subseteq_l;
            by apply elem_of_list_to_set).
      pose proof (size_list_to_set_le l). lia.
    + assert (¬ NoDup l) as Hl by (intros Hl; apply Hdup; by constructor).
      specialize (IH Hl).
      rewrite size_union_alt, size_singleton.
      assert (list_to_set l ∖ {[x]} ⊆ (list_to_set l : gset ObjectId)) as Hsub
        by (by apply subseteq_difference_l).
      apply subseteq_size in Hsub. lia.
Qed.

Lemma find_owned_in_lookup taskIds userId c id t :
  find_owned_in taskIds userId c !! id = Some t ↔
  c !! id = Some t ∧ id ∈ taskIds ∧ user t = userId.
Proof. unfold find_owned_in. rewrite map_lookup_filter_Some. reflexivity. Qed.

(** The matching documents are at most the distinct ids asked for. *)
Lemma dom_find_owned_in taskIds userId c :
  dom (find_owned_in taskIds userId c) ⊆ (list_to_set taskIds : gset ObjectId).
Proof.
  intros k Hk. apply elem_of_dom in Hk as [t Ht].
  apply find_owned_in_lookup in Ht as (_ & Hin & _).
  by apply elem_of_list_to_set.
Qed.

(** An id that is absent or someone else's leaves the match short. *)
Lemma find_owned_in_short taskIds userId c id :
  id ∈ taskIds →
  (∀ t, c !! id = Some t → user t ≠ userId) →
  (size (find_owned_in taskIds userId c) < length taskIds)%nat.
Proof.
  intros Hin Hforeign.
  rewrite <- size_dom.
  assert (dom (find_owned_in taskIds userId c)
          ⊂ (list_to_set taskIds : gset ObjectId)) as Hsub.
  { split; [apply dom_find_owned_in|].
    intros Hall.
    assert (id ∈ dom (find_owned_in taskIds userId c)) as Hid
      by (apply Hall; by apply elem_of_list_to_set).
    apply elem_of_dom in Hid as [t Ht].
    apply find_owned_in_lookup in Ht as (Hc & _ & Hu).
    by apply (Hforeign t). }
  apply subset_size in Hsub.
  pose proof (size_list_to_set_le taskIds). lia.
Qed.

(** When every id asked for is the caller's, the match is exactly the
    set of distinct ids. *)
Lemma dom_find_owned_in_all taskIds userId c :
  (∀ id, id ∈ taskIds → ∃ t, c !! id = Some t ∧ user t = userId) →
  dom (find_owned_in taskIds userId c) = (list_to_set taskIds : gset ObjectId).
Proof.
  intros Hall. apply set_eq. intros k. split.
  - apply dom_find_owned_in.
  - intros Hk. apply elem_of_list_to_set in Hk.
    destruct (Hall k Hk) as (t & Ht & Hu).
    apply elem_of_dom. exists t. by apply find_owned_in_lookup.
Qed.

Lemma bulkUpdate_short taskIds updateData userId now s :
  size (find_owned_in taskIds userId (db s)) ≠ length taskIds →
  withRetryableTransaction
    (on_data (bulkUpdate_operations taskIds updateData userId now)) 3 (tt, db s)
  = mkRun (Throw (Some PartialOwnership)) (tt, db s) [].
Proof.
  intros Hne.
  apply (unlisted_failure_propagates _ 3 (tt, db s) (tt, db s)); [lia| |done].
  unfold on_data, bulkUpdate_operations. cbn [fst snd].
  by rewrite bool_decide_eq_true_2.
Qed.

Lemma bulkDelete_short taskIds userId s :
  size (find_owned_in taskIds userId (db s)) ≠ length taskIds →
  withRetryableTransaction
    (on_data (bulkDelete_operations taskIds userId)) 3 (tt, db s)
  = mkRun (Throw (Some PartialOwnership)) (tt, db s) [].
Proof.
  intros Hne.
  apply (unlisted_failure_propagates _ 3 (tt, db s) (tt, db s)); [lia| |done].
  unfold on_data, bulkDelete_operations. cbn [fst snd].
  by rewrite bool_decide_eq_true_2.
Qed.

End BulkFacts.

Import TaskModel WebSocketService TaskService.

(** C1.  When some id of [taskIds] is absent from the collection or
    belongs to another user, [bulkUpdateTasks] and [bulkDeleteTasks] each
    fail with the one "not found or access denied" failure, thrown by the
    first attempt with no retry, and leave the whole state, hence every
    task of [taskIds], as it was. *)
Theorem C1_bulk_is_all_or_nothing (taskIds : list ObjectId)
    (updateData : UpdateData) (userId : ObjectId) (now : Date) (s : State)
    (id : ObjectId) :
  id ∈ taskIds →
  (db s !! id = None ∨ ∃ t, db s !! id = Some t ∧ user t ≠ userId) →
  bulkUpdateTasks taskIds updateData userId now s
  = (Throw (Some PartialOwnership), s)
  ∧ bulkDeleteTasks taskIds userId s = (Throw (Some PartialOwnership), s)
  ∧ delays (withRetryableTransaction
              (on_data (bulkUpdate_operations taskIds updateData userId now))
              3 (tt, db s)) = []
  ∧ delays (withRetryableTransaction
              (on_data (bulkDelete_operations taskIds userId)) 3 (tt, db s)) = [].
Proof.
  intros Hin Hbad.
  assert (size (find_owned_in taskIds userId (db s)) ≠ length taskIds) as Hne.
  { assert (size (find_owned_in taskIds userId (db s)) < length taskIds)%nat; [|lia].
    apply (find_owned_in_short _ _ _ id Hin).
    intros t Ht. destruct Hbad as [Hnone | (t' & Ht' & Hu)]; congruence. }
  unfold bulkUpdateTasks, bulkDeleteTasks.
  rewrite (bulkUpdate_short _ updateData _ now _ Hne), (bulkDelete_short _ _ _ Hne).
  cbn [outcome world delays snd]. by destruct s.
Qed.

Lemma C1_bulk_witness :
  bulkUpdateTasks [1; 2; 3]%N Scenarios.complete_it Scenarios.alice 5000 Scenarios.home
  = (Throw (Some PartialOwnership), Scenarios.home)
  ∧ bulkDeleteTasks [1; 2; 3]%N Scenarios.alice Scenarios.home
    = (Throw (Some PartialOwnership), Scenarios.home).
Proof.
  destruct (C1_bulk_is_all_or_nothing [1; 2; 3]%N Scenarios.complete_it
              Scenarios.alice 5000 Scenarios.home 3%N) as (Hu & Hd & _).
  - vm_compute. repeat constructor.
  - right. exists (Scenarios.a_task Scenarios.bob "C"). split; [reflexivity|].
    vm_compute. discriminate.
  - split; [exact Hu | exact Hd].
Defined.

(** C10.  When [taskIds] names some id twice, the operation fails with the
    "not found or access denied" failure and changes nothing, although
    every id listed exists and belongs to the caller: the documents found
    are as many as the distinct ids, which is fewer than the length of
    the list. *)
Theorem C10_repeated_id_fails (taskIds : list ObjectId)
    (updateData : UpdateData) (userId : ObjectId) (now : Date) (s : State) :
  ¬ NoDup taskIds →
  (∀ id, id ∈ taskIds → ∃ t, db s !! id = Some t ∧ user t = userId) →
  size (find_owned_in taskIds userId (db s))
  = size (list_to_set taskIds : gset ObjectId)
  ∧ (size (list_to_set taskIds : gset ObjectId) < length taskIds)%nat
  ∧ bulkUpdateTasks taskIds updateData userId now s
    = (Throw (Some PartialOwnership), s)
  ∧ bulkDeleteTasks taskIds userId s = (Throw (Some PartialOwnership), s).
Proof.
  intros Hdup Hall.
  assert (size (find_owned_in taskIds userId (db s))
          = size (list_to_set taskIds : gset ObjectId)) as Hsize
    by (by rewrite <- size_dom, (dom_find_owned_in_all _ _ _ Hall)).
  pose proof (size_list_to_set_lt taskIds Hdup) as Hlt.
  assert (size (find_owned_in taskIds userId (db s)) ≠ length taskIds) as Hne by lia.
  split; [done|]. split; [done|].
  unfold bulkUpdateTasks, bulkDeleteTasks.
  rewrite (bulkUpdate_short _ updateData _ now _ Hne), (bulkDelete_short _ _ _ Hne).
  cbn [outcome world snd]. by destruct s.
Qed.

Lemma C10_repeated_id_witness :
  bulkUpdateTasks [1; 2; 1]%N Scenarios.complete_it Scenarios.alice 5000 Scenarios.home
  = (Throw (Some PartialOwnership), Scenarios.home)
  ∧ bulkDeleteTasks [1; 2; 1]%N Scenarios.alice Scenarios.home
    = (Throw (Some PartialOwnership), Scenarios.home).
Proof.
  destruct (C10_repeated_id_fails [1; 2; 1]%N Scenarios.complete_it
              Scenarios.alice 5000 Scenarios.home) as (_ & _ & Hu & Hd).
  - intros Hnd. apply NoDup_cons in Hnd as [Hnotin _]. apply Hnotin.
    vm_compute. repeat constructor.
  - intros id Hid.
    apply elem_of_cons in Hid as [->|Hid];
      [by exists (Scenarios.a_task Scenarios.alice "A")|].
    apply elem_of_cons in Hid as [->|Hid];
      [by exists (Scenarios.a_task Scenarios.alice "B")|].
    apply elem_of_cons in Hid as [->|Hid];
      [by exists (Scenarios.a_task Scenarios.alice "A")|].
    by apply not_elem_of_nil in Hid.
  - split; [exact Hu | exact Hd].
Defined.

(** ** The completion invariant *)

Section CompletionFacts.
Implicit Types (t : Task) (d : Document) (s : State) (c : Collection).

Lemma timestamps_keeps now d :
  status (doc (timestamps now d)) = status (doc d)
  ∧ completedAt (doc (timestamps now d)) = completedAt (doc d)
  ∧ loaded (timestamps now d) = loaded d
  ∧ _id (timestamps now d) = _id d.
Proof.
  unfold timestamps. destruct (isNew d); [done|]. by destruct (isModified d).
Qed.

Lemma isModified_status_timestamps now d :
  isModified_status (timestamps now d) = isModified_status d.
Proof.
  destruct (timestamps_keeps now d) as (Hs & _ & Hl & _).
  unfold isModified_status. by rewrite Hl, Hs.
Qed.

Lemma pre_save_id now d : _id (pre_save now d) = _id d.
Proof. unfold pre_save. by repeat case_match. Qed.

(** The hook repairs the invariant whenever the status was modified. *)
Lemma pre_save_modified now d :
  isModified_status d = true → completion_consistent (doc (pre_save now d)).
Proof.
  intros Hmod. unfold pre_save, completion_consistent. rewrite Hmod.
  clear Hmod. destruct d as [i l [ti de st us pr du [ca|] ta cr up]].
  all: destruct st; cbn [doc status completedAt].
  all: repeat (case_bool_decide; cbn [andb doc status completedAt set_completedAt]).
  all: split; intros; congruence.
Qed.

(** With the status untouched, the hook leaves the document alone. *)
Lemma pre_save_unmodified now d :
  isModified_status d = false → pre_save now d = d.
Proof. intros Hmod. unfold pre_save. by rewrite Hmod. Qed.

(** What [save] stores is consistent, provided the document either had
    its status modified or kept a consistent pair from its load. *)
Lemma save_consistent now d c d' c' :
  (∀ t0, loaded d = Some t0 →
     completion_consistent t0
     ∧ (status (doc d) = status t0 → completedAt (doc d) = completedAt t0)) →
  save now d c = (inl d', c') →
  completion_consistent (doc d') ∧ c' = <[_id d := doc d']> c.
Proof.
  intros Hload Hsave. unfold save in Hsave.
  destruct (isNew d && bool_decide (is_Some (c !! _id d))); [done|].
  injection Hsave as <- <-. cbn [doc _id].
  destruct (timestamps_keeps now d) as (Hs & Hc & Hl & Hi).
  rewrite pre_save_id, Hi. split; [|done].
  destruct (isModified_status (timestamps now d)) eqn:Hmod.
  - by apply pre_save_modified.
  - rewrite (pre_save_unmodified _ _ Hmod).
    rewrite isModified_status_timestamps in Hmod.
    unfold isModified_status in Hmod.
    destruct (loaded d) as [t0|] eqn:Hld; [|done].
    apply bool_decide_eq_false in Hmod.
    assert (status (doc d) = status t0) as Hst
      by (destruct (decide (status (doc d) = status t0)); [done|]; by destruct Hmod).
    destruct (Hload t0 eq_refl) as [Hcons Hkeep].
    unfold completion_consistent in *. rewrite Hs, Hc, Hst, (Hkeep Hst). done.
Qed.

Lemma assign_keeps_completedAt u t : completedAt (assign u t) = completedAt t.
Proof.
  unfold assign, set_if. destruct u as [[?|] [?|] [?|] [?|] [?|] [?|]]; reflexivity.
Qed.

Lemma assign_keeps_user u t : user (assign u t) = user t.
Proof.
  unfold assign, set_if. destruct u as [[?|] [?|] [?|] [?|] [?|] [?|]]; reflexivity.
Qed.

(** [createTask], [updateTask], [markTaskAsCompleted] and [deleteTask]
    keep every stored task consistent. *)
Lemma createTask_keeps_invariant taskData userId now newId s r s' :
  all_consistent (db s) →
  createTask taskData userId now newId s = (r, s') →
  all_consistent (db s').
Proof.
  intros Hall Hrun. unfold createTask in Hrun.
  destruct (save now _ (db s)) as [[d'|e] c'] eqn:Hsave;
    injection Hrun as <- <-; [|done].
  apply save_consistent in Hsave as [Hcons ->]; [|done].
  by apply map_Forall_insert_2.
Qed.

Lemma updateTask_keeps_invariant taskId updateData userId now s r s' :
  all_consistent (db s) →
  updateTask taskId updateData userId now s = (r, s') →
  all_consistent (db s').
Proof.
  intros Hall Hrun. unfold updateTask, findById in Hrun.
  destruct (db s !! taskId) as [t|] eqn:Ht; [|by injection Hrun as <- <-].
  destruct (negb (isOwnedBy _ userId)); [by injection Hrun as <- <-|].
  destruct (save now _ (db s)) as [[d'|e] c'] eqn:Hsave;
    injection Hrun as <- <-; [|done].
  apply save_consistent in Hsave as [Hcons ->].
  - by apply map_Forall_insert_2.
  - cbn [loaded doc]. intros t0 [= <-]. split; [by apply (Hall taskId)|].
    intros _. apply assign_keeps_completedAt.
Qed.

Lemma markTaskAsCompleted_keeps_invariant taskId userId now s r s' :
  all_consistent (db s) →
  markTaskAsCompleted taskId userId now s = (r, s') →
  all_consistent (db s').
Proof.
  intros Hall Hrun. unfold markTaskAsCompleted, findById in Hrun.
  destruct (db s !! taskId) as [t|] eqn:Ht; [|by injection Hrun as <- <-].
  destruct (negb (isOwnedBy _ userId)); [by injection Hrun as <- <-|].
  cbn [doc] in Hrun.
  destruct (bool_decide (status t = completed)) eqn:Hst;
    [by injection Hrun as <- <-|].
  apply bool_decide_eq_false in Hst.
  unfold markAsCompleted in Hrun.
  destruct (save now _ (db s)) as [[d'|e] c'] eqn:Hsave;
    injection Hrun as <- <-; [|done].
  apply save_consistent in Hsave as [Hcons ->].
  - by apply map_Forall_insert_2.
  - cbn [loaded doc _id]. intros t0 [= <-]. split; [by apply (Hall taskId)|].
    intros Hsame. cbn in Hsame. by destruct Hst.
Qed.

Lemma deleteTask_keeps_invariant taskId userId s r s' :
  all_consistent (db s) →
  deleteTask taskId userId s = (r, s') →
  all_consistent (db s').
Proof.
  intros Hall Hrun. unfold deleteTask, findById in Hrun.
  destruct (db s !! taskId) as [t|] eqn:Ht; [|by injection Hrun as <- <-].
  destruct (negb (isOwnedBy _ userId)); injection Hrun as <- <-; [done|].
  by apply map_Forall_delete.
Qed.

(** A bulk update that goes through writes the given fields and
    [updatedAt] on each matching task and nothing else: [completedAt]
    stays what it was, whatever the new status. *)
Lemma bulkUpdate_writes_fields_only taskIds updateData userId now c r c' id t :
  bulkUpdate_operations taskIds updateData userId now c = (inl r, c') →
  c !! id = Some t → id ∈ taskIds → user t = userId →
  c' !! id = Some (set_updatedAt now (assign updateData t))
  ∧ completedAt (set_updatedAt now (assign updateData t)) = completedAt t.
Proof.
  unfold bulkUpdate_operations, updateMany.
  destruct (bool_decide _); [done|]. intros [= _ <-] Hc Hin Hown.
  rewrite map_lookup_imap, Hc. cbn.
  rewrite decide_True by done. split; [done|].
  apply assign_keeps_completedAt.
Qed.

End CompletionFacts.

(** C2.  [bulkUpdateTasks] breaks the completion invariant: in a
    collection where it holds, Alice completes her task 1 through a bulk
    update; the update succeeds, and the stored task has status
    [completed] with [completedAt] still null.  [createTask], [updateTask]
    and [markTaskAsCompleted] keep the invariant (lemmas above); the bulk
    path writes with [updateMany], which runs no save hook. *)
Theorem C2_bulk_update_leaves_completedAt_null :
  all_consistent (db Scenarios.home)
  ∧ ∃ r s',
      bulkUpdateTasks [1%N] Scenarios.complete_it Scenarios.alice 5000 Scenarios.home
      = (Return r, s')
      ∧ modifiedCount r = 1%nat
      ∧ ∃ t, db s' !! 1%N = Some t
             ∧ status t = completed ∧ completedAt t = None
             ∧ ¬ completion_consistent t.
Proof.
  split.
  - unfold Scenarios.home, Scenarios.three_tasks. cbn [db].
    repeat apply map_Forall_insert_2; try apply map_Forall_empty.
    all: split; cbn; congruence.
  - eexists _, _. split; [vm_compute; reflexivity|].
    split; [reflexivity|].
    eexists. split; [vm_compute; reflexivity|].
    split; [reflexivity|]. split; [reflexivity|].
    intros [Hto _]. by apply Hto.
Qed.

(** ** Ownership checks of the single-task operations *)

(** C6.  A user [X] who asks for, updates, deletes or completes a task
    that is not theirs is refused: with "Task not found" when no task has
    that id, with "Access denied" when the task exists and belongs to
    someone else; the collection and the socket server stay as they
    were, so the task is unchanged and no event is sent. *)
Theorem C6_foreign_task_is_refused (taskId X : ObjectId)
    (updateData : UpdateData) (now : Date) (s : State) :
  (db s !! taskId = None →
     getTaskById taskId X s = (Throw (Some TaskNotFound), s)
     ∧ updateTask taskId updateData X now s = (Throw (Some TaskNotFound), s)
     ∧ deleteTask taskId X s = (Throw (Some TaskNotFound), s)
     ∧ markTaskAsCompleted taskId X now s = (Throw (Some TaskNotFound), s))
  ∧ (∀ t, db s !! taskId = Some t → user t ≠ X →
     getTaskById taskId X s = (Throw (Some (AccessDenied "access")), s)
     ∧ updateTask taskId updateData X now s
       = (Throw (Some (AccessDenied "update")), s)
     ∧ deleteTask taskId X s = (Throw (Some (AccessDenied "delete")), s)
     ∧ markTaskAsCompleted taskId X now s
       = (Throw (Some (AccessDenied "update")), s)).
Proof.
  split.
  - intros Hnone.
    unfold getTaskById, updateTask, deleteTask, markTaskAsCompleted, findById.
    by rewrite Hnone.
  - intros t Ht Hother.
    unfold getTaskById, updateTask, deleteTask, markTaskAsCompleted, findById,
      isOwnedBy.
    rewrite Ht. cbn [doc]. by rewrite bool_decide_eq_false_2.
Qed.

Lemma C6_foreign_task_witness :
  getTaskById 3%N Scenarios.alice Scenarios.home
  = (Throw (Some (AccessDenied "access")), Scenarios.home)
  ∧ deleteTask 3%N Scenarios.alice Scenarios.home
    = (Throw (Some (AccessDenied "delete")), Scenarios.home)
  ∧ markTaskAsCompleted 9%N Scenarios.alice 5000 Scenarios.home
    = (Throw (Some TaskNotFound), Scenarios.home).
Proof.
  destruct (proj2 (C6_foreign_task_is_refused 3%N Scenarios.alice
                     Scenarios.complete_it 5000 Scenarios.home)
              (Scenarios.a_task Scenarios.bob "C"))
    as (Hget & _ & Hdel & _).
  - reflexivity.
  - vm_compute. discriminate.
  - destruct (proj1 (C6_foreign_task_is_refused 9%N Scenarios.alice
                       Scenarios.complete_it 5000 Scenarios.home))
      as (_ & _ & _ & Hmark).
    + reflexivity.
    + split; [exact Hget|]. split; [exact Hdel | exact Hmark].
Defined.



(** ** Events *)

Section EventFacts.
Implicit Types (io : Io) (s : State).

Lemma connection_private id userId io :
  rooms_are_private io → rooms_are_private (connection id userId io).
Proof.
  unfold rooms_are_private, connection. cbn [sockets]. intros Hall.
  apply Forall_app. split; [done|]. by repeat constructor.
Qed.

Lemma join_user_room_private id userId io :
  rooms_are_private io → rooms_are_private (join_user_room id userId io).
Proof.
  unfold rooms_are_private, join_user_room. cbn [sockets]. intros Hall.
  apply Forall_fmap. eapply Forall_impl; [exact Hall|].
  intros sk Hsk. cbn.
  destruct (bool_decide (socket_id sk = id)); cbn [andb]; [|done].
  case_bool_decide as Hu; [|done]. cbn [rooms socket_userId].
  rewrite Hsk, Hu. apply set_eq. intros k.
  rewrite elem_of_union, !elem_of_singleton. tauto.
Qed.

Lemma disconnect_private id io :
  rooms_are_private io → rooms_are_private (disconnect id io).
Proof.
  unfold rooms_are_private, disconnect. intros Hall.
  destruct (List.find _ (sockets io)); [|done]. cbn [sockets].
  apply Forall_forall. intros sk Hsk.
  apply list_elem_of_In, filter_In in Hsk as [Hsk _].
  rewrite Forall_forall in Hall. apply Hall. by apply list_elem_of_In.
Qed.

(** Fan-out: an event for a user reaches each of that user's sockets
    once, in connection order, and no other socket. *)
Lemma emit_to_fans_out userId ev d io :
  rooms_are_private io →
  received (emit_to userId ev d io)
  = received io ++ map (λ sk, mkEmitted (socket_id sk) ev d) (sockets_of userId io).
Proof.
  unfold rooms_are_private, emit_to, sockets_of. cbn [received]. intros Hall.
  f_equal. f_equal. induction Hall as [|sk l Hsk _ IH]; [done|].
  cbn [List.filter]. rewrite IH, Hsk.
  destruct (decide (socket_userId sk = userId)) as [->|Hne].
  - rewrite !bool_decide_eq_true_2; [done..|]. by apply elem_of_singleton.
  - rewrite !bool_decide_eq_false_2; [done|done|].
    rewrite elem_of_singleton. congruence.
Qed.

(** Each single-task operation that succeeds sends one event, of its own
    kind, to the caller's room. *)
Lemma createTask_publishes_once taskData userId now newId s d s' :
  createTask taskData userId now newId s = (Return d, s') →
  io s' = emit_to userId "task_created" (task_data (_id d) (doc d)) (io s).
Proof.
  unfold createTask. destruct (save now _ (db s)) as [[d'|e] c']; [|done].
  by intros [= <- <-].
Qed.

Lemma updateTask_publishes_once taskId updateData userId now s d s' :
  updateTask taskId updateData userId now s = (Return d, s') →
  io s' = emit_to userId "task_updated" (task_data (_id d) (doc d)) (io s).
Proof.
  unfold updateTask. destruct (findById taskId (db s)); [|done].
  destruct (negb _); [done|].
  destruct (save now _ (db s)) as [[d'|e] c']; [|done].
  by intros [= <- <-].
Qed.

Lemma deleteTask_publishes_once taskId userId s r s' :
  deleteTask taskId userId s = (Return r, s') →
  io s' = emit_to userId "task_deleted" (id_data taskId) (io s).
Proof.
  unfold deleteTask. destruct (findById taskId (db s)); [|done].
  destruct (negb _); [done|]. by intros [= <- <-].
Qed.

Lemma markTaskAsCompleted_publishes_once taskId userId now s d s' :
  markTaskAsCompleted taskId userId now s = (Return d, s') →
  io s' = emit_to userId "task_updated" (task_data (_id d) (doc d)) (io s).
Proof.
  unfold markTaskAsCompleted. destruct (findById taskId (db s)); [|done].
  destruct (negb _); [done|]. destruct (bool_decide _); [done|].
  destruct (markAsCompleted now _ (db s)) as [[d'|e] c']; [|done].
  by intros [= <- <-].
Qed.

End EventFacts.

(** C7.  The bulk operations send no event.  Neither [bulkUpdateTasks]
    nor [bulkDeleteTasks] touches the socket server, whatever its
    arguments; and when Alice, connected on two sockets, bulk-deletes her
    tasks 1 and 2, the deletion is committed (both tasks are gone, the
    count is 2) while no socket has received anything.  The single-task
    operations do send their event (lemmas above). *)
Theorem C7_bulk_operations_publish_nothing :
  (∀ taskIds updateData userId now s,
     io (snd (bulkUpdateTasks taskIds updateData userId now s)) = io s)
  ∧ (∀ taskIds userId s, io (snd (bulkDeleteTasks taskIds userId s)) = io s)
  ∧ ∃ r s',
      bulkDeleteTasks [1; 2]%N Scenarios.alice Scenarios.home = (Return r, s')
      ∧ deletedCount r = 2%nat
      ∧ db s' !! 1%N = None ∧ db s' !! 2%N = None
      ∧ map socket_id (sockets_of Scenarios.alice (io s')) = [100; 101]%N
      ∧ received (io s') = [].
Proof.
  split; [reflexivity|]. split; [reflexivity|].
  eexists _, _. split; [vm_compute; reflexivity|].
  repeat split; vm_compute; reflexivity.
Qed.

(** ** Listing *)

Section ListingFacts.
Import TaskSchema.

Lemma parse_page_bounds raw page : parse_page raw = Some page → 1 ≤ page.
Proof.
  unfold parse_page. destruct (digits_only _); [|done].
  destruct (0 <? Number _) eqn:Hpos; [|done].
  intros [= <-]. apply Z.ltb_lt in Hpos. lia.
Qed.

Lemma parse_limit_bounds raw limit :
  parse_limit raw = Some limit → 1 ≤ limit ≤ 100.
Proof.
  unfold parse_limit. destruct (digits_only _); [|done].
  destruct ((0 <? Number _) && (Number _ <=? 100)) eqn:Hin; [|done].
  intros [= <-]. apply andb_true_iff in Hin as [Hlo Hhi].
  apply Z.ltb_lt in Hlo. apply Z.leb_le in Hhi. lia.
Qed.

(** What the schema lets through carries a page and a limit, both
    parsed from the query. *)
Lemma getTasksQuerySchema_page_limit q o :
  getTasksQuerySchema q = Some o →
  ∃ page limit,
    parse_page (q_page q) = Some page ∧ parse_limit (q_limit q) = Some limit
    ∧ opt_page o = Some page ∧ opt_limit o = Some limit.
Proof.
  unfold getTasksQuerySchema. intros H.
  destruct (optional TaskStatus _); [|done].
  destruct (optional TaskPriority _); [|done].
  destruct (parse_page _) as [page|]; [|done].
  destruct (parse_limit _) as [limit|]; [|done].
  destruct (parse_sortBy _); [|done].
  destruct (parse_sortOrder _); [|done].
  destruct (optional parse_search _); [|done].
  injection H as <-. by exists page, limit.
Qed.

(** [- ((- total) / limit)] is the ceiling of [total / limit]. *)
Lemma ceil_div_spec total limit :
  0 < limit →
  ∃ p, ceil_div total limit = Num p ∧ (p - 1) * limit < total ≤ p * limit.
Proof.
  intros Hpos. unfold ceil_div.
  replace (limit =? 0) with false by (symmetry; apply Z.eqb_neq; lia).
  eexists. split; [reflexivity|].
  pose proof (Z.div_mod (- total) limit ltac:(lia)) as Hdm.
  pose proof (Z.mod_pos_bound (- total) limit Hpos) as Hmod.
  nia.
Qed.

Lemma length_page {X} (l : list X) (skip limit : nat) :
  length (take limit (drop skip l)) = (limit `min` (length l - skip))%nat.
Proof. by rewrite length_take, length_drop. Qed.

End ListingFacts.

(** C9 (as amended).  The bound on the limit is the list route's, not the
    list call's.  Every query the list route lets through has a page of
    at least 1 and a limit in [1, 100], and the call made with it returns
    at most that many tasks.  For every call with a page and a limit of
    at least 1 (absent ones count as 1 and 10), whatever the limit, the
    call returns the documents of the caller that match, sorted, without
    the first [(page - 1) * limit] and cut to [limit]: as many as
    [min limit (total - (page - 1) * limit)], none when that is negative;
    and [pagination.pages] is the ceiling of [total / limit], the one [p]
    with [(p - 1) * limit < total <= p * limit]. *)
Theorem C9_list_pages (userId : ObjectId) (s : State) :
  (∀ q o,
     TaskSchema.getTasksQuerySchema q = Some o →
     ∃ page limit r,
       opt_page o = Some page ∧ opt_limit o = Some limit
       ∧ 1 ≤ page ∧ 1 ≤ limit ≤ 100
       ∧ getTasks userId o s = Return r
       ∧ Z.of_nat (length (tasks r)) ≤ limit)
  ∧ (∀ o,
       let page := default 1 (opt_page o) in
       let limit := default 10 (opt_limit o) in
       let skip := (page - 1) * limit in
       let matching :=
         filter (λ kv, Is_true (query userId o (snd kv))) (map_to_list (db s)) in
       let sorted :=
         merge_sort (λ a b, Is_true (sort_leb (default by_createdAt (opt_sortBy o))
                                       (default desc (opt_sortOrder o)) a b))
           matching in
       1 ≤ page → 1 ≤ limit →
       ∃ r,
         getTasks userId o s = Return r
         ∧ total (pagination r) = Z.of_nat (length matching)
         ∧ current (pagination r) = page
         ∧ tasks r = take (Z.to_nat limit) (drop (Z.to_nat skip) sorted)
         ∧ Z.of_nat (length (tasks r))
           = Z.min limit (Z.max 0 (total (pagination r) - skip))
         ∧ ∃ p, pages (pagination r) = Num p
                ∧ (p - 1) * limit < total (pagination r) ≤ p * limit).
Proof.
  assert (∀ o,
       let page := default 1 (opt_page o) in
       let limit := default 10 (opt_limit o) in
       let skip := (page - 1) * limit in
       let matching :=
         filter (λ kv, Is_true (query userId o (snd kv))) (map_to_list (db s)) in
       let sorted :=
         merge_sort (λ a b, Is_true (sort_leb (default by_createdAt (opt_sortBy o))
                                       (default desc (opt_sortOrder o)) a b))
           matching in
       1 ≤ page → 1 ≤ limit →
       ∃ r,
         getTasks userId o s = Return r
         ∧ total (pagination r) = Z.of_nat (length matching)
         ∧ current (pagination r) = page
         ∧ tasks r = take (Z.to_nat limit) (drop (Z.to_nat skip) sorted)
         ∧ Z.of_nat (length (tasks r))
           = Z.min limit (Z.max 0 (total (pagination r) - skip))
         ∧ ∃ p, pages (pagination r) = Num p
                ∧ (p - 1) * limit < total (pagination r) ≤ p * limit) as Hcall;
    [|split; [|exact Hcall]].
  - intros o page limit skip matching sorted Hp Hl.
    unfold getTasks, getTasksByUser.
    fold page limit. fold skip. fold matching. fold sorted.
    unfold skip_limit.
    replace (skip <? 0) with false by (symmetry; apply Z.ltb_ge; unfold skip; nia).
    replace (limit =? 0) with false by (symmetry; apply Z.eqb_neq; lia).
    replace (Z.abs limit) with limit by lia.
    eexists. split; [reflexivity|].
    cbn [pagination tasks total current pages].
    split; [done|]. split; [done|]. split; [done|]. split.
    + rewrite length_page.
      assert (length sorted = length matching) as ->
        by (apply Permutation_length, merge_sort_Permutation).
      assert (0 ≤ skip) by (unfold skip; nia). lia.
    + apply ceil_div_spec. lia.
  - intros q o Hschema.
    destruct (getTasksQuerySchema_page_limit q o Hschema)
      as (page & limit & Hpage & Hlimit & Hop & Hol).
    pose proof (parse_page_bounds _ _ Hpage) as Hp.
    pose proof (parse_limit_bounds _ _ Hlimit) as Hl.
    destruct (Hcall o) as (r & Hr & _ & _ & _ & Hlen & _).
    + rewrite Hop. exact Hp.
    + rewrite Hol. apply Hl.
    + rewrite Hol in Hlen. change (default 10 (Some limit)) with limit in Hlen.
      exists page, limit, r. repeat split; done || lia.
Qed.

(** The claim's example: Alice owns 25 tasks and asks for 10 a page. *)
Lemma C9_list_pages_witness :
  ∃ o1 o2 o3 r1 r2 r3,
    TaskSchema.getTasksQuerySchema (Scenarios.page_of "1" "10") = Some o1
    ∧ TaskSchema.getTasksQuerySchema (Scenarios.page_of "2" "10") = Some o2
    ∧ TaskSchema.getTasksQuerySchema (Scenarios.page_of "3" "10") = Some o3
    ∧ getTasks Scenarios.alice o1 Scenarios.busy = Return r1
    ∧ getTasks Scenarios.alice o2 Scenarios.busy = Return r2
    ∧ getTasks Scenarios.alice o3 Scenarios.busy = Return r3
    ∧ length (tasks r1) = 10%nat ∧ length (tasks r2) = 10%nat
    ∧ length (tasks r3) = 5%nat
    ∧ pages (pagination r3) = Num 3.
Proof.
  pose (o := λ page, mkOptions (Some page) (Some 10) None (Some by_createdAt)
                       (Some desc) None None None).
  assert (∀ page, Z.of_nat (length (filter
            (λ kv : ObjectId * Task, Is_true (query Scenarios.alice (o page) (snd kv)))
            (map_to_list (db Scenarios.busy)))) = 25) as H25
    by (intros page; vm_compute; reflexivity).
  destruct (proj2 (C9_list_pages Scenarios.alice Scenarios.busy) (o 1))
    as (r1 & Hr1 & Ht1 & _ & _ & Hn1 & _); [cbn; lia..|].
  destruct (proj2 (C9_list_pages Scenarios.alice Scenarios.busy) (o 2))
    as (r2 & Hr2 & Ht2 & _ & _ & Hn2 & _); [cbn; lia..|].
  destruct (proj2 (C9_list_pages Scenarios.alice Scenarios.busy) (o 3))
    as (r3 & Hr3 & Ht3 & _ & _ & Hn3 & p & Hpg & Hceil); [cbn; lia..|].
  rewrite H25 in Ht1, Ht2, Ht3.
  rewrite Ht1 in Hn1. rewrite Ht2 in Hn2. rewrite Ht3 in Hn3, Hceil.
  cbn [default from_option id o opt_page opt_limit] in Hn1, Hn2, Hn3, Hceil.
  exists (o 1), (o 2), (o 3), r1, r2, r3.
  do 3 (split; [reflexivity|]).
  split; [exact Hr1|]. split; [exact Hr2|]. split; [exact Hr3|].
  split; [lia|]. split; [lia|]. split; [lia|].
  rewrite Hpg. f_equal. lia.
Defined.

(** C9, as stated, fails: the list call bounds no limit.  The schema of
    the list route refuses a limit of 1000, but the call takes what it is
    given, and the routes [/status/:status] and [/search] hand the query
    on unvalidated: asked for 1000 a page, [getTasks] and
    [getTasksByStatus] return all 150 of Alice's tasks at once. *)
Lemma C9_limit_is_not_bounded_by_the_call :
  TaskSchema.parse_limit (Some "1000") = None
  ∧ (∃ r,
       getTasks Scenarios.alice Scenarios.a_thousand Scenarios.crowded = Return r
       ∧ length (tasks r) = 150%nat
       ∧ TaskModel.limit (pagination r) = 1000)
  ∧ (∃ r,
       getTasksByStatus Scenarios.alice pending Scenarios.a_thousand
         Scenarios.crowded = Return r
       ∧ length (tasks r) = 150%nat
       ∧ TaskModel.limit (pagination r) = 1000
       ∧ pages (pagination r) = Num 1).
Proof.
  split; [reflexivity|]. split.
  - eexists. split; [vm_compute; reflexivity|]. split; reflexivity.
  - eexists. split; [vm_compute; reflexivity|]. repeat split; reflexivity.
Qed.

(** ** Session validity *)

Import UserService.

Section SessionFacts.
Variable hash : string → string.
Variable compare : string → string → bool.

(** A successful [changePassword] stores the hashed password and a
    [passwordChangedAt] one second before the change. *)
Lemma changePassword_backdates userId currentPassword newPassword now users u :
  users !! userId = Some u →
  compare currentPassword (password u) = true →
  compare newPassword (password u) = false →
  newPassword ≠ password u →
  changePassword hash compare userId currentPassword newPassword now users
  = mkRun (Return (Some (now - 1000)))
      (tt, <[userId := set_passwordChangedAt (Some (now - 1000))
                          (set_password (hash newPassword) u)]> users)
      [].
Proof.
  intros Hu Hcur Hnew Hdiff. unfold changePassword, withRetryableTransaction.
  cbn [retry_loop]. unfold withTransaction, on_data, changePassword_operations.
  cbn [fst snd]. rewrite Hu, Hcur, Hnew. cbn [negb].
  unfold user_save, pre_save_hash, pre_save_changedAt, isModified_password, user_isNew.
  cbn [user_loaded user_doc password set_password set_passwordChangedAt user_id].
  rewrite (bool_decide_eq_true_2 _ Hdiff). cbn [negb orb].
  reflexivity.
Qed.

Lemma rejected_iff_at_least_two_seconds_later now T :
  1000 ≤ now →
  (T <? Z.quot (now - 1000) 1000) = true ↔ (T + 2) * 1000 ≤ now.
Proof.
  intros Hnow. rewrite Z.ltb_lt, Z.quot_div_nonneg by lia.
  pose proof (Z.div_mod (now - 1000) 1000 ltac:(lia)) as Hdm.
  pose proof (Z.mod_pos_bound (now - 1000) 1000 ltac:(lia)) as Hmod.
  lia.
Qed.

End SessionFacts.

(** C5 (as amended).  The oracle rejects a token exactly when the user
    has a [passwordChangedAt] and the token's [iat], in seconds, is below
    that time cut to whole seconds.  [authService.changePassword], which
    saves through the schema's hook, stores [passwordChangedAt] as the
    time of the change minus 1000 ms, for a new password that the
    schema's validators pass; after it, a token with [iat = T] is
    rejected exactly when the change was made at second [T + 2] or later:
    [(T + 2) * 1000 <= now]. *)
Theorem C5_rejected_iff_issued_before_backdated_change :
  (∀ user iat,
     passwordChangedAfterJWT user iat = true ↔
     ∃ cca, passwordChangedAt user = Some cca ∧ iat < Z.quot cca 1000)
  ∧ (∀ hash compare userId currentPassword newPassword now users u,
       users !! userId = Some u →
       compare currentPassword (password u) = true →
       compare newPassword (password u) = false →
       newPassword ≠ password u →
       password_passes newPassword = true →
       1000 ≤ now →
       ∃ u',
         outcome (changePassword hash compare userId currentPassword
                    newPassword now users) = Return (Some (now - 1000))
         ∧ snd (world (changePassword hash compare userId currentPassword
                         newPassword now users)) !! userId = Some u'
         ∧ passwordChangedAt u' = Some (now - 1000)
         ∧ ∀ T, passwordChangedAfterJWT u' T = true ↔ (T + 2) * 1000 ≤ now).
Proof.
  split.
  - intros user iat. unfold passwordChangedAfterJWT.
    destruct (passwordChangedAt user) as [cca|].
    + rewrite Z.ltb_lt. split; [by exists cca|]. by intros (? & [= <-] & ?).
    + split; [done|]. by intros (? & ? & ?).
  - intros hash compare userId cur new now users u Hu Hcur Hnew Hdiff _ Hnow.
    rewrite (changePassword_backdates hash compare _ _ _ now _ u Hu Hcur Hnew Hdiff).
    cbn [outcome world snd]. eexists. split; [done|].
    split; [apply lookup_insert_eq|]. split; [done|].
    intros T. unfold passwordChangedAfterJWT.
    cbn [passwordChangedAt set_passwordChangedAt].
    by apply rejected_iff_at_least_two_seconds_later.
Qed.

Lemma C5_rejected_witness :
  ∃ u',
    snd (world (changePassword Scenarios.toy_hash Scenarios.toy_compare
                  Scenarios.alice "Old!Passw0rd" "New!Passw0rd" 1002000
                  Scenarios.registered))
      !! Scenarios.alice = Some u'
    ∧ passwordChangedAt u' = Some 1001000
    ∧ passwordChangedAfterJWT u' 1000 = true
    ∧ passwordChangedAfterJWT u' 1001 = false.
Proof.
  destruct (proj2 C5_rejected_iff_issued_before_backdated_change
              Scenarios.toy_hash Scenarios.toy_compare Scenarios.alice
              "Old!Passw0rd" "New!Passw0rd" 1002000 Scenarios.registered
              Scenarios.alice_account)
    as (u' & _ & Hu' & Hat & Hiff).
  - reflexivity.
  - reflexivity.
  - reflexivity.
  - vm_compute. discriminate.
  - reflexivity.
  - lia.
  - exists u'. split; [exact Hu'|]. split; [exact Hat|]. split.
    + apply Hiff. lia.
    + destruct (passwordChangedAfterJWT u' 1001) eqn:H; [|reflexivity].
      apply Hiff in H. lia.
Defined.

(** C5, as stated, fails, twice over.  Alice's password, one the schemas
    admit, is changed to another such at 1000.5 s, which is after
    [T - 1 s] and indeed after [T] for a token issued at [T = 1000 s]; the
    change goes through, and that older token is still accepted.  And
    [userService.updatePassword], the other path that changes the
    credentials, stores the time of the change itself, not one second
    before it. *)
Lemma C5_older_token_survives_change :
  UserService.password_passes "New!Passw0rd" = true
  ∧ (∃ u',
       outcome (changePassword Scenarios.toy_hash Scenarios.toy_compare
                  Scenarios.alice "Old!Passw0rd" "New!Passw0rd" 1000500
                  Scenarios.registered) = Return (Some 999500)
       ∧ snd (world (changePassword Scenarios.toy_hash Scenarios.toy_compare
                       Scenarios.alice "Old!Passw0rd" "New!Passw0rd" 1000500
                       Scenarios.registered))
           !! Scenarios.alice = Some u'
       ∧ (1000 - 1) * 1000 < 1000500
       ∧ iat_of 1000000 = 1000
       ∧ passwordChangedAfterJWT u' 1000 = false)
  ∧ (∃ u',
       fst (updatePassword Scenarios.toy_hash Scenarios.alice "New!Passw0rd"
              1000500 Scenarios.registered) = Some u'
       ∧ passwordChangedAt u' = Some 1000500).
Proof.
  split; [reflexivity|]. split.
  - eexists. split; [vm_compute; reflexivity|].
    split; [vm_compute; reflexivity|].
    split; [lia|]. split; reflexivity.
  - eexists. split; [vm_compute; reflexivity|]. reflexivity.
Qed.


(** * Further properties *)

(** ** The retry executor, in general *)

Section ExecutorShape.
Context {E D A : Type}.
Implicit Types (txn operations : Operations E D A) (w : E * D).

(** The loop ends with the call it stops at: after retryable failures
    only, it hands on what that call gave. *)
Lemma retry_loop_shape txn N : ∀ remaining attempt last w waited,
  (attempt + remaining = N)%nat →
  ∃ k, (k ≤ remaining)%nat
    ∧ (∀ i, (i < k)%nat →
         ∃ e, fst (nth_call txn w i) = inr e ∧ isRetryableError e = true)
    ∧ (∀ e, fst (nth_call txn w k) = inr e →
         isRetryableError e = false ∨ k = remaining)
    ∧ retry_loop txn N (S remaining) attempt last w waited
      = mkRun (settle (fst (nth_call txn w k))) (snd (nth_call txn w k))
          (waited ++ backoff attempt k).
Proof.
  induction remaining as [|r IH]; intros attempt last w waited Hatt.
  - exists 0%nat. split; [lia|]. split; [intros i Hi; lia|].
    split; [by right|]. cbn [retry_loop nth_call].
    destruct (txn w) as [[v|e] w'] eqn:Htxn; cbn [fst snd settle].
    + unfold backoff. cbn [seq map]. by rewrite app_nil_r.
    + replace (attempt <? N)%nat with false
        by (symmetry; apply Nat.ltb_ge; lia).
      rewrite andb_false_r. unfold backoff. cbn [seq map]. by rewrite app_nil_r.
  - destruct (txn w) as [[v|e] w'] eqn:Htxn.
    + exists 0%nat. split; [lia|]. split; [intros i Hi; lia|].
      cbn [nth_call]. rewrite Htxn. cbn [fst snd settle]. split; [done|].
      cbn [retry_loop]. rewrite Htxn. unfold backoff. cbn [seq map].
      by rewrite app_nil_r.
    + destruct (isRetryableError e) eqn:Hretry.
      * destruct (IH (S attempt) (Some e) w' (waited ++ [2 ^ Z.of_nat attempt * 100]))
          as (k & Hk & Hbefore & Hlast & Hrun); [lia|].
        exists (S k). split; [lia|]. split; [|split].
        -- intros [|i] Hi; cbn [nth_call]; rewrite Htxn; cbn [fst snd].
           ++ eauto.
           ++ apply Hbefore. lia.
        -- cbn [nth_call]. rewrite Htxn. cbn [snd]. intros e' He'.
           destruct (Hlast e' He') as [?| ->]; [by left | by right].
        -- cbn [nth_call]. rewrite Htxn. cbn [snd].
           change (retry_loop txn N (S (S r)) attempt last w waited)
             with (match txn w with
                   | (inl result, w') => mkRun (Return result) w' waited
                   | (inr error, w') =>
                       if isRetryableError error && (attempt <? N)%nat
                       then retry_loop txn N (S r) (S attempt) (Some error) w'
                              (waited ++ [2 ^ Z.of_nat attempt * 100])
                       else mkRun (Throw (Some error)) w' waited
                   end).
           rewrite Htxn, Hretry. cbn [andb].
           replace (attempt <? N)%nat with true
             by (symmetry; apply Nat.ltb_lt; lia).
           rewrite Hrun, backoff_S, <- app_assoc. reflexivity.
      * exists 0%nat. split; [lia|]. split; [intros i Hi; lia|].
        cbn [nth_call]. rewrite Htxn. cbn [fst snd settle].
        split; [intros e' [= <-]; by left|].
        cbn [retry_loop]. rewrite Htxn, Hretry. cbn [andb].
        unfold backoff. cbn [seq map]. by rewrite app_nil_r.
Qed.

(** The loop writes nothing of its own: when every failing call of the
    transaction function hands the data back as it got them, so does a
    failed run, from wherever in the loop it starts. *)
Lemma failed_loop_keeps_data txn N (e : option JsError) :
  (∀ w0 e0 w1, txn w0 = (inr e0, w1) → snd w1 = snd w0) →
  ∀ remaining attempt last w waited,
    outcome (retry_loop txn N remaining attempt last w waited) = Throw e →
    snd (world (retry_loop txn N remaining attempt last w waited)) = snd w.
Proof.
  intros Hundo. induction remaining as [|r IH]; intros attempt last w waited;
    cbn [retry_loop]; [done|].
  destruct (txn w) as [[v|e0] w1] eqn:Htxn; [done|].
  pose proof (Hundo _ _ _ Htxn) as Hw1.
  destruct (isRetryableError e0 && (attempt <? N)%nat).
  - intros Hthrow. by rewrite (IH _ _ _ _ Hthrow).
  - done.
Qed.

Lemma total_delay_backoff first k :
  total_delay (backoff first k)
  = 100 * (2 ^ Z.of_nat (first + k) - 2 ^ Z.of_nat first).
Proof.
  revert first. induction k as [|k IH]; intros first.
  - unfold backoff, total_delay. cbn. rewrite Nat.add_0_r. lia.
  - rewrite backoff_S. cbn [total_delay fold_right].
    change (fold_right Z.add 0 (backoff (S first) k))
      with (total_delay (backoff (S first) k)).
    rewrite IH. replace (first + S k)%nat with (S first + k)%nat by lia.
    rewrite (Nat2Z.inj_succ first), Z.pow_succ_r by lia. lia.
Qed.

Lemma length_backoff first k : length (backoff first k) = k.
Proof. unfold backoff. by rewrite length_map, length_seq. Qed.

End ExecutorShape.

(** The run of the executor, read off the loop. *)
Lemma run_shape {E D A} (operations : Operations E D A) (N : nat) (w : E * D) :
  (1 ≤ N)%nat →
  ∃ k, (k < N)%nat
    ∧ (∀ i, (i < k)%nat →
         ∃ e, fst (nth_call (withTransaction operations) w i) = inr e
              ∧ isRetryableError e = true)
    ∧ (∀ e, fst (nth_call (withTransaction operations) w k) = inr e →
         isRetryableError e = false ∨ S k = N)
    ∧ withRetryableTransaction operations N w
      = mkRun (settle (fst (nth_call (withTransaction operations) w k)))
          (snd (nth_call (withTransaction operations) w k)) (backoff 1 k).
Proof.
  intros HN. unfold withRetryableTransaction.
  destruct N as [|N]; [lia|].
  destruct (retry_loop_shape (withTransaction operations) (S N) N 1 None w [])
    as (k & Hk & Hbefore & Hlast & Hrun); [lia|].
  exists k. split; [lia|]. split; [done|]. split; [|done].
  intros e He. destruct (Hlast e He) as [?| ->]; [by left | by right].
Qed.

(** X1.  With a budget of [N >= 1] attempts the executor makes
    [k + 1 <= N] calls of the transaction: the first [k] fail retryably,
    each followed by a delay of [100 ms * 2^attempt], and the run ends
    with what call [k + 1] gives, its value or its error, and the world
    that call leaves.  A failure ends the run only when it is not
    retryable or the budget is used up. *)
Theorem executor_run_shape (E D A : Type) (operations : Operations E D A)
    (N : nat) (w : E * D) :
  (1 ≤ N)%nat →
  let txn := withTransaction operations in
  ∃ k, (k < N)%nat
    ∧ (∀ i, (i < k)%nat →
         ∃ e, fst (nth_call txn w i) = inr e ∧ isRetryableError e = true)
    ∧ (∀ e, fst (nth_call txn w k) = inr e →
         isRetryableError e = false ∨ S k = N)
    ∧ withRetryableTransaction operations N w
      = mkRun (settle (fst (nth_call txn w k))) (snd (nth_call txn w k))
          (backoff 1 k).
Proof. intros HN txn. subst txn. by apply run_shape. Qed.

Lemma executor_run_shape_witness :
  ∃ k, (k < 3)%nat
    ∧ withRetryableTransaction (Scenarios.flaky 1 DuplicateKey) 3 (0%nat, tt)
      = mkRun (settle (fst (nth_call (withTransaction (Scenarios.flaky 1 DuplicateKey))
                              (0%nat, tt) k)))
          (snd (nth_call (withTransaction (Scenarios.flaky 1 DuplicateKey))
                  (0%nat, tt) k))
          (backoff 1 k).
Proof.
  destruct (executor_run_shape nat unit string (Scenarios.flaky 1 DuplicateKey)
              3 (0%nat, tt)) as (k & Hk & _ & _ & Hrun).
  - lia.
  - exists k. split; [exact Hk | exact Hrun].
Defined.

(** X2.  The retry loop adds no write of its own and keeps none of a
    failed attempt.  Whatever function stands for one transaction, if
    each call of it that fails hands the data back as it got them (what
    the driver promises of an aborted transaction; assumed here, not
    derived), then a run of the loop that ends in a failure leaves the
    data as it found them, however many attempts it made and whatever
    happened around the data meanwhile. *)
Theorem executor_failure_leaves_data (E D A : Type) (txn : Operations E D A)
    (N : nat) (w : E * D) (e : option JsError) :
  (∀ w0 e0 w1, txn w0 = (inr e0, w1) → snd w1 = snd w0) →
  outcome (retry_loop txn N N 1 None w []) = Throw e →
  snd (world (retry_loop txn N N 1 None w [])) = snd w.
Proof.
  intros Hundo Hthrow.
  by apply (failed_loop_keeps_data txn N e Hundo N 1%nat None w []).
Qed.

Lemma executor_failure_leaves_data_witness :
  outcome (retry_loop (Scenarios.aborting Scenarios.NoSuchTransaction) 3 3 1 None
             (0%nat, [7%nat]) [])
  = Throw (Some Scenarios.NoSuchTransaction)
  ∧ fst (world (retry_loop (Scenarios.aborting Scenarios.NoSuchTransaction) 3 3 1
                  None (0%nat, [7%nat]) [])) = 3%nat
  ∧ snd (world (retry_loop (Scenarios.aborting Scenarios.NoSuchTransaction) 3 3 1
                  None (0%nat, [7%nat]) [])) = [7%nat].
Proof.
  split; [reflexivity|]. split; [reflexivity|].
  apply (executor_failure_leaves_data nat (list nat) unit
           (Scenarios.aborting Scenarios.NoSuchTransaction) 3 (0%nat, [7%nat])
           (Some Scenarios.NoSuchTransaction)).
  - intros [n l] e0 w1. unfold Scenarios.aborting. intros [= _ <-]. reflexivity.
  - reflexivity.
Defined.

(** X3.  With a budget of [N >= 1] attempts the executor waits at
    most [N - 1] times and at most [100 ms * (2^N - 2)] in all: 600 ms
    for the 3 attempts every caller in this code asks for. *)
Theorem executor_waits_at_most (E D A : Type) (operations : Operations E D A)
    (N : nat) (w : E * D) :
  (1 ≤ N)%nat →
  (length (delays (withRetryableTransaction operations N w)) ≤ N - 1)%nat
  ∧ total_delay (delays (withRetryableTransaction operations N w))
    ≤ 100 * (2 ^ Z.of_nat N - 2).
Proof.
  intros HN. destruct (run_shape operations N w HN) as (k & Hk & _ & _ & ->).
  cbn [delays]. rewrite length_backoff, total_delay_backoff. split; [lia|].
  replace (1 + k)%nat with (S k) by lia.
  assert (2 ^ Z.of_nat (S k) ≤ 2 ^ Z.of_nat N) by (apply Z.pow_le_mono_r; lia).
  change (2 ^ Z.of_nat 1) with 2. lia.
Qed.

Lemma executor_waits_at_most_witness :
  total_delay (delays (withRetryableTransaction
                         (Scenarios.flaky 9 Scenarios.NoSuchTransaction) 3
                         (0%nat, tt))) ≤ 600.
Proof.
  apply (executor_waits_at_most nat unit string
           (Scenarios.flaky 9 Scenarios.NoSuchTransaction) 3 (0%nat, tt)).
  lia.
Defined.

(** ** Single-task operations, in full *)

Section SingleTaskFacts.
Implicit Types (t : Task) (d : Document) (s : State) (c : Collection).

(** The hook writes [completedAt] and nothing else. *)
Lemma pre_save_fields now d :
  title (doc (pre_save now d)) = title (doc d)
  ∧ description (doc (pre_save now d)) = description (doc d)
  ∧ status (doc (pre_save now d)) = status (doc d)
  ∧ user (doc (pre_save now d)) = user (doc d)
  ∧ priority (doc (pre_save now d)) = priority (doc d)
  ∧ dueDate (doc (pre_save now d)) = dueDate (doc d)
  ∧ tags (doc (pre_save now d)) = tags (doc d)
  ∧ createdAt (doc (pre_save now d)) = createdAt (doc d)
  ∧ updatedAt (doc (pre_save now d)) = updatedAt (doc d).
Proof. unfold pre_save. repeat case_match; repeat split; reflexivity. Qed.

(** On a loaded document, the timestamps hook writes [updatedAt] when
    something was modified, and nothing else. *)
Lemma timestamps_loaded now d t0 :
  loaded d = Some t0 →
  timestamps now d
  = if bool_decide (doc d ≠ t0)
    then mkDocument (_id d) (loaded d) (set_updatedAt now (doc d))
    else d.
Proof. intros Hl. unfold timestamps, isNew, isModified. by rewrite Hl. Qed.

(** Saving a loaded document stores it under its id and cannot fail. *)
Lemma save_loaded now d c t0 :
  loaded d = Some t0 →
  save now d c
  = (inl (mkDocument (_id d) (Some (doc (pre_save now (timestamps now d))))
            (doc (pre_save now (timestamps now d)))),
     <[_id d := doc (pre_save now (timestamps now d))]> c).
Proof.
  intros Hl. unfold save, isNew. rewrite Hl. cbn [andb].
  destruct (timestamps_keeps now d) as (_ & _ & _ & Hi).
  by rewrite pre_save_id, Hi.
Qed.

Lemma assign_fields u t :
  title (assign u t) = default (title t) (u_title u)
  ∧ description (assign u t) = default (description t) (u_description u)
  ∧ status (assign u t) = default (status t) (u_status u)
  ∧ priority (assign u t) = default (priority t) (u_priority u)
  ∧ dueDate (assign u t) = default (dueDate t) (u_dueDate u)
  ∧ tags (assign u t) = default (tags t) (u_tags u)
  ∧ createdAt (assign u t) = createdAt t
  ∧ updatedAt (assign u t) = updatedAt t.
Proof.
  unfold assign, set_if.
  destruct u as [[?|] [?|] [?|] [?|] [?|] [?|]]; repeat split; reflexivity.
Qed.

(** The task [createTask] builds. *)
Lemma createTask_fresh taskData userId now newId s :
  db s !! newId = None →
  ∃ t,
    t = mkTask (td_title taskData) (td_description taskData)
          (default pending (td_status taskData)) userId
          (default medium (td_priority taskData)) (td_dueDate taskData)
          (if bool_decide (default pending (td_status taskData) = completed)
           then Some now else None)
          (default [] (td_tags taskData)) now now
    ∧ createTask taskData userId now newId s
      = (Return (mkDocument newId (Some t) t),
         mkState (<[newId := t]> (db s))
           (emit_to userId "task_created" (task_data newId t) (io s))).
Proof.
  intros Hfresh. eexists. split; [reflexivity|].
  unfold createTask, save. cbn [isNew loaded _id andb].
  rewrite bool_decide_eq_false_2 by (rewrite Hfresh; by intros [? ?]).
  unfold timestamps, pre_save, isModified_status. cbn [isNew loaded doc _id].
  cbn [set_createdAt set_updatedAt status completedAt title description user
       priority dueDate tags createdAt updatedAt].
  rewrite (bool_decide_eq_true_2 (None = None)) by done.
  rewrite (bool_decide_eq_false_2 (None ≠ None)) by (intros H; by apply H).
  rewrite andb_true_r, andb_false_r.
  destruct (bool_decide (default pending (td_status taskData) = completed));
    reflexivity.
Qed.

End SingleTaskFacts.

(** X4.  For task data that the schema's validators accept and its
    setters leave as they are (ASCII text; title and description trimmed,
    not empty, of at most 100 and 500 characters; each tag trimmed, of at
    most 20 characters), [createTask] under a fresh id stores exactly one
    new task: owned by the caller, with status [pending] and priority
    [medium] unless given, no tags unless given, [createdAt] and
    [updatedAt] the time of the call, and [completedAt] that time when
    the task is created completed and null otherwise; every other task
    stays as it is, and the caller's room gets one [task_created] event
    carrying the task.  Under an id already in use it stores nothing,
    sends nothing and fails with the duplicate-key error.  (Other data
    fail validation in [save]; that failure is not described here.) *)
Theorem createTask_stores_new_task (taskData : TaskData) (userId : ObjectId)
    (now : Date) (newId : ObjectId) (s : State) :
  let status := default pending (td_status taskData) in
  let t :=
    mkTask (td_title taskData) (td_description taskData) status userId
      (default medium (td_priority taskData)) (td_dueDate taskData)
      (if bool_decide (status = completed) then Some now else None)
      (default [] (td_tags taskData)) now now in
  TaskValidators.accepts t = true →
  (db s !! newId = None →
     createTask taskData userId now newId s
     = (Return (mkDocument newId (Some t) t),
        mkState (<[newId := t]> (db s))
          (emit_to userId "task_created" (task_data newId t) (io s))))
  ∧ (is_Some (db s !! newId) →
     createTask taskData userId now newId s = (Throw (Some DuplicateKey), s)).
Proof.
  intros status t _. split.
  - intros Hfresh.
    destruct (createTask_fresh taskData userId now newId s Hfresh) as (t' & -> & ->).
    reflexivity.
  - intros Htaken. unfold createTask, save. cbn [isNew loaded _id andb].
    by rewrite bool_decide_eq_true_2.
Qed.

Lemma createTask_stores_new_task_witness :
  ∃ d s1,
    createTask (mkTaskData "Buy milk" "two litres" None None None None)
      Scenarios.alice 5000 10%N Scenarios.home = (Return d, s1)
    ∧ status (doc d) = pending ∧ priority (doc d) = medium
    ∧ completedAt (doc d) = None
    ∧ createTask (mkTaskData "Buy milk" "two litres" None None None None)
        Scenarios.alice 5000 1%N Scenarios.home
      = (Throw (Some DuplicateKey), Scenarios.home).
Proof.
  destruct (createTask_stores_new_task
              (mkTaskData "Buy milk" "two litres" None None None None)
              Scenarios.alice 5000 10%N Scenarios.home) as [Hnew _];
    [reflexivity|].
  destruct (createTask_stores_new_task
              (mkTaskData "Buy milk" "two litres" None None None None)
              Scenarios.alice 5000 1%N Scenarios.home) as [_ Htaken];
    [reflexivity|].
  eexists _, _. split; [apply Hnew; reflexivity|].
  do 3 (split; [reflexivity|]).
  apply Htaken. by eexists.
Defined.

(** X5.  A task just created, from data that the schema's validators
    accept and its setters leave as they are, is there for its owner and
    closed to everyone else: [getTaskById] under the new id returns the
    very document [createTask] returned, while any other user gets
    "Access denied". *)
Theorem create_then_get (taskData : TaskData) (userId : ObjectId) (now : Date)
    (newId : ObjectId) (s : State) :
  TaskValidators.accepts_fields (td_title taskData) (td_description taskData)
    (default [] (td_tags taskData)) = true →
  db s !! newId = None →
  ∃ d s1,
    createTask taskData userId now newId s = (Return d, s1)
    ∧ getTaskById newId userId s1 = (Return d, s1)
    ∧ ∀ X, X ≠ userId →
        getTaskById newId X s1 = (Throw (Some (AccessDenied "access")), s1).
Proof.
  intros _ Hfresh.
  destruct (createTask_fresh taskData userId now newId s Hfresh) as (t & Ht & ->).
  assert (user t = userId) as Hu by (by rewrite Ht).
  eexists _, _. split; [reflexivity|].
  unfold getTaskById, findById, isOwnedBy. cbn [db].
  rewrite lookup_insert_eq. cbn [doc]. split.
  - by rewrite bool_decide_eq_true_2.
  - intros X HX. by rewrite bool_decide_eq_false_2 by congruence.
Qed.

Lemma create_then_get_witness :
  ∃ d s1,
    createTask (mkTaskData "Buy milk" "two litres" None None None None)
      Scenarios.alice 5000 10%N Scenarios.home = (Return d, s1)
    ∧ getTaskById 10%N Scenarios.alice s1 = (Return d, s1)
    ∧ getTaskById 10%N Scenarios.bob s1
      = (Throw (Some (AccessDenied "access")), s1).
Proof.
  destruct (create_then_get (mkTaskData "Buy milk" "two litres" None None None None)
              Scenarios.alice 5000 10%N Scenarios.home)
    as (d & s1 & Hcreate & Hget & Hother).
  - reflexivity.
  - reflexivity.
  - exists d, s1. split; [exact Hcreate|]. split; [exact Hget|].
    apply Hother. vm_compute. discriminate.
Defined.

(** X6.  Creating a task under a fresh id, from data that the schema's
    validators accept and its setters leave as they are, and deleting it
    again gives back the collection one started from; the caller's room
    has received the two events, [task_created] then [task_deleted]. *)
Theorem create_then_delete_restores (taskData : TaskData) (userId : ObjectId)
    (now : Date) (newId : ObjectId) (s : State) :
  TaskValidators.accepts_fields (td_title taskData) (td_description taskData)
    (default [] (td_tags taskData)) = true →
  db s !! newId = None →
  ∃ d s1 s2,
    createTask taskData userId now newId s = (Return d, s1)
    ∧ deleteTask newId userId s1 = (Return "Task deleted successfully", s2)
    ∧ db s2 = db s
    ∧ io s2 = emit_to userId "task_deleted" (id_data newId)
                (emit_to userId "task_created" (task_data newId (doc d)) (io s)).
Proof.
  intros _ Hfresh.
  destruct (createTask_fresh taskData userId now newId s Hfresh) as (t & Ht & ->).
  assert (user t = userId) as Hu by (by rewrite Ht).
  eexists _, _, _. split; [reflexivity|].
  unfold deleteTask, findById, isOwnedBy, findByIdAndDelete. cbn [db io].
  rewrite lookup_insert_eq. cbn [doc]. rewrite (bool_decide_eq_true_2 _ Hu).
  cbn [negb]. split; [reflexivity|]. cbn [db io doc].
  split; [|reflexivity].
  rewrite delete_insert_eq. by apply delete_id.
Qed.

Lemma create_then_delete_restores_witness :
  ∃ d s1 s2,
    createTask (mkTaskData "Buy milk" "two litres" None None None None)
      Scenarios.alice 5000 10%N Scenarios.home = (Return d, s1)
    ∧ deleteTask 10%N Scenarios.alice s1 = (Return "Task deleted successfully", s2)
    ∧ db s2 = db Scenarios.home.
Proof.
  destruct (create_then_delete_restores
              (mkTaskData "Buy milk" "two litres" None None None None)
              Scenarios.alice 5000 10%N Scenarios.home)
    as (d & s1 & s2 & Hcreate & Hdelete & Hdb & _).
  - reflexivity.
  - reflexivity.
  - exists d, s1, s2. split; [exact Hcreate|]. split; [exact Hdelete | exact Hdb].
Defined.

Section UpdateFacts.
Implicit Types (t : Task) (d : Document) (s : State).

(** What [updateTask] does for the owner. *)
Lemma updateTask_owned taskId updateData userId now s t :
  db s !! taskId = Some t →
  user t = userId →
  let d1 := mkDocument taskId (Some t) (assign updateData t) in
  let t' := doc (pre_save now (timestamps now d1)) in
  updateTask taskId updateData userId now s
  = (Return (mkDocument taskId (Some t') t'),
     mkState (<[taskId := t']> (db s))
       (emit_to userId "task_updated" (task_data taskId t') (io s))).
Proof.
  intros Ht Hu d1 t'. unfold updateTask, findById, isOwnedBy. rewrite Ht.
  cbn [doc _id loaded]. rewrite (bool_decide_eq_true_2 _ Hu). cbn [negb].
  fold d1. by rewrite (save_loaded now d1 (db s) t).
Qed.

(** The hook, on a document loaded in a consistent state whose
    [completedAt] nobody assigned. *)
Lemma pre_save_completedAt now d t0 :
  loaded d = Some t0 →
  completion_consistent t0 →
  completedAt (doc d) = completedAt t0 →
  (status (doc (pre_save now d)) = completed → status t0 ≠ completed →
     completedAt (doc (pre_save now d)) = Some now)
  ∧ (status (doc (pre_save now d)) = completed → status t0 = completed →
     completedAt (doc (pre_save now d)) = completedAt t0)
  ∧ (status (doc (pre_save now d)) ≠ completed →
     completedAt (doc (pre_save now d)) = None).
Proof.
  destruct d as [i l [ti de st us pr du ca ta cr up]].
  cbn [loaded doc completedAt]. intros -> [Hto Hfrom] ->.
  unfold pre_save, isModified_status. cbn [loaded doc status completedAt].
  destruct (completedAt t0) as [c0|] eqn:Hc0.
  - assert (status t0 = completed) as Hst0 by (apply Hfrom; congruence).
    rewrite Hst0.
    destruct st; repeat (case_bool_decide; cbn [andb doc status completedAt
                                                  set_completedAt]);
      repeat split; intros; congruence.
  - assert (status t0 ≠ completed) as Hst0 by (intros H; by apply Hto in H).
    destruct st; repeat (case_bool_decide; cbn [andb doc status completedAt
                                                  set_completedAt]);
      repeat split; intros; congruence.
Qed.

End UpdateFacts.

(** X7.  When the task as updated is one the schema's validators accept
    and its setters leave as it is (ASCII text; title and description
    trimmed, not empty, of at most 100 and 500 characters; each tag
    trimmed, of at most 20 characters), [updateTask] by the owner goes
    through, and writes what it was given and no more: each of title,
    description, status, priority, due date and tags takes the value in
    the update, or keeps its own when the update has none; the owner and
    [createdAt] never change; [updatedAt] becomes the time of the call
    exactly when some field changed; no other task is touched; and the
    owner's room gets one [task_updated] event carrying the stored task.
    (Other updates fail validation in [save]; that failure is not
    described here.) *)
Theorem updateTask_writes_given_fields_only (taskId : ObjectId)
    (updateData : UpdateData) (userId : ObjectId) (now : Date) (s : State)
    (t : Task) :
  db s !! taskId = Some t →
  user t = userId →
  TaskValidators.accepts (assign updateData t) = true →
  ∃ t',
    updateTask taskId updateData userId now s
    = (Return (mkDocument taskId (Some t') t'),
       mkState (<[taskId := t']> (db s))
         (emit_to userId "task_updated" (task_data taskId t') (io s)))
    ∧ user t' = userId
    ∧ createdAt t' = createdAt t
    ∧ title t' = default (title t) (u_title updateData)
    ∧ description t' = default (description t) (u_description updateData)
    ∧ status t' = default (status t) (u_status updateData)
    ∧ priority t' = default (priority t) (u_priority updateData)
    ∧ dueDate t' = default (dueDate t) (u_dueDate updateData)
    ∧ tags t' = default (tags t) (u_tags updateData)
    ∧ updatedAt t' = (if bool_decide (assign updateData t = t)
                      then updatedAt t else now).
Proof.
  intros Ht Hu _. eexists. split; [by apply updateTask_owned|].
  set (d1 := mkDocument taskId (Some t) (assign updateData t)).
  destruct (pre_save_fields now (timestamps now d1))
    as (Hti & Hde & Hst & Hus & Hpr & Hdu & Hta & Hcr & Hup).
  rewrite Hti, Hde, Hst, Hus, Hpr, Hdu, Hta, Hcr, Hup.
  rewrite (timestamps_loaded now d1 t eq_refl). cbn [doc d1].
  destruct (assign_fields updateData t)
    as (Ati & Ade & Ast & Apr & Adu & Ata & Acr & Aup).
  case_bool_decide as Hch.
  - cbn [doc]. rewrite bool_decide_eq_false_2 by done.
    rewrite <- Ati, <- Ade, <- Ast, <- Apr, <- Adu, <- Ata, <- Acr.
    rewrite <- Hu at 1. rewrite <- (assign_keeps_user updateData t).
    by destruct (assign updateData t).
  - cbn [doc d1]. rewrite bool_decide_eq_true_2 by done.
    rewrite <- Ati, <- Ade, <- Ast, <- Apr, <- Adu, <- Ata, <- Acr.
    rewrite Hch. done.
Qed.

Lemma updateTask_writes_given_fields_only_witness :
  ∃ t',
    updateTask 1%N Scenarios.complete_it Scenarios.alice 5000 Scenarios.home
    = (Return (mkDocument 1%N (Some t') t'),
       mkState (<[1%N := t']> (db Scenarios.home))
         (emit_to Scenarios.alice "task_updated" (task_data 1%N t')
            (io Scenarios.home)))
    ∧ title t' = "A" ∧ status t' = completed ∧ updatedAt t' = 5000.
Proof.
  destruct (updateTask_writes_given_fields_only 1%N Scenarios.complete_it
              Scenarios.alice 5000 Scenarios.home
              (Scenarios.a_task Scenarios.alice "A"))
    as (t' & Hrun & _ & _ & Hti & _ & Hst & _ & _ & _ & Hup).
  - reflexivity.
  - reflexivity.
  - reflexivity.
  - exists t'. split; [exact Hrun|]. split; [exact Hti|].
    split; [exact Hst | exact Hup].
Defined.

(** X8.  [updateTask] re-derives [completedAt] from the status it
    stores.  On a task that satisfies the completion invariant: completing
    it sets [completedAt] to the time of the call; a task that was
    already completed keeps its completion time, whatever else the update
    changes; and a task that ends up not completed has no completion
    time. *)
Theorem updateTask_rederives_completedAt (taskId : ObjectId)
    (updateData : UpdateData) (userId : ObjectId) (now : Date) (s s' : State)
    (t : Task) (d : Document) :
  db s !! taskId = Some t →
  user t = userId →
  completion_consistent t →
  updateTask taskId updateData userId now s = (Return d, s') →
  (status (doc d) = completed → status t ≠ completed →
     completedAt (doc d) = Some now)
  ∧ (status (doc d) = completed → status t = completed →
     completedAt (doc d) = completedAt t)
  ∧ (status (doc d) ≠ completed → completedAt (doc d) = None).
Proof.
  intros Ht Hu Hcons Hrun.
  rewrite (updateTask_owned _ updateData _ now _ _ Ht Hu) in Hrun.
  injection Hrun as <- _. cbn [doc].
  set (d1 := mkDocument taskId (Some t) (assign updateData t)).
  destruct (timestamps_keeps now d1) as (Hs & Hc & Hl & Hi).
  apply pre_save_completedAt; [by rewrite Hl | done |].
  rewrite Hc. apply assign_keeps_completedAt.
Qed.

Lemma updateTask_rederives_completedAt_witness :
  ∃ d s',
    updateTask 1%N Scenarios.complete_it Scenarios.alice 5000 Scenarios.home
    = (Return d, s')
    ∧ completedAt (doc d) = Some 5000.
Proof.
  eexists _, _. split; [vm_compute; reflexivity|].
  refine (proj1 (updateTask_rederives_completedAt 1%N Scenarios.complete_it
                   Scenarios.alice 5000 Scenarios.home _
                   (Scenarios.a_task Scenarios.alice "A") _ _ _ _ _) _ _).
  - reflexivity.
  - reflexivity.
  - split; cbn; congruence.
  - vm_compute. reflexivity.
  - reflexivity.
  - vm_compute. discriminate.
Defined.



(** X10.  [deleteTask] by the owner removes that task and no other,
    and sends one [task_deleted] event with the task's id to the owner's
    room; from then on the id is unknown to everyone: [getTaskById],
    [updateTask], [markTaskAsCompleted] and a second [deleteTask] all
    fail with "Task not found". *)
Theorem deleteTask_then_not_found (taskId userId : ObjectId) (s : State)
    (t : Task) :
  db s !! taskId = Some t →
  user t = userId →
  let s' := mkState (delete taskId (db s))
              (emit_to userId "task_deleted" (id_data taskId) (io s)) in
  deleteTask taskId userId s = (Return "Task deleted successfully", s')
  ∧ (∀ other, other ≠ taskId → db s' !! other = db s !! other)
  ∧ ∀ X updateData now,
      getTaskById taskId X s' = (Throw (Some TaskNotFound), s')
      ∧ updateTask taskId updateData X now s' = (Throw (Some TaskNotFound), s')
      ∧ markTaskAsCompleted taskId X now s' = (Throw (Some TaskNotFound), s')
      ∧ deleteTask taskId X s' = (Throw (Some TaskNotFound), s').
Proof.
  intros Ht Hu s'. split; [|split].
  - unfold deleteTask, findById, isOwnedBy, findByIdAndDelete. rewrite Ht.
    cbn [doc]. by rewrite (bool_decide_eq_true_2 _ Hu).
  - intros other Hother. cbn [db s']. by rewrite lookup_delete_ne.
  - intros X updateData now.
    unfold getTaskById, updateTask, markTaskAsCompleted, deleteTask, findById.
    cbn [db s']. by rewrite lookup_delete_eq.
Qed.

Lemma deleteTask_then_not_found_witness :
  ∃ s',
    deleteTask 1%N Scenarios.alice Scenarios.home
    = (Return "Task deleted successfully", s')
    ∧ db s' !! 2%N = db Scenarios.home !! 2%N
    ∧ getTaskById 1%N Scenarios.alice s' = (Throw (Some TaskNotFound), s').
Proof.
  destruct (deleteTask_then_not_found 1%N Scenarios.alice Scenarios.home
              (Scenarios.a_task Scenarios.alice "A"))
    as (Hdel & Hothers & Hgone).
  - reflexivity.
  - reflexivity.
  - eexists. split; [exact Hdel|]. split.
    + apply Hothers. discriminate.
    + exact (proj1 (Hgone Scenarios.alice Scenarios.complete_it 0)).
Defined.

(** ** Bulk operations, in full *)

Section BulkSuccess.
Implicit Types (taskIds : list ObjectId) (userId id : ObjectId)
  (c : Collection) (s : State).

Lemma elem_of_map {X Y} (f : X → Y) (l : list X) (y : Y) :
  y ∈ map f l ↔ ∃ x, y = f x ∧ x ∈ l.
Proof.
  rewrite list_elem_of_In, in_map_iff. split.
  - intros (x & <- & Hx). exists x. by rewrite list_elem_of_In.
  - intros (x & -> & Hx). exists x. by rewrite <- list_elem_of_In.
Qed.

(** A unit of work that succeeds is run once. *)
Lemma first_attempt_succeeds {E D A} (operations : Operations E D A)
    (N : nat) (w w' : E * D) (v : A) :
  (1 ≤ N)%nat →
  operations w = (inl v, w') →
  withRetryableTransaction operations N w = mkRun (Return v) w' [].
Proof.
  intros HN Hop. unfold withRetryableTransaction.
  destruct N as [|N]; [lia|]. cbn [retry_loop]. unfold withTransaction.
  by rewrite Hop.
Qed.

(** The pre-check passes exactly on the lists it can count: distinct ids,
    all of them the caller's. *)
Lemma pre_check_passes taskIds userId c :
  NoDup taskIds →
  (∀ id, id ∈ taskIds → ∃ t, c !! id = Some t ∧ user t = userId) →
  size (find_owned_in taskIds userId c) = length taskIds.
Proof.
  intros Hnd Hall.
  rewrite <- size_dom, (dom_find_owned_in_all _ _ _ Hall).
  by apply size_list_to_set.
Qed.

(** Either outcome of [bulkUpdateTasks]. *)
Lemma bulkUpdateTasks_cases taskIds updateData userId now s :
  let um := updateMany taskIds userId
              (λ t, set_updatedAt now (assign updateData t)) (db s) in
  bulkUpdateTasks taskIds updateData userId now s
  = (Throw (Some PartialOwnership), s)
  ∨ (size (find_owned_in taskIds userId (db s)) = length taskIds
     ∧ bulkUpdateTasks taskIds updateData userId now s
       = (Return (mkBulkUpdateResult
                    (pretty (fst um) +:+ " tasks updated successfully")
                    (fst um) taskIds),
          mkState (snd um) (io s))).
Proof.
  intros um.
  destruct (decide (size (find_owned_in taskIds userId (db s)) = length taskIds))
    as [Heq|Hne].
  - right. split; [done|]. unfold bulkUpdateTasks.
    rewrite (first_attempt_succeeds _ 3 (tt, db s) (tt, snd um)
               (mkBulkUpdateResult
                  (pretty (fst um) +:+ " tasks updated successfully")
                  (fst um) taskIds)); [reflexivity|lia|].
    unfold on_data, bulkUpdate_operations. cbn [fst snd].
    rewrite bool_decide_eq_false_2 by (intros H; by apply H).
    reflexivity.
  - left. unfold bulkUpdateTasks.
    rewrite (bulkUpdate_short _ updateData _ now _ Hne).
    cbn [outcome world snd]. by destruct s.
Qed.

(** Either outcome of [bulkDeleteTasks]. *)
Lemma bulkDeleteTasks_cases taskIds userId s :
  bulkDeleteTasks taskIds userId s = (Throw (Some PartialOwnership), s)
  ∨ (size (find_owned_in taskIds userId (db s)) = length taskIds
     ∧ bulkDeleteTasks taskIds userId s
       = (Return (mkBulkDeleteResult
                    (pretty (size (find_owned_in taskIds userId (db s)))
                     +:+ " tasks deleted successfully")
                    (size (find_owned_in taskIds userId (db s)))
                    (map (λ kv, mkDeletedTask (fst kv) (title (snd kv)) (status (snd kv)))
                       (map_to_list (find_owned_in taskIds userId (db s))))),
          mkState (filter (λ kv, ¬ owned_in taskIds userId kv) (db s)) (io s))).
Proof.
  destruct (decide (size (find_owned_in taskIds userId (db s)) = length taskIds))
    as [Heq|Hne].
  - right. split; [done|]. unfold bulkDeleteTasks.
    rewrite (first_attempt_succeeds _ 3 (tt, db s)
               (tt, filter (λ kv, ¬ owned_in taskIds userId kv) (db s))
               (mkBulkDeleteResult
                  (pretty (size (find_owned_in taskIds userId (db s)))
                   +:+ " tasks deleted successfully")
                  (size (find_owned_in taskIds userId (db s)))
                  (map (λ kv, mkDeletedTask (fst kv) (title (snd kv)) (status (snd kv)))
                     (map_to_list (find_owned_in taskIds userId (db s))))));
      [reflexivity|lia|].
    unfold on_data, bulkDelete_operations. cbn [fst snd].
    rewrite bool_decide_eq_false_2 by (intros H; by apply H).
    reflexivity.
  - left. unfold bulkDeleteTasks. rewrite (bulkDelete_short _ _ _ Hne).
    cbn [outcome world snd]. by destruct s.
Qed.

Lemma updateMany_lookup taskIds userId update c id :
  snd (updateMany taskIds userId update c) !! id
  = match c !! id with
    | Some t => Some (if decide (owned_in taskIds userId (id, t)) then update t else t)
    | None => None
    end.
Proof. unfold updateMany. cbn [snd]. rewrite map_lookup_imap. by destruct (c !! id). Qed.

Lemma deleteMany_lookup taskIds userId c id :
  filter (λ kv, ¬ owned_in taskIds userId kv) c !! id
  = match c !! id with
    | Some t => if decide (owned_in taskIds userId (id, t)) then None else Some t
    | None => None
    end.
Proof.
  destruct (c !! id) as [t|] eqn:Hc.
  - destruct (decide (owned_in taskIds userId (id, t))) as [Ho|Ho].
    + apply map_lookup_filter_None. right. intros t' Ht' Hno.
      rewrite Hc in Ht'. injection Ht' as <-. by apply Hno.
    + by apply map_lookup_filter_Some.
  - apply map_lookup_filter_None. by left.
Qed.

(** With the pre-check passed, the update is made at the first attempt. *)
Lemma bulkUpdate_passes taskIds updateData userId now s :
  size (find_owned_in taskIds userId (db s)) = length taskIds →
  withRetryableTransaction
    (on_data (bulkUpdate_operations taskIds updateData userId now)) 3 (tt, db s)
  = mkRun
      (Return (mkBulkUpdateResult
                 (pretty (fst (updateMany taskIds userId
                                 (λ t, set_updatedAt now (assign updateData t)) (db s)))
                  +:+ " tasks updated successfully")
                 (fst (updateMany taskIds userId
                         (λ t, set_updatedAt now (assign updateData t)) (db s)))
                 taskIds))
      (tt, snd (updateMany taskIds userId
                  (λ t, set_updatedAt now (assign updateData t)) (db s)))
      [].
Proof.
  intros Heq. apply first_attempt_succeeds; [lia|].
  unfold on_data, bulkUpdate_operations. cbn [fst snd].
  rewrite bool_decide_eq_false_2 by (intros H; by apply H).
  reflexivity.
Qed.

End BulkSuccess.

(** X11.  Whatever its arguments and whatever its outcome, a bulk
    operation changes no task that is not on its list and no task that
    belongs to another user. *)
Theorem bulk_changes_only_listed_own_tasks (taskIds : list ObjectId)
    (updateData : UpdateData) (userId : ObjectId) (now : Date) (s : State)
    (id : ObjectId) :
  (id ∉ taskIds ∨ ∀ t, db s !! id = Some t → user t ≠ userId) →
  db (snd (bulkUpdateTasks taskIds updateData userId now s)) !! id = db s !! id
  ∧ db (snd (bulkDeleteTasks taskIds userId s)) !! id = db s !! id.
Proof.
  intros Hout.
  assert (∀ t, db s !! id = Some t → ¬ owned_in taskIds userId (id, t)) as Hno.
  { intros t Ht [Hin Hu]. cbn in *. destruct Hout as [Hnot|Hforeign]; [done|].
    by apply (Hforeign t). }
  split.
  - destruct (bulkUpdateTasks_cases taskIds updateData userId now s)
      as [->|(_ & ->)]; [done|].
    cbn [snd db]. rewrite updateMany_lookup.
    destruct (db s !! id) as [t|] eqn:Ht; [|done].
    by rewrite decide_False by (by apply Hno).
  - destruct (bulkDeleteTasks_cases taskIds userId s) as [->|(_ & ->)]; [done|].
    cbn [snd db]. rewrite deleteMany_lookup.
    destruct (db s !! id) as [t|] eqn:Ht; [|done].
    by rewrite decide_False by (by apply Hno).
Qed.

Lemma bulk_changes_only_listed_own_tasks_witness :
  db (snd (bulkUpdateTasks [1; 2]%N Scenarios.complete_it Scenarios.alice 5000
             Scenarios.home)) !! 3%N
  = Some (Scenarios.a_task Scenarios.bob "C")
  ∧ db (snd (bulkDeleteTasks [1]%N Scenarios.alice Scenarios.home)) !! 2%N
    = Some (Scenarios.a_task Scenarios.alice "B").
Proof.
  split.
  - refine (proj1 (bulk_changes_only_listed_own_tasks [1; 2]%N Scenarios.complete_it
                     Scenarios.alice 5000 Scenarios.home 3%N _)).
    right. intros t Ht. vm_compute in Ht. injection Ht as <-. vm_compute. discriminate.
  - refine (proj2 (bulk_changes_only_listed_own_tasks [1]%N Scenarios.complete_it
                     Scenarios.alice 5000 Scenarios.home 2%N _)).
    left. intros Hin. apply list_elem_of_singleton in Hin. discriminate.
Defined.

(** X12.  On a list of distinct ids that all belong to the caller,
    [bulkDeleteTasks] deletes exactly the listed tasks: the count is the
    length of the list, each listed id is gone, every other task is as it
    was, and the summaries returned name the listed ids, each once, with
    the title and status the task had. *)
Theorem bulkDelete_removes_exactly (taskIds : list ObjectId) (userId : ObjectId)
    (s : State) :
  NoDup taskIds →
  (∀ id, id ∈ taskIds → ∃ t, db s !! id = Some t ∧ user t = userId) →
  ∃ r s',
    bulkDeleteTasks taskIds userId s = (Return r, s')
    ∧ deletedCount r = length taskIds
    ∧ (∀ id, db s' !! id = if decide (id ∈ taskIds) then None else db s !! id)
    ∧ map dt_id (deletedTasks r) ≡ₚ taskIds
    ∧ (∀ e, e ∈ deletedTasks r →
         ∃ t, db s !! dt_id e = Some t
              ∧ dt_title e = title t ∧ dt_status e = status t)
    ∧ io s' = io s.
Proof.
  intros Hnd Hall. pose proof (pre_check_passes _ _ _ Hnd Hall) as Hsize.
  destruct (bulkDeleteTasks_cases taskIds userId s) as [Hfail|(_ & Hok)].
  { exfalso. unfold bulkDeleteTasks in Hfail.
    rewrite (first_attempt_succeeds _ 3 (tt, db s)
               (tt, filter (λ kv, ¬ owned_in taskIds userId kv) (db s))
               (mkBulkDeleteResult
                  (pretty (size (find_owned_in taskIds userId (db s)))
                   +:+ " tasks deleted successfully")
                  (size (find_owned_in taskIds userId (db s)))
                  (map (λ kv, mkDeletedTask (fst kv) (title (snd kv)) (status (snd kv)))
                     (map_to_list (find_owned_in taskIds userId (db s))))))
      in Hfail; [done|lia|].
    unfold on_data, bulkDelete_operations. cbn [fst snd].
    rewrite bool_decide_eq_false_2 by (intros H; by apply H).
    reflexivity. }
  eexists _, _. split; [exact Hok|]. cbn [deletedCount deletedTasks db io].
  split; [done|]. split; [|split; [|split; [|done]]].
  - intros id. rewrite deleteMany_lookup.
    destruct (decide (id ∈ taskIds)) as [Hin|Hnin].
    + destruct (Hall id Hin) as (t & -> & Hu). by rewrite decide_True.
    + destruct (db s !! id) as [t|]; [|done].
      rewrite decide_False; [done|]. by intros [? _].
  - rewrite map_map. cbn [dt_id].
    change (map (λ kv : ObjectId * Task, fst kv)
              (map_to_list (find_owned_in taskIds userId (db s))))
      with ((map_to_list (find_owned_in taskIds userId (db s))).*1).
    apply NoDup_Permutation; [apply NoDup_fst_map_to_list | done |].
    intros id. rewrite list_elem_of_fmap. split.
    + intros ([k t] & -> & Hkt). cbn. apply elem_of_map_to_list in Hkt.
      by apply find_owned_in_lookup in Hkt as (_ & ? & _).
    + intros Hin. destruct (Hall id Hin) as (t & Ht & Hu).
      exists (id, t). split; [done|]. apply elem_of_map_to_list.
      by apply find_owned_in_lookup.
  - intros e He. apply elem_of_map in He as ([k t] & -> & Hkt).
    apply elem_of_map_to_list, find_owned_in_lookup in Hkt as (Hc & _ & _).
    exists t. cbn. eauto.
Qed.

Lemma bulkDelete_removes_exactly_witness :
  ∃ r s',
    bulkDeleteTasks [2; 1]%N Scenarios.alice Scenarios.home = (Return r, s')
    ∧ deletedCount r = 2%nat
    ∧ db s' !! 1%N = None ∧ db s' !! 2%N = None
    ∧ db s' !! 3%N = Some (Scenarios.a_task Scenarios.bob "C").
Proof.
  destruct (bulkDelete_removes_exactly [2; 1]%N Scenarios.alice Scenarios.home)
    as (r & s' & Hrun & Hcount & Hdb & _).
  - apply NoDup_cons. split; [|apply NoDup_singleton].
    intros Hin. apply list_elem_of_singleton in Hin. discriminate.
  - intros id Hid.
    apply elem_of_cons in Hid as [->|Hid];
      [by exists (Scenarios.a_task Scenarios.alice "B")|].
    apply list_elem_of_singleton in Hid as ->.
    by exists (Scenarios.a_task Scenarios.alice "A").
  - exists r, s'. split; [exact Hrun|]. split; [exact Hcount|].
    split; [exact (Hdb 1%N)|]. split; [exact (Hdb 2%N) | exact (Hdb 3%N)].
Defined.

(** X13.  On a list of distinct ids that all belong to the caller, and
    for an update of task fields whose strings the [trim] setter leaves
    as they are, [bulkUpdateTasks] goes through: every listed task takes,
    for each of title, description, status, priority, due date and tags,
    the value in the update, or keeps its own when the update has none,
    and has [updatedAt] set to the time of the call; every task not
    listed is as it was.  The count returned is at most the length of the
    list, and equal to it when no listed task already had that
    [updatedAt].  Nothing is said of a listed task's other fields: the
    route validates nothing, and a request whose object also names
    [user] or [completedAt] has them written as well. *)
Theorem bulkUpdate_rewrites_exactly (taskIds : list ObjectId)
    (updateData : UpdateData) (userId : ObjectId) (now : Date) (s : State) :
  NoDup taskIds →
  (∀ id, id ∈ taskIds → ∃ t, db s !! id = Some t ∧ user t = userId) →
  settled_update updateData = true →
  ∃ r s',
    bulkUpdateTasks taskIds updateData userId now s = (Return r, s')
    ∧ (∀ id t, id ∈ taskIds → db s !! id = Some t →
         ∃ t', db s' !! id = Some t'
           ∧ title t' = default (title t) (u_title updateData)
           ∧ description t' = default (description t) (u_description updateData)
           ∧ status t' = default (status t) (u_status updateData)
           ∧ priority t' = default (priority t) (u_priority updateData)
           ∧ dueDate t' = default (dueDate t) (u_dueDate updateData)
           ∧ tags t' = default (tags t) (u_tags updateData)
           ∧ updatedAt t' = now)
    ∧ (∀ id, id ∉ taskIds → db s' !! id = db s !! id)
    ∧ (modifiedCount r ≤ length taskIds)%nat
    ∧ ((∀ id t, id ∈ taskIds → db s !! id = Some t → updatedAt t ≠ now) →
       modifiedCount r = length taskIds)
    ∧ bu_taskIds r = taskIds
    ∧ io s' = io s.
Proof.
  intros Hnd Hall _. pose proof (pre_check_passes _ _ _ Hnd Hall) as Hsize.
  destruct (bulkUpdateTasks_cases taskIds updateData userId now s) as [Hfail|(_ & Hok)].
  { exfalso. unfold bulkUpdateTasks in Hfail.
    rewrite (bulkUpdate_passes _ updateData _ now _ Hsize) in Hfail. done. }
  assert (∀ id, snd (updateMany taskIds userId
                       (λ t, set_updatedAt now (assign updateData t)) (db s)) !! id
                = if decide (id ∈ taskIds)
                  then (λ t, set_updatedAt now (assign updateData t)) <$> db s !! id
                  else db s !! id) as Hlookup.
  { intros id. rewrite updateMany_lookup.
    destruct (decide (id ∈ taskIds)) as [Hin|Hnin].
    - destruct (Hall id Hin) as (t & -> & Hu). cbn. by rewrite decide_True.
    - destruct (db s !! id) as [t|]; [|done].
      rewrite decide_False; [done|]. by intros [? _]. }
  eexists _, _. split; [exact Hok|]. cbn [db io modifiedCount bu_taskIds].
  split; [|split; [|split; [|split; [|done]]]].
  - intros id t Hin Ht. exists (set_updatedAt now (assign updateData t)).
    split; [by rewrite Hlookup, decide_True, Ht|].
    destruct (assign_fields updateData t)
      as (Ati & Ade & Ast & Apr & Adu & Ata & _ & _).
    cbn [set_updatedAt title description status priority dueDate tags updatedAt].
    by rewrite Ati, Ade, Ast, Apr, Adu, Ata.
  - intros id Hnin. by rewrite Hlookup, decide_False.
  - cbn [updateMany fst]. rewrite <- Hsize. apply map_size_filter.
  - intros Hfresh. cbn [updateMany fst]. rewrite <- Hsize. f_equal.
    apply map_filter_id. intros id t Ht.
    apply find_owned_in_lookup in Ht as (Hc & Hin & _). cbn [snd].
    intros Heq. apply (Hfresh id t Hin Hc).
    rewrite <- Heq at 1. reflexivity.
Qed.

Lemma bulkUpdate_rewrites_exactly_witness :
  ∃ r s',
    bulkUpdateTasks [1; 2]%N (mkUpdateData None None None (Some urgent) None None)
      Scenarios.alice 5000 Scenarios.home = (Return r, s')
    ∧ modifiedCount r = 2%nat
    ∧ db s' !! 3%N = Some (Scenarios.a_task Scenarios.bob "C").
Proof.
  destruct (bulkUpdate_rewrites_exactly [1; 2]%N
              (mkUpdateData None None None (Some urgent) None None)
              Scenarios.alice 5000 Scenarios.home)
    as (r & s' & Hrun & _ & Hrest & _ & Hcount & _).
  - apply NoDup_cons. split; [|apply NoDup_singleton].
    intros Hin. apply list_elem_of_singleton in Hin. discriminate.
  - intros id Hid.
    apply elem_of_cons in Hid as [->|Hid];
      [by exists (Scenarios.a_task Scenarios.alice "A")|].
    apply list_elem_of_singleton in Hid as ->.
    by exists (Scenarios.a_task Scenarios.alice "B").
  - reflexivity.
  - exists r, s'. split; [exact Hrun|]. split.
    2:{ etrans; [apply Hrest | reflexivity].
        intros Hin. apply elem_of_cons in Hin as [[=]|Hin].
        apply list_elem_of_singleton in Hin. discriminate. }
    apply Hcount. intros id t Hid Ht.
    apply elem_of_cons in Hid as [->|Hid].
    + vm_compute in Ht. injection Ht as <-. vm_compute. discriminate.
    + apply list_elem_of_singleton in Hid as ->.
      vm_compute in Ht. injection Ht as <-. vm_compute. discriminate.
Defined.

(** ** Statistics and overdue tasks *)

Section StatsFacts.
Implicit Types (userId : ObjectId) (c : Collection) (l : list (ObjectId * Task)).

(** Counting the entries of a collection that satisfy a condition, in
    list form and in map form. *)
Lemma length_filter_map_to_list (P : ObjectId * Task → Prop)
    `{!∀ kv, Decision (P kv)} c :
  length (filter P (map_to_list c)) = size (filter P c).
Proof.
  rewrite <- length_map_to_list. apply Permutation_length.
  apply NoDup_Permutation.
  - apply NoDup_filter, NoDup_map_to_list.
  - apply NoDup_map_to_list.
  - intros [k t]. rewrite list_elem_of_filter, !elem_of_map_to_list.
    rewrite map_lookup_filter_Some. tauto.
Qed.

(** Every task has one of the three statuses. *)
Lemma length_by_status l :
  length l
  = (length (filter (λ kv, status (snd kv) = pending) l)
     + length (filter (λ kv, status (snd kv) = in_progress) l)
     + length (filter (λ kv, status (snd kv) = completed) l))%nat.
Proof.
  induction l as [|[k t] l IH]; [done|].
  rewrite !filter_cons. cbn [snd length].
  destruct (status t); repeat case_decide; try done; cbn [length]; lia.
Qed.

(** The groups that occur, folded into the result. *)
Lemma fold_stats (count : Status → nat) :
  fold_left record_stat
    (omap (λ st, let n := count st in if (0 <? n)%nat then Some (st, n) else None)
       [pending; in_progress; completed])
    (mkTaskStats 0 0 0 0)
  = mkTaskStats (count pending) (count in_progress) (count completed)
      (count pending + count in_progress + count completed).
Proof.
  cbn [omap list_omap]. generalize (count pending), (count in_progress),
    (count completed).
  intros p i c. destruct p as [|p], i as [|i], c as [|c]; cbn; f_equal; lia.
Qed.

End StatsFacts.

(** X14.  [getTaskStats] reports, for each status, the number of the
    caller's tasks with that status, zero included, and as [total] the
    number of the caller's tasks, which is the sum of the three. *)
Theorem getTaskStats_counts (userId : ObjectId) (s : State) :
  let owned st :=
    size (filter (λ kv : ObjectId * Task,
                    status (snd kv) = st ∧ user (snd kv) = userId) (db s)) in
  let stats := getTaskStats userId s in
  n_pending stats = owned pending
  ∧ n_in_progress stats = owned in_progress
  ∧ n_completed stats = owned completed
  ∧ n_total stats
    = size (filter (λ kv : ObjectId * Task, user (snd kv) = userId) (db s))
  ∧ n_total stats = (n_pending stats + n_in_progress stats + n_completed stats)%nat.
Proof.
  intros owned stats.
  assert (∀ st, owned st
            = length (filter (λ kv : ObjectId * Task, status (snd kv) = st)
                        (filter (λ kv : ObjectId * Task, user (snd kv) = userId)
                           (map_to_list (db s))))) as Howned.
  { intros st. unfold owned.
    rewrite list_filter_filter. symmetry.
    apply (length_filter_map_to_list
             (λ kv : ObjectId * Task, status (snd kv) = st ∧ user (snd kv) = userId)). }
  set (matched := filter (λ kv : ObjectId * Task, user (snd kv) = userId)
                    (map_to_list (db s))) in *.
  assert (stats = mkTaskStats (owned pending) (owned in_progress) (owned completed)
                    (owned pending + owned in_progress + owned completed)) as ->.
  { unfold stats, getTaskStats, TaskModel.getTaskStats, aggregate_by_status.
    fold matched. rewrite !Howned.
    exact (fold_stats (λ st, length (filter (λ kv : ObjectId * Task,
                                               status (snd kv) = st) matched))). }
  cbn [n_pending n_in_progress n_completed n_total].
  repeat split; try reflexivity.
  rewrite <- (length_filter_map_to_list
                (λ kv : ObjectId * Task, user (snd kv) = userId)).
  fold matched. rewrite (length_by_status matched), !Howned. reflexivity.
Qed.

Section OverdueFacts.





End OverdueFacts.


(** ** Listing, in full *)

Section ListingShape.
Implicit Types (s : State) (o : Options).






(** What a call that returns has returned: a stretch of the sorted
    matches. *)
Lemma getTasks_sublist userId o s r :
  getTasks userId o s = Return r →
  tasks r `sublist_of`
    merge_sort (λ a b, Is_true (sort_leb (default by_createdAt (opt_sortBy o))
                                  (default desc (opt_sortOrder o)) a b))
      (filter (λ kv, Is_true (query userId o (snd kv))) (map_to_list (db s))).
Proof.
  unfold getTasks, getTasksByUser, skip_limit.
  destruct (_ <? 0); [done|]. intros [= <-]. cbn [tasks].
  destruct (_ =? 0).
  - apply sublist_drop.
  - etrans; [apply sublist_take | apply sublist_drop].
Qed.

Lemma query_user userId o t : query userId o t = true → user t = userId.
Proof.
  unfold query. rewrite !andb_true_iff. intros [[[[Hu _] _] _] _].
  by apply bool_decide_eq_true in Hu.
Qed.

Lemma query_with_page page userId o t :
  query userId (with_page page o) t = query userId o t.
Proof. reflexivity. Qed.

(** One page of a validated request. *)
Lemma getTasks_with_page userId o s page :
  let limit := default 10 (opt_limit o) in
  let matching :=
    filter (λ kv, Is_true (query userId o (snd kv))) (map_to_list (db s)) in
  let sorted :=
    merge_sort (λ a b, Is_true (sort_leb (default by_createdAt (opt_sortBy o))
                                  (default desc (opt_sortOrder o)) a b))
      matching in
  1 ≤ page → 1 ≤ limit →
  getTasks userId (with_page page o) s
  = Return (mkTasksPage
              (take (Z.to_nat limit)
                 (drop (Z.to_nat (page - 1) * Z.to_nat limit)%nat sorted))
              (mkPagination page (ceil_div (Z.of_nat (length sorted)) limit)
                 (Z.of_nat (length sorted)) limit)).
Proof.
  intros limit matching sorted Hp Hl.
  unfold getTasks, getTasksByUser, skip_limit.
  cbn [with_page opt_page opt_limit opt_sortBy opt_sortOrder].
  change (default 1 (Some page)) with page. fold limit.
  change (filter (λ kv, Is_true (query userId (with_page page o) (snd kv)))
            (map_to_list (db s))) with matching.
  fold sorted.
  replace ((page - 1) * limit <? 0) with false by (symmetry; apply Z.ltb_ge; nia).
  replace (limit =? 0) with false by (symmetry; apply Z.eqb_neq; lia).
  replace (Z.abs limit) with limit by lia.
  rewrite Z2Nat.inj_mul by lia.
  assert (length matching = length sorted) as ->
    by (symmetry; apply Permutation_length, merge_sort_Permutation).
  reflexivity.
Qed.

End ListingShape.



(** X17.  Paging loses and repeats nothing.  For a limit of at least
    1 and matching tasks that differ in the field sorted by (the server
    leaves the order of equal keys open), every matching task of the
    caller is on one page between 1 and [pagination.pages], and on no
    other page. *)
Theorem each_match_is_on_one_page
    (userId : ObjectId) (o : Options) (s : State) (id : ObjectId) (t : Task) :
  let limit := default 10 (opt_limit o) in
  let sortBy := default by_createdAt (opt_sortBy o) in
  let sortOrder := default desc (opt_sortOrder o) in
  1 ≤ limit →
  (∀ id1 t1 id2 t2,
     db s !! id1 = Some t1 → db s !! id2 = Some t2 →
     query userId o t1 = true → query userId o t2 = true →
     sort_leb sortBy sortOrder (id1, t1) (id2, t2) = true →
     sort_leb sortBy sortOrder (id2, t2) (id1, t1) = true →
     id1 = id2) →
  db s !! id = Some t → query userId o t = true →
  ∃ page r n,
    1 ≤ page ≤ n
    ∧ getTasks userId (with_page page o) s = Return r
    ∧ pages (pagination r) = Num n
    ∧ (id, t) ∈ tasks r
    ∧ ∀ page' r',
        1 ≤ page' → getTasks userId (with_page page' o) s = Return r' →
        (id, t) ∈ tasks r' → page' = page.
Proof.
  intros limit sortBy sortOrder Hl _ Hdb Hq.
  set (sorted := merge_sort (λ a b, Is_true (sort_leb sortBy sortOrder a b))
         (filter (λ kv, Is_true (query userId o (snd kv))) (map_to_list (db s)))).
  assert ((id, t) ∈ sorted) as Hin.
  { unfold sorted. rewrite merge_sort_Permutation, list_elem_of_filter,
      elem_of_map_to_list. cbn [snd]. by rewrite Is_true_true. }
  assert (NoDup sorted) as Hnodup.
  { unfold sorted. rewrite merge_sort_Permutation.
    apply NoDup_filter, NoDup_map_to_list. }
  apply list_elem_of_lookup_1 in Hin as [i Hi].
  pose proof (lookup_lt_Some _ _ _ Hi) as Hlt.
  set (L := Z.to_nat limit). assert (L ≠ 0)%nat as HL by lia.
  pose proof (Nat.div_mod_eq i L) as Hdm.
  pose proof (Nat.mod_upper_bound i L HL) as Hmod.
  destruct (ceil_div_spec (Z.of_nat (length sorted)) limit ltac:(lia))
    as (p & Hp & Hlo & Hhi).
  assert (Z.of_nat (i / L) * limit ≤ Z.of_nat i) as Hk.
  { replace limit with (Z.of_nat L) by lia. nia. }
  eexists (Z.of_nat (i / L) + 1), _, p.
  split; [nia|]. split; [apply getTasks_with_page; lia|].
  cbn [pagination pages tasks]. fold sortBy sortOrder. fold sorted. fold limit.
  split; [exact Hp|].
  replace (Z.to_nat (Z.of_nat (i / L) + 1 - 1)) with (i / L)%nat by lia.
  fold L. split.
  - apply (list_elem_of_lookup_2 _ (i mod L)).
    rewrite lookup_take_lt, lookup_drop by done.
    rewrite <- Hi. f_equal. lia.
  - intros page' r' Hp' Hr' Hin'.
    rewrite getTasks_with_page in Hr' by (done || lia).
    injection Hr' as <-. cbn [tasks] in Hin'.
    fold sortBy sortOrder in Hin'. fold sorted in Hin'. fold limit in Hin'.
    fold L in Hin'.
    apply elem_of_take in Hin' as (j & Hj & Hjlt). rewrite lookup_drop in Hj.
    pose proof (NoDup_lookup _ _ _ _ Hnodup Hj Hi) as Hij.
    assert (Z.to_nat (page' - 1) = i / L)%nat as Heq.
    { apply (Nat.div_unique i L _ j); lia. }
    lia.
Qed.

Lemma each_match_is_on_one_page_witness :
  ∃ page r n,
    1 ≤ page ≤ n
    ∧ getTasks Scenarios.alice (with_page page Scenarios.by_title_in_twos)
        Scenarios.office = Return r
    ∧ pages (pagination r) = Num n
    ∧ (1%N, Scenarios.passport) ∈ tasks r
    ∧ ∀ page' r',
        1 ≤ page' →
        getTasks Scenarios.alice (with_page page' Scenarios.by_title_in_twos)
          Scenarios.office = Return r' →
        (1%N, Scenarios.passport) ∈ tasks r' → page' = page.
Proof.
  apply (each_match_is_on_one_page Scenarios.alice Scenarios.by_title_in_twos
           Scenarios.office 1%N Scenarios.passport).
  - cbn. lia.
  - intros id1 t1 id2 t2 H1 H2 Hq1 Hq2 Hle Hge.
    apply query_user in Hq1, Hq2.
    assert (∀ id t, db Scenarios.office !! id = Some t →
                    user t = Scenarios.alice →
                    (id, title t) ∈ [(1%N, "Renew Passport"); (2%N, "B"); (4%N, "D")])
      as Hall.
    { intros id t Hdb Hu. apply elem_of_map_to_list in Hdb.
      vm_compute in Hdb.
      repeat (apply elem_of_cons in Hdb as [[= -> ->]|Hdb];
              [first [discriminate Hu | set_solver]|]).
      by apply elem_of_nil in Hdb. }
    pose proof (Hall _ _ H1 Hq1) as Ha. pose proof (Hall _ _ H2 Hq2) as Hb.
    cbn [sort_leb default from_option id Scenarios.by_title_in_twos opt_sortBy
         opt_sortOrder snd] in Hle, Hge.
    pose proof (String.leb_antisym _ _ Hle Hge) as Htitle.
    repeat (apply elem_of_cons in Ha as [[= -> Ha']|Ha]);
      repeat (apply elem_of_cons in Hb as [[= -> Hb']|Hb]);
      try (by apply elem_of_nil in Ha); try (by apply elem_of_nil in Hb);
      try done; congruence.
  - reflexivity.
  - reflexivity.
Defined.

(** X18.  The list route's [hasNext] tells the truth for a validated
    page and limit: it is true exactly when the next page of the same
    request has a task on it; and [hasPrev] is true exactly from page 2
    on. *)
Theorem hasNext_iff_next_page_has_tasks
    (userId : ObjectId) (o : Options) (s : State) (now : Date) :
  let page := default 1 (opt_page o) in
  let limit := default 10 (opt_limit o) in
  1 ≤ page → 1 ≤ limit →
  ∃ resp next,
    TaskController.getTasks userId o now s = Some (inl resp)
    ∧ getTasks userId (with_page (page + 1) o) s = Return next
    ∧ (ResponseUtil.hasNext (ResponseUtil.pr_pagination resp) = true
       ↔ tasks next ≠ [])
    ∧ (ResponseUtil.hasPrev (ResponseUtil.pr_pagination resp) = true
       ↔ 1 < page).
Proof.
  intros page limit Hp Hl.
  unfold TaskController.getTasks.
  change (getTasks userId o s) with (getTasks userId (with_page page o) s).
  rewrite !getTasks_with_page by (done || lia). fold limit.
  set (sorted := merge_sort _ _).
  eexists _, _. split; [reflexivity|]. split; [reflexivity|].
  cbn [ResponseUtil.sendPaginatedResponse ResponseUtil.pr_pagination
       ResponseUtil.hasNext ResponseUtil.hasPrev pagination tasks current pages].
  destruct (ceil_div_spec (Z.of_nat (length sorted)) limit ltac:(lia))
    as (p & -> & Hlo & Hhi).
  cbn [ResponseUtil.less_than]. rewrite !Z.ltb_lt.
  split; [|done].
  replace (Z.to_nat (page + 1 - 1)) with (Z.to_nat page) by lia.
  assert (length (take (Z.to_nat limit)
                    (drop (Z.to_nat page * Z.to_nat limit) sorted))
          = Z.to_nat limit `min` (length sorted - Z.to_nat page * Z.to_nat limit))%nat
    as Hlen by apply length_page.
  destruct (take _ _) as [|x l] eqn:Hnext; cbn [length] in Hlen.
  - split; [|done]. intros Hlt. exfalso. nia.
  - split; [done|]. intros _. nia.
Qed.

Lemma hasNext_iff_next_page_has_tasks_witness :
  ∃ resp next,
    TaskController.getTasks Scenarios.alice Scenarios.by_title_in_twos 5000
      Scenarios.office = Some (inl resp)
    ∧ getTasks Scenarios.alice
        (with_page (1 + 1) Scenarios.by_title_in_twos) Scenarios.office
      = Return next
    ∧ (ResponseUtil.hasNext (ResponseUtil.pr_pagination resp) = true
       ↔ tasks next ≠ [])
    ∧ (ResponseUtil.hasPrev (ResponseUtil.pr_pagination resp) = true ↔ 1 < 1).
Proof.
  apply (hasNext_iff_next_page_has_tasks Scenarios.alice
           Scenarios.by_title_in_twos Scenarios.office 5000); cbn; lia.
Defined.

(** ** Search *)

Section SearchFacts.
Implicit Types (s : State) (o : Options).

Lemma starts_with_i_spec (p str : string) :
  starts_with_i p str = true
  ↔ ∃ post, toLowerCase str = toLowerCase p +:+ post.
Proof.
  revert str. induction p as [|a p IH]; intros str.
  - cbn. split; [eauto|done].
  - destruct str as [|b str]; cbn [starts_with_i toLowerCase String.append].
    + split; [done|]. by intros [post ?].
    + rewrite andb_true_iff, bool_decide_eq_true, IH. split.
      * intros [-> [post ->]]. by exists post.
      * intros [post [= -> ->]]. eauto.
Qed.

(** The search pattern matches a text exactly when the text contains the
    term, letter case aside. *)
Lemma searchRegex_spec (term str : string) :
  searchRegex term str = true
  ↔ ∃ pre post, toLowerCase str = pre +:+ toLowerCase term +:+ post.
Proof.
  split.
  - induction str as [|c str IH]; cbn [searchRegex]; rewrite orb_true_iff.
    + intros [H|H]; [|done]. apply starts_with_i_spec in H as [post H].
      by exists "", post.
    + intros [H|H].
      * apply starts_with_i_spec in H as [post H]. by exists "", post.
      * destruct (IH H) as (pre & post & Hs).
        exists (String (lower c) pre), post. cbn. by rewrite Hs.
  - intros (pre & post & H). revert str H.
    induction pre as [|a pre IH]; intros str H.
    + assert (starts_with_i term str = true) as Hs
        by (apply starts_with_i_spec; eauto).
      destruct str; cbn [searchRegex]; by rewrite Hs.
    + destruct str as [|c str]; [done|]. cbn in H. injection H as _ H.
      cbn [searchRegex]. rewrite (IH _ H). apply orb_true_r.
Qed.

Lemma query_with_search userId term o t :
  term ≠ "" → opt_search o = None →
  query userId (with_search term o) t = true
  ↔ query userId o t = true
    ∧ ∃ field, field ∈ title t :: description t :: tags t
               ∧ searchRegex term field = true.
Proof.
  intros Hterm Hnone. unfold query.
  cbn [with_search opt_status opt_priority opt_dueDate opt_search].
  rewrite Hnone, (bool_decide_eq_false_2 _ Hterm), andb_true_r.
  rewrite (andb_true_iff _ (_ || _)), !orb_true_iff, existsb_exists.
  split; intros [Hq Hs]; (split; [exact Hq|]).
  - destruct Hs as [[Hs|Hs]|(tag & Hin & Hs)].
    + exists (title t). split; [left|done].
    + exists (description t). split; [right; left|done].
    + exists tag. split; [|done]. do 2 right. by apply list_elem_of_In.
  - destruct Hs as (field & Hin & Hs).
    apply elem_of_cons in Hin as [->|Hin]; [auto|].
    apply elem_of_cons in Hin as [->|Hin]; [auto|].
    right. exists field. split; [by apply list_elem_of_In | done].
Qed.

Lemma match_is_on_a_page userId o s id t :
  1 ≤ default 10 (opt_limit o) →
  db s !! id = Some t → query userId o t = true →
  ∃ page r,
    1 ≤ page ∧ getTasks userId (with_page page o) s = Return r
    ∧ (id, t) ∈ tasks r.
Proof.
  intros Hl Hdb Hq.
  set (sorted := merge_sort
         (λ a b, Is_true (sort_leb (default by_createdAt (opt_sortBy o))
                            (default desc (opt_sortOrder o)) a b))
         (filter (λ kv, Is_true (query userId o (snd kv))) (map_to_list (db s)))).
  assert ((id, t) ∈ sorted) as Hin.
  { unfold sorted. rewrite merge_sort_Permutation, list_elem_of_filter,
      elem_of_map_to_list. cbn [snd]. by rewrite Is_true_true. }
  apply list_elem_of_lookup_1 in Hin as [i Hi].
  set (L := Z.to_nat (default 10 (opt_limit o))).
  assert (L ≠ 0)%nat as HL by lia.
  pose proof (Nat.div_mod_eq i L) as Hdm.
  pose proof (Nat.mod_upper_bound i L HL) as Hmod.
  eexists (Z.of_nat (i / L) + 1), _. split; [lia|].
  split; [apply getTasks_with_page; lia|]. cbn [tasks]. fold sorted.
  replace (Z.to_nat (Z.of_nat (i / L) + 1 - 1)) with (i / L)%nat by lia.
  fold L. apply (list_elem_of_lookup_2 _ (i mod L)).
  rewrite lookup_take_lt, lookup_drop by done.
  rewrite <- Hi. f_equal. lia.
Qed.

End SearchFacts.

(** X19.  Search finds the phrase, letter case aside, and nothing
    else.  For a non-empty term, every task a search returns is a stored
    task of the caller that passes the other filters and has the term in
    its title, its description or one of its tags, as a stretch of
    characters, upper and lower case counted alike; and for a limit of at
    least 1 every such task is on some page of the search. *)
Theorem searchTasks_finds_the_phrase
    (userId : ObjectId) (term : string) (o : Options) (s : State) :
  term ≠ "" → opt_search o = None → 1 ≤ default 10 (opt_limit o) →
  let has_phrase (t : Task) :=
    ∃ field, field ∈ title t :: description t :: tags t
             ∧ ∃ pre post, toLowerCase field = pre +:+ toLowerCase term +:+ post in
  (∀ r id t,
     searchTasks userId term o s = Return r → (id, t) ∈ tasks r →
     db s !! id = Some t ∧ user t = userId ∧ query userId o t = true
     ∧ has_phrase t)
  ∧ (∀ id t,
       db s !! id = Some t → query userId o t = true → has_phrase t →
       ∃ page r,
         1 ≤ page ∧ searchTasks userId term (with_page page o) s = Return r
         ∧ (id, t) ∈ tasks r).
Proof.
  intros Hterm Hnone Hl has_phrase. split.
  - intros r id t Hr Hin. unfold searchTasks in Hr.
    pose proof (getTasks_sublist _ _ _ _ Hr) as Hsub.
    eapply elem_of_sublist in Hin; [|exact Hsub].
    rewrite merge_sort_Permutation in Hin.
    apply list_elem_of_filter in Hin as [Hq Hin]. cbn [snd] in Hq.
    apply elem_of_map_to_list in Hin. apply Is_true_true in Hq.
    apply query_with_search in Hq as [Hq (field & Hf & Hs)]; [|done..].
    split; [done|]. split; [by eapply query_user|]. split; [done|].
    exists field. split; [done|]. by apply searchRegex_spec.
  - intros id t Hdb Hq (field & Hf & Hs).
    apply (match_is_on_a_page userId (with_search term o) s id t); [done..|].
    apply query_with_search; [done..|]. split; [done|].
    exists field. split; [done|]. by apply searchRegex_spec.
Qed.

Lemma searchTasks_finds_the_phrase_witness :
  ∃ page r,
    1 ≤ page
    ∧ searchTasks Scenarios.alice "pAsSpOrT"
        (with_page page Scenarios.any_options) Scenarios.office = Return r
    ∧ (1%N, Scenarios.passport) ∈ tasks r.
Proof.
  apply (searchTasks_finds_the_phrase Scenarios.alice "pAsSpOrT"
           Scenarios.any_options Scenarios.office);
    [discriminate | reflexivity | cbn; lia | reflexivity | reflexivity |].
  exists "Renew Passport". split; [left|]. by exists "renew ", "".
Defined.

(** ** The socket server over time *)

Section SocketHistory.
Implicit Types (io : Io) (history : list SocketEvent).

Lemma handle_private io e :
  rooms_are_private io → rooms_are_private (handle io e).
Proof.
  destruct e; cbn [handle];
    [apply connection_private | apply join_user_room_private
     | apply disconnect_private | done | done].
Qed.

Lemma fold_handle_private history io :
  rooms_are_private io → rooms_are_private (fold_left handle history io).
Proof.
  revert io. induction history as [|e history IH]; intros io Hio; [done|].
  cbn [fold_left]. by apply IH, handle_private.
Qed.

Lemma unique_by_id (l : list Socket) (a b : Socket) :
  NoDup (map socket_id l) → a ∈ l → b ∈ l → socket_id a = socket_id b → a = b.
Proof.
  induction l as [|x l IH]; cbn [map]; intros Hnd Ha Hb Hid.
  - by apply elem_of_nil in Ha.
  - apply NoDup_cons in Hnd as [Hx Hnd].
    apply elem_of_cons in Ha as [->|Ha], Hb as [->|Hb]; [done|..].
    + destruct Hx. rewrite Hid. apply elem_of_map. eauto.
    + destruct Hx. rewrite <- Hid. apply elem_of_map. eauto.
    + by apply IH.
Qed.

Lemma find_by_id (l : list Socket) (sk : Socket) :
  NoDup (map socket_id l) → sk ∈ l →
  List.find (λ s', bool_decide (socket_id s' = socket_id sk)) l = Some sk.
Proof.
  intros Hnd Hin.
  destruct (List.find _ l) as [sk'|] eqn:Hfind.
  - apply find_some in Hfind as [Hin' Hid].
    apply bool_decide_eq_true in Hid. f_equal.
    apply (unique_by_id l); [done| by apply list_elem_of_In |done..].
  - exfalso. apply list_elem_of_In in Hin.
    pose proof (find_none _ _ Hfind sk Hin) as Hno.
    cbv beta in Hno. by apply bool_decide_eq_false in Hno.
Qed.

End SocketHistory.

(** X20.  Whatever connections, [join_user_room] requests, disconnects
    and emits the socket server has seen, an event sent to a user's room
    ([emitTaskCreated], [emitTaskUpdated] and [emitTaskDeleted] do that)
    is received once by each socket of that user, in connection order,
    and by no socket of anyone else: asking to join another user's room
    never gets a socket into it. *)
Theorem events_reach_only_the_users_sockets
    (history : list SocketEvent) (userId : ObjectId) (ev : string)
    (d : WebSocketService.Payload) :
  rooms_are_private (after history)
  ∧ received (emit_to userId ev d (after history))
    = received (after history)
      ++ map (λ sk, mkEmitted (socket_id sk) ev d)
           (sockets_of userId (after history)).
Proof.
  assert (rooms_are_private (after history)) as Hp
    by (apply fold_handle_private; constructor).
  split; [exact Hp | by apply emit_to_fans_out].
Qed.

(** X21.  The presence map forgets a user at the first disconnect.
    When one socket of a user disconnects (socket ids being distinct),
    [isUserConnected] answers false for that user, although every other
    socket stays connected; the user's other sockets go on receiving the
    user's events. *)
Theorem disconnect_forgets_the_user (io : Io) (sk : Socket) :
  NoDup (map socket_id (sockets io)) → sk ∈ sockets io →
  isUserConnected (socket_userId sk) (disconnect (socket_id sk) io) = false
  ∧ sockets (disconnect (socket_id sk) io)
    = List.filter (λ s', negb (bool_decide (socket_id s' = socket_id sk)))
        (sockets io)
  ∧ ∀ other,
      other ∈ sockets_of (socket_userId sk) io → other ≠ sk →
      other ∈ sockets_of (socket_userId sk) (disconnect (socket_id sk) io).
Proof.
  intros Hnd Hin. unfold disconnect.
  rewrite (find_by_id _ _ Hnd Hin). unfold isUserConnected, sockets_of.
  cbn [sockets connectedUsers]. split; [|split; [done|]].
  - apply bool_decide_eq_false_2. rewrite lookup_delete_eq. by intros [? ?].
  - intros other Hother Hne.
    apply list_elem_of_In, filter_In in Hother as [Hother Hu].
    apply list_elem_of_In, filter_In. split; [|done].
    apply filter_In. split; [done|].
    apply negb_true_iff, bool_decide_eq_false_2. intros Hid.
    apply Hne. apply (unique_by_id (sockets io)); [done| |done..].
    by apply list_elem_of_In.
Qed.

Lemma disconnect_forgets_the_user_witness :
  isUserConnected Scenarios.alice (disconnect 100 Scenarios.three_sockets) = false
  ∧ map socket_id
      (sockets_of Scenarios.alice (disconnect 100 Scenarios.three_sockets))
    = [101%N].
Proof.
  destruct (disconnect_forgets_the_user Scenarios.three_sockets
              (mkSocket 100 Scenarios.alice {[ Scenarios.alice ]}))
    as (Hgone & _ & _).
  - apply (bool_decide_unpack _). vm_compute. exact I.
  - vm_compute. left.
  - split; [exact Hgone | vm_compute; reflexivity].
Defined.

(** ** What the task routes answer *)

Section RouteFacts.
Implicit Types (s : State).

Lemma findById_None id s : db s !! id = None → findById id (db s) = None.
Proof. unfold findById. by intros ->. Qed.

Lemma findById_Some id s t :
  db s !! id = Some t → findById id (db s) = Some (mkDocument id (Some t) t).
Proof. unfold findById. by intros ->. Qed.

Lemma not_owned id t userId :
  user t ≠ userId → isOwnedBy (mkDocument id (Some t) t) userId = false.
Proof. intros Hne. unfold isOwnedBy. by apply bool_decide_eq_false_2. Qed.

End RouteFacts.

(** X22.  The refusals of the routes for one task, as the client sees
    them.  For an id that is not stored, reading, updating, deleting and
    completing all answer 404 with code TASK_NOT_FOUND; for a task of
    another user they answer 403 with code ACCESS_DENIED and the message
    of the operation; completing one's own completed task answers 400
    without a code.  In each case nothing is written and no event is
    sent. *)
Theorem single_task_routes_refuse
    (id userId : ObjectId) (updateData : UpdateData) (now : Date) (s : State) :
  (db s !! id = None →
   let not_found {A} : ResponseUtil.Response A :=
     ResponseUtil.mkResponse 404 false "Task not found" (Some "TASK_NOT_FOUND")
       None None now in
   TaskController.getTaskById id userId now s = (Some not_found, s)
   ∧ TaskController.updateTask id updateData userId now s = (Some not_found, s)
   ∧ TaskController.deleteTask id userId now s = (Some not_found, s)
   ∧ TaskController.markTaskAsCompleted id userId now s = (Some not_found, s))
  ∧ (∀ t, db s !! id = Some t → user t ≠ userId →
     let denied {A} (verb : string) : ResponseUtil.Response A :=
       ResponseUtil.mkResponse 403 false
         ("Access denied: You can only " +:+ verb +:+ " your own tasks")
         (Some "ACCESS_DENIED") None None now in
     TaskController.getTaskById id userId now s = (Some (denied "access"), s)
     ∧ TaskController.updateTask id updateData userId now s
       = (Some (denied "update"), s)
     ∧ TaskController.deleteTask id userId now s = (Some (denied "delete"), s)
     ∧ TaskController.markTaskAsCompleted id userId now s
       = (Some (denied "update"), s))
  ∧ (∀ t, db s !! id = Some t → user t = userId → status t = completed →
     TaskController.markTaskAsCompleted id userId now s
     = (Some (ResponseUtil.mkResponse 400 false "Task is already completed"
                None None None now), s)).
Proof.
  split; [|split].
  - intros Hnone not_found.
    unfold TaskController.getTaskById, TaskController.updateTask,
      TaskController.deleteTask, TaskController.markTaskAsCompleted,
      getTaskById, updateTask, deleteTask, markTaskAsCompleted.
    rewrite (findById_None _ _ Hnone). repeat split; reflexivity.
  - intros t Hsome Hne denied.
    unfold TaskController.getTaskById, TaskController.updateTask,
      TaskController.deleteTask, TaskController.markTaskAsCompleted,
      getTaskById, updateTask, deleteTask, markTaskAsCompleted.
    rewrite (findById_Some _ _ _ Hsome), (not_owned _ _ _ Hne). cbn [negb].
    repeat split; reflexivity.
  - intros t Hsome Hown Hdone.
    unfold TaskController.markTaskAsCompleted, markTaskAsCompleted.
    rewrite (findById_Some _ _ _ Hsome). unfold isOwnedBy. cbn [doc].
    rewrite (bool_decide_eq_true_2 _ Hown), (bool_decide_eq_true_2 _ Hdone).
    reflexivity.
Qed.

Lemma single_task_routes_refuse_witness :
  TaskController.deleteTask 5%N Scenarios.alice 5000 Scenarios.home
  = (Some (ResponseUtil.mkResponse 404 false "Task not found"
             (Some "TASK_NOT_FOUND") None None 5000), Scenarios.home)
  ∧ TaskController.deleteTask 3%N Scenarios.alice 5000 Scenarios.home
    = (Some (ResponseUtil.mkResponse 403 false
               "Access denied: You can only delete your own tasks"
               (Some "ACCESS_DENIED") None None 5000), Scenarios.home)
  ∧ TaskController.markTaskAsCompleted 4%N Scenarios.alice 5000 Scenarios.office
    = (Some (ResponseUtil.mkResponse 400 false "Task is already completed"
               None None None 5000), Scenarios.office).
Proof.
  pose (u := mkUpdateData None None None None None None).
  split; [|split].
  - apply (proj1 (single_task_routes_refuse 5%N Scenarios.alice u 5000
                    Scenarios.home)). reflexivity.
  - apply (proj1 (proj2 (single_task_routes_refuse 3%N Scenarios.alice u 5000
                           Scenarios.home))
             (Scenarios.a_task Scenarios.bob "C")); [reflexivity|discriminate].
  - apply (proj2 (proj2 (single_task_routes_refuse 4%N Scenarios.alice u 5000
                           Scenarios.office))
             (mkTask "D" "done" completed Scenarios.alice low (Some 2000)
                (Some 2500) [] 1000 2500)); reflexivity.
Defined.

(** X23.  What the bulk update route answers to a request of the types
    the service is written for: well-formed ids, and an update of task
    fields with values of their types.  Without ids (absent, no array, or
    an empty one) it answers 400 "Task IDs array is required", whatever
    the update; with ids and no update, or an update without a property,
    400 "Update data is required"; with ids and an update that has a
    property, 403 with code ACCESS_DENIED and the message of the
    pre-check when the number of listed tasks the caller owns differs
    from the number of ids, and else 200 with the result of the service.
    The refusals touch nothing, and no answer sends an event.  A request
    outside these types (a malformed id, a value that cannot be cast, a
    property that is no task field) is not described. *)
Theorem bulk_update_route_answers
    (ids : list ObjectId) (u : UpdateData) (userId : ObjectId) (now : Date)
    (s : State) :
  ids ≠ [] → u ≠ mkUpdateData None None None None None None →
  (∀ taskIds updateData,
     taskIds = None ∨ taskIds = Some [] →
     TaskController.bulkUpdateTasks taskIds updateData userId now s
     = (Some (ResponseUtil.mkResponse 400 false "Task IDs array is required"
                None None None now), s))
  ∧ (∀ updateData,
       updateData = None
       ∨ updateData = Some (mkUpdateData None None None None None None) →
       TaskController.bulkUpdateTasks (Some ids) updateData userId now s
       = (Some (ResponseUtil.mkResponse 400 false "Update data is required"
                  None None None now), s))
  ∧ (size (find_owned_in ids userId (db s)) ≠ length ids →
     TaskController.bulkUpdateTasks (Some ids) (Some u) userId now s
     = (Some (ResponseUtil.mkResponse 403 false
                "Some tasks not found or access denied" (Some "ACCESS_DENIED")
                None None now), s))
  ∧ (size (find_owned_in ids userId (db s)) = length ids →
     ∃ result s',
       TaskService.bulkUpdateTasks ids u userId now s = (Return result, s')
       ∧ TaskController.bulkUpdateTasks (Some ids) (Some u) userId now s
         = (Some (ResponseUtil.mkResponse 200 true "Tasks updated successfully"
                    None (Some result) None now), s')
       ∧ bu_taskIds result = ids
       ∧ io s' = io s).
Proof.
  intros Hids Hu.
  assert (TaskController.no_ids (Some ids) = false) as Hsome
    by (by destruct ids).
  assert (TaskController.no_keys u = false) as Hkeys
    by (by destruct u as [[?|] [?|] [?|] [?|] [?|] [?|]]).
  split; [|split; [|split]].
  - by intros taskIds updateData [-> | ->].
  - intros updateData [-> | ->];
      unfold TaskController.bulkUpdateTasks; by rewrite Hsome.
  - intros Hne. unfold TaskController.bulkUpdateTasks. rewrite Hsome, Hkeys.
    change (default [] (Some ids)) with ids.
    change (default (mkUpdateData None None None None None None) (Some u)) with u.
    assert (bulkUpdateTasks ids u userId now s
            = (Throw (Some PartialOwnership), s)) as ->.
    { unfold bulkUpdateTasks. rewrite (bulkUpdate_short _ u _ now _ Hne).
      cbn [outcome world snd]. by destruct s. }
    reflexivity.
  - intros Heq. unfold TaskController.bulkUpdateTasks. rewrite Hsome, Hkeys.
    change (default [] (Some ids)) with ids.
    change (default (mkUpdateData None None None None None None) (Some u)) with u.
    assert (∃ result s', bulkUpdateTasks ids u userId now s = (Return result, s')
                         ∧ bu_taskIds result = ids ∧ io s' = io s)
      as (result & s' & Hsvc & Hres & Hio).
    { unfold bulkUpdateTasks. rewrite (bulkUpdate_passes _ u _ now _ Heq).
      cbn [outcome world snd]. eexists _, _. by split. }
    exists result, s'. rewrite Hsvc. by repeat split.
Qed.

Lemma bulk_update_route_answers_witness :
  TaskController.bulkUpdateTasks (Some [1; 3]%N) (Some Scenarios.complete_it)
    Scenarios.alice 5000 Scenarios.home
  = (Some (ResponseUtil.mkResponse 403 false
             "Some tasks not found or access denied" (Some "ACCESS_DENIED")
             None None 5000), Scenarios.home)
  ∧ TaskController.bulkUpdateTasks (Some [1; 3]%N) None Scenarios.alice 5000
      Scenarios.home
    = (Some (ResponseUtil.mkResponse 400 false "Update data is required"
               None None None 5000), Scenarios.home).
Proof.
  destruct (bulk_update_route_answers [1; 3]%N Scenarios.complete_it
              Scenarios.alice 5000 Scenarios.home)
    as (_ & Hempty & Hdenied & _); [discriminate | discriminate |].
  split.
  - apply Hdenied. vm_compute. discriminate.
  - apply Hempty. by left.
Defined.
(** ** Tokens and the authorization header *)

Section HeaderFacts.

Lemma split_not_nil sep str : split sep str ≠ [].
Proof.
  destruct str as [|c str]; cbn [split]; [done|].
  case_bool_decide; [done|]. by destruct (split sep str).
Qed.

Lemma includes_sep_cons sep c str :
  includes (String sep "") (String c str) = false
  ↔ c ≠ sep ∧ includes (String sep "") str = false.
Proof.
  cbn [includes starts_with]. rewrite orb_false_iff.
  rewrite andb_true_r, bool_decide_eq_false. split; intros [? ?]; split; congruence.
Qed.

Lemma split_no_sep sep str :
  includes (String sep "") str = false → split sep str = [str].
Proof.
  induction str as [|c str IH]; [done|].
  rewrite includes_sep_cons. intros [Hc Hstr]. cbn [split].
  by rewrite (bool_decide_eq_false_2 _ Hc), (IH Hstr).
Qed.

Lemma split_prefix sep pre post :
  includes (String sep "") pre = false →
  split sep (pre +:+ String sep post) = pre :: split sep post.
Proof.
  induction pre as [|c pre IH].
  - intros _. change ("" +:+ String sep post) with (String sep post).
    cbn [split]. by rewrite bool_decide_eq_true_2.
  - rewrite includes_sep_cons. intros [Hc Hpre].
    change (String c pre +:+ String sep post)
      with (String c (pre +:+ String sep post)).
    cbn [split]. by rewrite (bool_decide_eq_false_2 _ Hc), (IH Hpre).
Qed.

Lemma split_one sep str part :
  split sep str = [part] →
  str = part ∧ includes (String sep "") str = false.
Proof.
  revert part. induction str as [|c str IH]; intros part; cbn [split].
  - by intros [= <-].
  - case_bool_decide as Hc.
    + pose proof (split_not_nil sep str). by destruct (split sep str).
    + destruct (split sep str) as [|p ps] eqn:Hsplit;
        [by destruct (split_not_nil sep str)|].
      intros [= <- ->]. destruct (IH p eq_refl) as [-> Hno].
      split; [done|]. by apply includes_sep_cons.
Qed.

Lemma split_two sep str a b :
  split sep str = [a; b] →
  str = a +:+ String sep b ∧ includes (String sep "") b = false.
Proof.
  revert a. induction str as [|c str IH]; intros a; cbn [split]; [done|].
  case_bool_decide as Hc.
  - intros [= <- Hb]. apply split_one in Hb as [-> Hno]. by subst c.
  - destruct (split sep str) as [|p ps] eqn:Hsplit; [by intros [=]|].
    intros [= <- ->]. destruct (IH p eq_refl) as [-> Hno]. done.
Qed.

End HeaderFacts.

(** X24.  [extractTokenFromHeader] yields a token exactly for a header
    that is the word Bearer, one space, and a token without a space in
    it; nothing else passes (the token may be empty). *)
Theorem extractTokenFromHeader_spec (authHeader : option string) (token : string) :
  extractTokenFromHeader authHeader = Some token
  ↔ authHeader = Some ("Bearer " +:+ token) ∧ includes " " token = false.
Proof.
  unfold extractTokenFromHeader. split.
  - destruct authHeader as [h|]; [|done]. case_bool_decide; [done|].
    destruct (split " " h) as [|scheme [|tok [|? ?]]] eqn:Hsplit; try done.
    case_bool_decide as Hscheme; [|done]. intros [= ->].
    apply split_two in Hsplit as [-> Hno]. by subst scheme.
  - intros [-> Hno]. rewrite bool_decide_eq_false_2 by done.
    change ("Bearer " +:+ token) with ("Bearer" +:+ String " " token).
    rewrite split_prefix by reflexivity. rewrite (split_no_sep _ _ Hno).
    by rewrite bool_decide_eq_true_2.
Qed.

(** X25.  The two readings of a token's [exp] agree up to the second:
    [isTokenExpired] is false at a time exactly when [getTokenExpiration]
    gives a date and the time is less than one second past it.  A token
    that does not decode, or has no [exp] (or 0), counts as expired and
    has no expiration date. *)
Theorem isTokenExpired_vs_getTokenExpiration
    (decode : string → option (option Z)) (token : string) (now : Date) :
  isTokenExpired decode token now = false
  ↔ ∃ expires, getTokenExpiration decode token = Some expires
               ∧ now < expires + 1000.
Proof.
  unfold isTokenExpired, getTokenExpiration.
  destruct (decode token) as [[exp|]|].
  - case_bool_decide.
    + split; [done | by intros (? & ? & ?)].
    + rewrite Z.ltb_ge. split.
      * intros Hle. exists (exp * 1000). split; [done|].
        pose proof (Z.div_mod now 1000 ltac:(lia)).
        pose proof (Z.mod_pos_bound now 1000 ltac:(lia)). lia.
      * intros (? & [= <-] & Hlt).
        pose proof (Z.div_mod now 1000 ltac:(lia)).
        pose proof (Z.mod_pos_bound now 1000 ltac:(lia)). lia.
  - split; [done | by intros (? & ? & ?)].
  - split; [done | by intros (? & ? & ?)].
Qed.

(** ** Accounts and sessions, in full *)

Section AccountFacts.
Variable hash : string → string.
Variable compare : string → string → bool.
Variable sign : UserService.Payload → SignOptions → string.
Variable JWT_EXPIRES_IN : option string.
Variable verify : string → JwtFailure + UserService.Payload.
Variable development : bool.

Lemma findOne_None (filter : ObjectId → User → bool) (users : Users) :
  (∀ id u, users !! id = Some u → filter id u = false) →
  findOne filter users = None.
Proof.
  intros Hall. unfold findOne.
  destruct (List.find _ _) as [[id u]|] eqn:Hfind; [|done].
  apply find_some in Hfind as [Hin Hyes]. cbn [fst snd] in Hyes.
  apply list_elem_of_In, elem_of_map_to_list in Hin.
  by rewrite (Hall _ _ Hin) in Hyes.
Qed.

(** A unit of work that fails the same retryable way each time is run
    three times, 200 ms and 400 ms apart. *)
Lemma retryable_failure_exhausts {D A} (f : D → (A + JsError) * D) d d' e :
  f d = (inr e, d') → isRetryableError e = true →
  withRetryableTransaction (on_data f) 3 (tt, d)
  = mkRun (Throw (Some e)) (tt, d) [200; 400].
Proof.
  intros Hf He. unfold withRetryableTransaction.
  assert (withTransaction (on_data f) (tt, d) = (inr e, (tt, d))) as Htxn
    by (unfold withTransaction, on_data; cbn [fst snd]; by rewrite Hf).
  cbn [retry_loop]. rewrite !Htxn, He. reflexivity.
Qed.

Lemma changePassword_refused userId currentPassword newPassword now users msg :
  changePassword_operations hash compare userId currentPassword newPassword now
    users = (inr (Error msg), users) →
  changePassword hash compare userId currentPassword newPassword now users
  = mkRun (Throw (Some (Error msg))) (tt, users) [].
Proof.
  intros Hop. unfold changePassword.
  apply (unlisted_failure_propagates _ 3 (tt, users) (tt, users)); [lia| |done].
  unfold on_data. cbn [fst snd]. by rewrite Hop.
Qed.

Lemma bearer_token_Bearer token :
  includes " " token = false →
  bearer_token (Some ("Bearer " +:+ token)) = Some token.
Proof.
  intros Hno. unfold bearer_token.
  rewrite bool_decide_eq_false_2 by done.
  change ("Bearer " +:+ token) with ("Bearer" +:+ String " " token) at 2.
  rewrite split_prefix by reflexivity. by rewrite (split_no_sep _ _ Hno).
Qed.

Lemma protect_decoded authorization token decoded users :
  bearer_token authorization = Some token → token ≠ "" →
  verify token = inr decoded →
  protect verify development authorization users
  = match users !! p_id decoded with
    | None =>
        Refused 401 "The user belonging to this token does no longer exist."
          (Some "USER_NOT_FOUND") None
    | Some currentUser =>
        if negb (isActive currentUser)
        then Refused 401
               "Your account has been deactivated. Please contact support."
               (Some "ACCOUNT_DEACTIVATED") None
        else if passwordChangedAfterJWT currentUser (p_iat decoded)
        then Refused 401 "User recently changed password! Please log in again."
               (Some "PASSWORD_CHANGED") None
        else Granted (p_id decoded) currentUser
    end.
Proof.
  intros Hb Htok Hv. unfold protect.
  by rewrite Hb, (bool_decide_eq_false_2 _ Htok), Hv.
Qed.

End AccountFacts.

Section RegisterFacts.
Variable hash : string → string.
Variable sign : UserService.Payload → SignOptions → string.
Variable JWT_EXPIRES_IN : option string.

Lemma nobody_shares_an_index (u : User) (users : Users) :
  (∀ id u', users !! id = Some u' → email u' ≠ email u ∧ username u' ≠ username u) →
  breaks_unique_index u users = false.
Proof.
  intros Hall. unfold breaks_unique_index.
  destruct (existsb _ _) eqn:Hex; [|done].
  apply existsb_exists in Hex as ([id u'] & Hin & Hyes). cbn [snd] in Hyes.
  apply list_elem_of_In, elem_of_map_to_list in Hin.
  destruct (Hall _ _ Hin) as [Hmail Hname].
  by rewrite !bool_decide_eq_false_2 in Hyes.
Qed.

(** Registration with a name, an email and an id that no stored user
    has. *)
Lemma register_fresh name mail pw now newId users :
  users !! newId = None →
  (∀ id u, users !! id = Some u → email u ≠ mail ∧ username u ≠ name) →
  register hash sign JWT_EXPIRES_IN name mail pw now newId users
  = mkRun
      (Return (createTokenResponse JWT_EXPIRES_IN newId
                 (mkUser name mail (hash pw) true (Some now) (Some now)) now
                 (generateToken sign JWT_EXPIRES_IN newId now)
                 (Some (generateRefreshToken sign newId now))))
      (tt, <[newId := mkUser name mail (hash pw) true (Some now) (Some now)]> users)
      [].
Proof.
  intros Hfresh Hnobody. unfold register.
  apply first_attempt_succeeds; [lia|].
  unfold on_data, register_operations. cbn [fst snd].
  rewrite !findOne_None.
  - rewrite !(bool_decide_eq_false_2 (is_Some None)) by (by intros [? ?]).
    unfold user_insert. cbn [user_id user_doc]. rewrite Hfresh.
    rewrite (bool_decide_eq_false_2 (is_Some None)) by (by intros [? ?]).
    rewrite nobody_shares_an_index by exact Hnobody.
    reflexivity.
  - intros id u Hu. destruct (Hnobody _ _ Hu) as [_ Hname].
    by rewrite bool_decide_eq_false_2.
  - intros id u Hu. destruct (Hnobody _ _ Hu) as [Hmail _].
    by rewrite bool_decide_eq_false_2.
Qed.

End RegisterFacts.

(** X26.  A refused password change changes nothing and is not
    retried.  For a user id that is not stored, for a wrong current
    password, and for a new password equal to the current one, the call
    fails with the matching message at the first attempt, after no wait,
    and the users are as before. *)
Theorem changePassword_refusals
    (hash : string → string) (compare : string → string → bool)
    (userId : ObjectId) (currentPassword newPassword : string) (now : Date)
    (users : Users) :
  let answer := changePassword hash compare userId currentPassword newPassword
                  now users in
  let refused (msg : string) := mkRun (Throw (Some (Error msg))) (tt, users) [] in
  (users !! userId = None → answer = refused "User not found")
  ∧ (∀ u, users !! userId = Some u →
          compare currentPassword (password u) = false →
          answer = refused "Current password is incorrect")
  ∧ (∀ u, users !! userId = Some u →
          compare currentPassword (password u) = true →
          compare newPassword (password u) = true →
          answer = refused "New password must be different from current password").
Proof.
  intros answer refused. unfold answer, refused. split; [|split].
  - intros Hnone. apply changePassword_refused.
    unfold changePassword_operations. by rewrite Hnone.
  - intros u Hu Hwrong. apply changePassword_refused.
    unfold changePassword_operations. by rewrite Hu, Hwrong.
  - intros u Hu Hright Hsame. apply changePassword_refused.
    unfold changePassword_operations. by rewrite Hu, Hright, Hsame.
Qed.

Lemma changePassword_refusals_witness :
  changePassword Scenarios.toy_hash Scenarios.toy_compare Scenarios.alice
    "wrong" "new" 5000 Scenarios.one_user
  = mkRun (Throw (Some (Error "Current password is incorrect")))
      (tt, Scenarios.one_user) []
  ∧ changePassword Scenarios.toy_hash Scenarios.toy_compare Scenarios.bob
      "old" "new" 5000 Scenarios.one_user
    = mkRun (Throw (Some (Error "User not found"))) (tt, Scenarios.one_user) []
  ∧ changePassword Scenarios.toy_hash Scenarios.toy_compare Scenarios.alice
      "old" "old" 5000 Scenarios.one_user
    = mkRun (Throw (Some (Error "New password must be different from current password")))
        (tt, Scenarios.one_user) [].
Proof.
  pose (u := mkUser "alice" "alice@example.org" (Scenarios.toy_hash "old")
               true None (Some 0)).
  split; [|split].
  - apply (proj1 (proj2 (changePassword_refusals Scenarios.toy_hash
                           Scenarios.toy_compare Scenarios.alice "wrong" "new"
                           5000 Scenarios.one_user)) u); reflexivity.
  - apply (proj1 (changePassword_refusals Scenarios.toy_hash
                    Scenarios.toy_compare Scenarios.bob "old" "new"
                    5000 Scenarios.one_user)); reflexivity.
  - apply (proj2 (proj2 (changePassword_refusals Scenarios.toy_hash
                           Scenarios.toy_compare Scenarios.alice "old" "old"
                           5000 Scenarios.one_user)) u); reflexivity.
Defined.



(** X28.  A deactivated account keeps its email.  When the
    email asked for belongs to a deactivated user and to no active one,
    [checkEmailExists] answers false, yet [register] fails: both of its
    own checks pass, the insert breaks the unique index, the executor
    retries the duplicate-key failure twice (after 200 ms and 400 ms) and
    then hands it on as it is; no user is added. *)
Theorem register_blocked_by_deactivated_account
    (hash : string → string) (sign : UserService.Payload → SignOptions → string)
    (JWT_EXPIRES_IN : option string) (name mail pw : string) (now : Date)
    (newId holder : ObjectId) (h : User) (users : Users) :
  users !! holder = Some h → isActive h = false → email h = mail →
  (∀ id u, users !! id = Some u → isActive u = true →
           email u ≠ mail ∧ username u ≠ name) →
  checkEmailExists mail users = false
  ∧ register hash sign JWT_EXPIRES_IN name mail pw now newId users
    = mkRun (Throw (Some DuplicateKey)) (tt, users) [200; 400].
Proof.
  intros Hh Hinactive Hmail Hactive.
  assert (∀ f : ObjectId → bool,
            findOne (λ id u, bool_decide (email u = mail) && isActive u && f id)
              users = None) as Hno_mail.
  { intros f. apply findOne_None. intros id u Hu.
    destruct (isActive u) eqn:Hact; [|by rewrite andb_false_r].
    destruct (Hactive _ _ Hu Hact) as [Hne _].
    by rewrite (bool_decide_eq_false_2 _ Hne). }
  split.
  - unfold checkEmailExists, emailExists.
    rewrite (Hno_mail (not_excluded None)).
    apply bool_decide_eq_false_2. by intros [? ?].
  - unfold register.
    apply (retryable_failure_exhausts _ users users); [|reflexivity].
    unfold register_operations.
    rewrite !findOne_None.
    + rewrite !(bool_decide_eq_false_2 (is_Some None)) by (by intros [? ?]).
      unfold user_insert. cbn [user_id user_doc].
      assert (breaks_unique_index (mkUser name mail pw true (Some now) (Some now))
                users = true) as ->; [|by rewrite orb_true_r].
      unfold breaks_unique_index. apply existsb_exists.
      exists (holder, h). split.
      * by apply list_elem_of_In, elem_of_map_to_list.
      * cbn [snd email]. by rewrite (bool_decide_eq_true_2 _ Hmail).
    + intros id u Hu.
      destruct (isActive u) eqn:Hact; [|by rewrite andb_false_r].
      destruct (Hactive _ _ Hu Hact) as [_ Hne].
      by rewrite (bool_decide_eq_false_2 _ Hne).
    + intros id u Hu.
      destruct (isActive u) eqn:Hact; [|by rewrite andb_false_r].
      destruct (Hactive _ _ Hu Hact) as [Hne _].
      by rewrite (bool_decide_eq_false_2 _ Hne).
Qed.

Lemma register_blocked_by_deactivated_account_witness :
  checkEmailExists "carol@example.org" Scenarios.with_carol = false
  ∧ register Scenarios.toy_hash Scenarios.toy_sign None "carol_again"
      "carol@example.org" "Secret#1" 5000 10%N Scenarios.with_carol
    = mkRun (Throw (Some DuplicateKey)) (tt, Scenarios.with_carol) [200; 400].
Proof.
  apply (register_blocked_by_deactivated_account Scenarios.toy_hash
           Scenarios.toy_sign None "carol_again" "carol@example.org" "Secret#1"
           5000 10%N Scenarios.carol
           (mkUser "carol" "carol@example.org" (Scenarios.toy_hash "pw") false
              None (Some 0))
           Scenarios.with_carol); [reflexivity..|].
  intros id u Hu Hact. apply elem_of_map_to_list in Hu. vm_compute in Hu.
  repeat (apply elem_of_cons in Hu as [[= -> ->]|Hu];
          [first [discriminate Hact | split; discriminate]|]).
  by apply elem_of_nil in Hu.
Defined.

(** X29.  Registration, then the first request.  With a name, an email
    and a password that the user schema's validators accept and its
    setters leave as they are (ASCII text; a name of 3 to 30 letters,
    digits and underscores; a lower-case email of 5 to 255 characters
    that matches the schema's pattern; a password of 8 to 128
    characters), and a name, an email and an id that no stored user has,
    [register] succeeds at the first attempt: it stores the user with the
    hashed password, active, with [lastLogin] and [passwordChangedAt] at
    the time of registration, and changes no other user.  A request that
    carries the access token it returned ([jwt.verify] reading back what
    [jwt.sign] wrote, a token being non-empty and without spaces) is let
    through by [protect] as that user. *)
Theorem register_then_protect
    (hash : string → string) (sign : UserService.Payload → SignOptions → string)
    (JWT_EXPIRES_IN : option string)
    (verify : string → JwtFailure + UserService.Payload) (development : bool)
    (name mail pw : string) (now : Date) (newId : ObjectId) (users : Users) :
  let token := generateToken sign JWT_EXPIRES_IN newId now in
  let stored := mkUser name mail (hash pw) true (Some now) (Some now) in
  UserService.accepts name mail pw = true →
  users !! newId = None →
  (∀ id u, users !! id = Some u → email u ≠ mail ∧ username u ≠ name) →
  0 ≤ now →
  verify token = inr (mkPayload newId None (iat_of now)) →
  token ≠ "" → includes " " token = false →
  ∃ resp users',
    register hash sign JWT_EXPIRES_IN name mail pw now newId users
    = mkRun (Return resp) (tt, users') []
    ∧ tr_id resp = newId ∧ tr_username resp = name ∧ tr_email resp = mail
    ∧ accessToken resp = token
    ∧ users' = <[newId := stored]> users
    ∧ protect verify development (Some ("Bearer " +:+ accessToken resp)) users'
      = Granted newId stored.
Proof.
  intros token stored _ Hfresh Hnobody Hnow Hverify Htok Hspace.
  eexists _, _. split; [by apply register_fresh|].
  cbn [createTokenResponse tr_id tr_username tr_email accessToken username email].
  do 5 (split; [reflexivity|]). fold token.
  rewrite (protect_decoded verify development _ token _ _
             (bearer_token_Bearer _ Hspace) Htok Hverify).
  cbn [p_id p_iat]. rewrite lookup_insert_eq. unfold stored.
  cbn [isActive negb]. unfold passwordChangedAfterJWT, iat_of.
  cbn [passwordChangedAt].
  rewrite Z.quot_div_nonneg by lia. by rewrite Z.ltb_irrefl.
Qed.

Lemma register_then_protect_witness :
  ∃ resp users',
    register Scenarios.toy_hash Scenarios.toy_sign None "alice"
      "alice@example.org" "Secret!1" 1000000 Scenarios.alice ∅
    = mkRun (Return resp) (tt, users') []
    ∧ tr_id resp = Scenarios.alice ∧ tr_username resp = "alice"
    ∧ tr_email resp = "alice@example.org"
    ∧ accessToken resp
      = generateToken Scenarios.toy_sign None Scenarios.alice 1000000
    ∧ users' = <[Scenarios.alice := mkUser "alice" "alice@example.org"
                                     (Scenarios.toy_hash "Secret!1") true
                                     (Some 1000000) (Some 1000000)]> ∅
    ∧ protect Scenarios.toy_verify false
        (Some ("Bearer " +:+ accessToken resp)) users'
      = Granted Scenarios.alice
          (mkUser "alice" "alice@example.org" (Scenarios.toy_hash "Secret!1")
             true (Some 1000000) (Some 1000000)).
Proof.
  apply (register_then_protect Scenarios.toy_hash Scenarios.toy_sign None
           Scenarios.toy_verify false "alice" "alice@example.org" "Secret!1"
           1000000 Scenarios.alice ∅).
  - vm_compute. reflexivity.
  - reflexivity.
  - intros id u Hu. by rewrite lookup_empty in Hu.
  - lia.
  - vm_compute. reflexivity.
  - vm_compute. discriminate.
  - vm_compute. reflexivity.
Defined.

(** X30.  No refresh token is ever redeemed, and [optionalAuth]
    never sets a user.  Both end on a call of [changedPasswordAfter], a
    method the user schema does not define; in [refreshToken] the failure
    comes out as the one error of its [catch], as every other failure
    does, and in [optionalAuth] the request goes on unauthenticated.
    This holds for every token, the refresh token that [register] hands
    out included. *)
Theorem refresh_and_optionalAuth_never_succeed
    (verify : string → JwtFailure + UserService.Payload)
    (token : string) (authorization : option string) (now : Date)
    (users : Users) :
  refreshToken verify token now users
  = Throw (Some (Error "Invalid or expired refresh token"))
  ∧ optionalAuth verify authorization users = None.
Proof.
  split.
  - unfold refreshToken. destruct (verify token) as [|decoded]; [done|].
    destruct (negb _); [done|].
    destruct (users !! p_id decoded) as [u|]; [|done]. by destruct (negb _).
  - unfold optionalAuth. destruct (bearer_token authorization) as [tok|]; [|done].
    destruct (bool_decide _); [done|].
    destruct (verify tok) as [|decoded]; [done|].
    destruct (users !! p_id decoded) as [u|]; [|done]. by destruct (negb _).
Qed.
